(** * Verification of the H3 map viewer, [src/App.tsx]

    The colour ramp [getKeplerColor], the CSV loader [loadCSVData], the
    range computed by the effect [loadData], the fill colour of a cell and
    the three screens of [App], over IEEE 754 binary64 numbers as Rocq's
    primitive floats give them. *)

From Stdlib Require Import ZArith NArith Floats List Lia Bool Ascii String.
Import ListNotations.
Local Open Scope Z_scope.

(** * JavaScript values and built-ins used by [src/App.tsx] *)

(** A JS [number] is an IEEE 754 binary64 value. *)
Definition number : Type := float.

(** ** Math.round: the integral number closest to [x], ties towards
    +Infinity; NaN, the infinities and integral numbers are returned as
    they are; a negative result that rounds to zero is -0. *)
Definition Math_round (x : number) : number :=
  match Prim2SF x with
  | S754_finite s m e =>
      if 0 <=? e then x
      else
        let k := - e in
        let q := Z.shiftr (Zpos m) k in
        let r := Z.land (Zpos m) (Z.ones k) in
        let half := Z.shiftl 1 (k - 1) in
        let n := if s then (if half <? r then q + 1 else q)
                 else (if half <=? r then q + 1 else q) in
        SF2Prim (binary_normalize prec emax (if s then - n else n) 0 s)
  | _ => x
  end.

(** ** Math.min / Math.max over the spread argument list *)
Definition is_neg_zero (x : number) : bool := is_zero x && get_sign x.
Definition is_pos_zero (x : number) : bool := is_zero x && negb (get_sign x).

Fixpoint Math_min_from (lowest : number) (coerced : list number) : number :=
  match coerced with
  | [] => lowest
  | n :: rest =>
      if is_nan n then nan
      else
        let lowest := if is_neg_zero n && is_pos_zero lowest then (-0)%float else lowest in
        let lowest := if (n <? lowest)%float then n else lowest in
        Math_min_from lowest rest
  end.

Definition Math_min (args : list number) : number := Math_min_from infinity args.

Fixpoint Math_max_from (highest : number) (coerced : list number) : number :=
  match coerced with
  | [] => highest
  | n :: rest =>
      if is_nan n then nan
      else
        let highest := if is_pos_zero n && is_neg_zero highest then 0%float else highest in
        let highest := if (highest <? n)%float then n else highest in
        Math_max_from highest rest
  end.

Definition Math_max (args : list number) : number := Math_max_from neg_infinity args.

(** ** isNaN on a number *)
Definition isNaN (x : number) : bool := is_nan x.

(** ** Strings: sequences of code units, here the code units below 256 *)

(** WhiteSpace and LineTerminator code units: TAB, LF, VT, FF, CR, SP, NBSP. *)
Definition is_white_space (c : ascii) : bool :=
  match nat_of_ascii c with
  | 9 | 10 | 11 | 12 | 13 | 32 | 160 => true
  | _ => false
  end%nat.

Fixpoint trimStart (s : string) : string :=
  match s with
  | String c r => if is_white_space c then trimStart r else s
  | EmptyString => EmptyString
  end.

Fixpoint string_rev_append (s acc : string) : string :=
  match s with
  | EmptyString => acc
  | String c r => string_rev_append r (String c acc)
  end.

Definition string_rev (s : string) : string := string_rev_append s EmptyString.

Definition trimEnd (s : string) : string := string_rev (trimStart (string_rev s)).

(** String.prototype.trim *)
Definition trim (s : string) : string := trimEnd (trimStart s).

(** String.prototype.split with a one-character separator. *)
Fixpoint split (sep : ascii) (s : string) : list string :=
  match s with
  | EmptyString => [EmptyString]
  | String c r =>
      if Ascii.eqb c sep then EmptyString :: split sep r
      else match split sep r with
           | h :: t => String c h :: t
           | [] => [String c EmptyString]
           end
  end.

(** ** parseFloat *)
Definition is_digit (c : ascii) : bool :=
  let n := nat_of_ascii c in (48 <=? n)%nat && (n <=? 57)%nat.

Definition digit_value (c : ascii) : Z := Z.of_nat (nat_of_ascii c) - 48.

(** Reads the longest run of decimal digits: the value accumulated on
    [acc], the number of digits read and the rest of the string. *)
Fixpoint take_digits (s : string) (acc : Z) (count : Z) : Z * Z * string :=
  match s with
  | String c r =>
      if is_digit c then take_digits r (10 * acc + digit_value c) (count + 1)
      else (acc, count, s)
  | EmptyString => (acc, count, s)
  end.

Definition take_sign (s : string) : bool * string :=
  match s with
  | String "+" r => (false, r)
  | String "-" r => (true, r)
  | _ => (false, s)
  end.

(** The value of an ExponentPart at the head of [s], 0 when there is none. *)
Definition parse_exponent (s : string) : Z :=
  match s with
  | String c r =>
      if Ascii.eqb c "e" || Ascii.eqb c "E" then
        let '(neg, r1) := take_sign r in
        let '(v, n, _) := take_digits r1 0 0 in
        if n =? 0 then 0 else if neg then - v else v
      else 0
  | EmptyString => 0
  end.

(** The number nearest to [(-1)^neg * D * 10^e10], where [D] was written
    with [nd] digits. *)
Definition decimal_to_number (neg : bool) (D e10 nd : Z) : number :=
  if D =? 0 then SF2Prim (S754_zero neg)
  else if 0 <=? e10 then
    if 400 <? e10 then SF2Prim (S754_infinity neg)
    else SF2Prim (binary_normalize prec emax (cond_Zopp neg (D * 10 ^ e10)) 0 false)
  else if nd + 400 <? - e10 then SF2Prim (S754_zero neg)
  else
    let '(q, e, l) := SFdiv_core_binary prec emax D 0 (10 ^ (- e10)) 0 in
    SF2Prim (binary_round_aux prec emax neg q e l).

Definition parseFloat_string (input : string) : number :=
  let trimmed := trimStart input in
  let '(neg, s) := take_sign trimmed in
  if prefix "Infinity" s then SF2Prim (S754_infinity neg)
  else
    let '(ip, ni, s1) := take_digits s 0 0 in
    let '(fp, nf, s2) :=
      match s1 with
      | String "." r => take_digits r ip 0
      | _ => (ip, 0, s1)
      end in
    if ni + nf =? 0 then nan
    else decimal_to_number neg fp (parse_exponent s2 - nf) (ni + nf).

(** ToString of a value that is a string or [undefined]. *)
Definition ToString (v : option string) : string :=
  match v with
  | Some s => s
  | None => "undefined"
  end.

Definition parseFloat (v : option string) : number := parseFloat_string (ToString v).

(** * The application, [src/App.tsx] *)

Definition color : Type := number * number * number * number.

Local Open Scope float_scope.

(** [getKeplerColor], lines 9-50. *)
Definition getKeplerColor (normalized : number) : color :=
  if normalized <=? 0.25 then
    let t := normalized / 0.25 in
    (Math_round (68 + (59 - 68) * t),
     Math_round (1 + (82 - 1) * t),
     Math_round (84 + (139 - 84) * t),
     200)
  else if normalized <=? 0.5 then
    let t := (normalized - 0.25) / 0.25 in
    (Math_round (59 + (33 - 59) * t),
     Math_round (82 + (144 - 82) * t),
     Math_round (139 + (140 - 139) * t),
     200)
  else if normalized <=? 0.75 then
    let t := (normalized - 0.5) / 0.25 in
    (Math_round (33 + (94 - 33) * t),
     Math_round (144 + (201 - 144) * t),
     Math_round (140 + (98 - 140) * t),
     200)
  else
    let t := (normalized - 0.75) / 0.25 in
    (Math_round (94 + (253 - 94) * t),
     Math_round (201 + (231 - 201) * t),
     Math_round (98 + (37 - 98) * t),
     200).

Local Close Scope float_scope.

(** A parsed row; a field read past the end of [values] is [undefined]. *)
Record Cell : Type := mkCell {
  city : option string;
  locality : option string;
  h3index : option string;
  poiCode : option string;
  val_trans : number
}.

(** Truthiness of a value that is a string or [undefined]. *)
Definition truthy (v : option string) : bool :=
  match v with
  | Some (String _ _) => true
  | _ => false
  end.

Definition newline : ascii := ascii_of_nat 10.
Definition comma : ascii := ascii_of_nat 44.

Definition not_blank (line : string) : bool :=
  negb (String.eqb (trim line) EmptyString).

Definition parseLine (line : string) : Cell :=
  let values := split comma line in
  {| city := nth_error values 0;
     locality := nth_error values 1;
     h3index := nth_error values 2;
     poiCode := nth_error values 3;
     val_trans := parseFloat (nth_error values 4) |}.

Definition keep_item (item : Cell) : bool :=
  truthy (h3index item) && negb (isNaN (val_trans item)).

(** Lines 58-72 of [loadCSVData]: from the text of the response to the rows. *)
Definition parseCSV (csvText : string) : list Cell :=
  let lines := split newline csvText in
  filter keep_item (map parseLine (filter not_blank (tl lines))).

(** The settlement of a promise. *)
Inductive outcome (A : Type) : Type :=
| Resolved (value : A)
| Rejected (error : string).
Arguments Resolved {A} value.
Arguments Rejected {A} error.

Definition bind {A B : Type} (m : outcome A) (k : A -> outcome B) : outcome B :=
  match m with
  | Resolved a => k a
  | Rejected e => Rejected e
  end.

Notation "x <- m ;; k" := (bind m (fun x => k))
  (at level 61, m at next level, right associativity).

(** What [fetch] of the CSV asset does: it rejects, or resolves to a
    response whose [text()] rejects or resolves to the body. *)
Record Response : Type := mkResponse { text : outcome string }.
Definition Network : Type := outcome Response.

(** One call of [console.error]. *)
Definition console : Type := list (string * string).

(** The arguments of the [console.error] call of the handler. *)
Definition error_entry (error : string) : string * string :=
  ("Error loading CSV data:"%string, error).

Definition loadCSVData_try (fetch : Network) : outcome (list Cell) :=
  response <- fetch ;;
  csvText <- text response ;;
  Resolved (parseCSV csvText).

(** [loadCSVData], lines 53-79: the rows and what was logged. *)
Definition loadCSVData (fetch : Network) : list Cell * console :=
  match loadCSVData_try fetch with
  | Resolved data => (data, [])
  | Rejected error => ([], [error_entry error])
  end.

Record Range : Type := mkRange { min : number; max : number }.

Record AppState : Type := mkState {
  data : list Cell;
  loading : bool;
  dataRange : Range
}.

(** The three [useState] initial values. *)
Definition initialState : AppState :=
  {| data := []; loading := true; dataRange := {| min := 0%float; max := 0%float |} |}.

Definition setLoading (b : bool) (st : AppState) : AppState :=
  {| data := data st; loading := b; dataRange := dataRange st |}.
Definition setData (d : list Cell) (st : AppState) : AppState :=
  {| data := d; loading := loading st; dataRange := dataRange st |}.
Definition setDataRange (r : Range) (st : AppState) : AppState :=
  {| data := data st; loading := loading st; dataRange := r |}.

(** What the engine allows in one call.  A call with more than
    [max_arguments] arguments throws a RangeError; the spread of lines 94-95
    passes every value as one argument.  The language does not fix the
    limit: it is 65536 in JavaScriptCore and follows the stack size in V8. *)
Record Engine : Type := mkEngine { max_arguments : N }.

Definition RangeError : string := "RangeError: Maximum call stack size exceeded".

(** The call [f(...args)]. *)
Definition spread (engine : Engine) (f : list number -> number) (args : list number)
  : outcome number :=
  if (N.of_nat (List.length args) <=? max_arguments engine)%N then Resolved (f args)
  else Rejected RangeError.

(** One run of the effect: the state it leaves, what was logged, and the
    settlement of the promise of [loadData], which nothing awaits. *)
Record Run : Type := mkRun {
  state : AppState;
  logged : console;
  settled : outcome unit
}.

(** The effect [loadData], lines 87-100.  An exception of line 94 or 95
    leaves the function before [setDataRange] and [setLoading(false)]. *)
Definition loadData (engine : Engine) (fetch : Network) (st : AppState) : Run :=
  let st := setLoading true st in
  let '(csvData, log) := loadCSVData fetch in
  let st := setData csvData st in
  if (0 <? List.length csvData)%nat then
    let values := map val_trans csvData in
    match spread engine Math_min values with
    | Rejected error => {| state := st; logged := log; settled := Rejected error |}
    | Resolved min =>
        match spread engine Math_max values with
        | Rejected error => {| state := st; logged := log; settled := Rejected error |}
        | Resolved max =>
            let st := setDataRange {| min := min; max := max |} st in
            {| state := setLoading false st; logged := log; settled := Resolved tt |}
        end
    end
  else {| state := setLoading false st; logged := log; settled := Resolved tt |}.

(** [getFillColor] of the polygon layer, lines 128-132. *)
Definition getFillColor (dataRange : Range) (d : Cell) : color :=
  let v := val_trans d in
  let normalized := ((v - min dataRange) / (max dataRange - min dataRange))%float in
  getKeplerColor normalized.

Section Render.
(** The two functions of h3-js the component calls. *)
Variable cellToLatLng : option string -> number * number.
Variable cellToBoundary : option string -> bool -> list (number * number).

Record ViewState : Type := mkViewState {
  longitude : number; latitude : number; zoom : number; pitch : number; bearing : number
}.

Record Polygon : Type := mkPolygon {
  polygon : list (number * number);
  fillColor : color;
  lineColor : color
}.

Inductive View : Type :=
| LoadingScreen
| ErrorScreen
| MapScreen (initialViewState : ViewState) (hexLayer : list Polygon).

(** What [App] returns for a state, lines 105-200. *)
Definition render (st : AppState) : View :=
  if loading st then LoadingScreen
  else match data st with
       | [] => ErrorScreen
       | first :: _ =>
           let center := cellToLatLng (h3index first) in
           MapScreen
             {| longitude := snd center; latitude := fst center;
                zoom := 12%float; pitch := 0%float; bearing := 0%float |}
             (map (fun d => {| polygon := cellToBoundary (h3index d) true;
                               fillColor := getFillColor (dataRange st) d;
                               lineColor := (255, 255, 255, 80)%float |})
                  (data st))
       end.
End Render.

(** Number.isInteger: finite and without a fractional part. *)
Definition Number_isInteger (x : number) : bool :=
  match Prim2SF x with
  | S754_zero _ => true
  | S754_finite _ m e => (0 <=? e) || (Zpos m mod 2 ^ (- e) =? 0)
  | _ => false
  end.

(** A colour channel the renderer accepts: an integer from 0 to 255. *)
Definition valid_channel (c : number) : bool :=
  Number_isInteger c && (0 <=? c)%float && (c <=? 255)%float.

(** * The specification's reading of the loader *)

(** The non-blank lines after the header. *)
Definition data_lines (csvText : string) : list string :=
  filter not_blank (tl (split newline csvText)).

Definition third_field_empty (line : string) : bool :=
  match nth_error (split comma line) 2 with
  | Some EmptyString => true
  | _ => false
  end.

Definition fifth_field_not_numeric (line : string) : bool :=
  isNaN (parseFloat (nth_error (split comma line) 4)).

Definition spec_dropped (line : string) : bool :=
  third_field_empty line || fifth_field_not_numeric line.

(** * Sample inputs *)

(** Two rows with different values, a header alone, two rows with the same
    value. *)
Definition two_rows_csv : string := "city,loc,id,code,val
Mumbai,Andheri,8960100000000,A1,5.0
Mumbai,Bandra,8960100000001,A2,15.0".

Definition header_only_csv : string := "city,loc,id,code,val".

Definition equal_values_csv : string := "city,loc,id,code,val
Mumbai,Andheri,8960100000000,A1,5.0
Mumbai,Bandra,8960100000001,A2,5.0".

Definition serves (csvText : string) : Network :=
  Resolved {| text := Resolved csvText |}.

(** An engine with the argument limit of JavaScriptCore. *)
Definition engine65536 : Engine := {| max_arguments := 65536 |}.

(** A response of a header line and [n] rows. *)
Fixpoint many_rows (n : nat) : string :=
  match n with
  | O => EmptyString
  | S k => String newline ("Mumbai,Andheri,8960100000000,A1,5.0" ++ many_rows k)
  end.

Definition large_csv (n : N) : string :=
  ("city,loc,id,code,val" ++ many_rows (N.to_nat n))%string.

Definition andheri : Cell :=
  {| city := Some "Mumbai"%string; locality := Some "Andheri"%string;
     h3index := Some "8960100000000"%string; poiCode := Some "A1"%string;
     val_trans := 5%float |}.

(** * Helpers for stating properties of the loader *)

Fixpoint contains_char (c : ascii) (s : string) : bool :=
  match s with
  | EmptyString => false
  | String c' r => Ascii.eqb c' c || contains_char c r
  end.

(** Array.prototype.join with a one-character separator. *)
Fixpoint join (sep : ascii) (fields : list string) : string :=
  match fields with
  | [] => EmptyString
  | [f] => f
  | f :: rest => f ++ String sep (join sep rest)
  end.

(** [lo <= x <= hi] on numbers. *)
Definition between (lo x hi : number) : bool := ((lo <=? x) && (x <=? hi))%float.
Arguments between (lo x hi)%_float.

(** * Exact values of binary64 numbers

    Every finite binary64 number is an integer multiple of [2^-1074]; the
    exact product of two of them is a multiple of [2^-2148].  Values are
    therefore compared as integers, scaled by [2^K]. *)

Definition K : Z := 2148.

(** Scaled magnitude of [M * 2^E]. *)
Definition V (M : positive) (E : Z) : Z := Zpos M * 2 ^ (E + K).

(** The scaled magnitude given to the infinities, above every finite value. *)
Definition INF : Z := 2 ^ (1024 + K).

(** The scaled value of 1, and of [2^-11]. *)
Definition U : Z := 2 ^ K.
Definition G : Z := 2 ^ (K - 11).

Definition SFz (x : spec_float) : Z :=
  match x with
  | S754_zero _ => 0
  | S754_infinity s => cond_Zopp s INF
  | S754_nan => 0
  | S754_finite s m e => cond_Zopp s (V m e)
  end.

Definition SFnum (x : spec_float) : bool :=
  match x with S754_nan => false | _ => true end.

Definition SFfin (x : spec_float) : bool :=
  match x with S754_zero _ | S754_finite _ _ _ => true | _ => false end.

Definition Fz (x : float) : Z := SFz (Prim2SF x).
Definition Fnum (x : float) : bool := SFnum (Prim2SF x).
Definition Ffin (x : float) : bool := SFfin (Prim2SF x).

(** What [k] right shifts of the mantissa [M] leave in a shift record. *)
Definition shr_inv (M : Z) (k : Z) (mrs : shr_record) : Prop :=
  shr_m mrs = M / 2 ^ k /\
  (M mod 2 ^ k = 0 -> shr_r mrs = false /\ shr_s mrs = false).

(** The rounding every arithmetic operation ends with. *)
Definition RND (s : bool) (M : positive) (E : Z) : spec_float :=
  binary_round_aux prec emax s (Zpos M) E loc_Exact.

(** [Rounds r X c]: [r] is a valid number that no representable bound
    separates from the exact value [X / c]. *)
Definition Rounds (r : spec_float) (X c : Z) : Prop :=
  valid_binary r = true /\ SFnum r = true /\
  (forall b, valid_binary b = true -> SFnum b = true -> X <= SFz b * c -> SFz r <= SFz b) /\
  (forall b, valid_binary b = true -> SFnum b = true -> SFz b * c <= X -> SFz b <= SFz r).

(** The number 0.25. *)
Definition SFquarter : spec_float := S754_finite false (2 ^ 52) (-54).


(** * Rounding to nearest as a function of the exact value *)

(** The multiple of [g] nearest to [x], the even one at a tie. *)
Definition rne (x g : Z) : Z :=
  let q := x / g in
  let r := x mod g in
  if (g <? 2 * r) || ((g =? 2 * r) && Z.odd q) then (q + 1) * g else q * g.

(** The scaled spacing of the binary64 numbers around the scaled magnitude
    [x]. *)
Definition ulp (x : Z) : Z := 2 ^ (Z.max (Z.log2 x + 1 - K - 53) (-1074) + K).

(** The scaled binary64 magnitude nearest to [x], infinity when it is out of
    range. *)
Definition round_mag (x : Z) : Z := Z.min (rne x (ulp x)) INF.

Definition round_value (x : Z) : Z :=
  if x <? 0 then - round_mag (- x) else round_mag x.

(** What [k] right shifts of the mantissa [M] leave in a shift record: the
    quotient, and in the two flags the place of the remainder with respect
    to one half of [2^k]. *)
Definition shr_bits (M : Z) (k : Z) (mrs : shr_record) : Prop :=
  shr_m mrs = M / 2 ^ k /\
  exists t, 0 <= t < 2 ^ k /\
            2 * (M mod 2 ^ k) = Z.b2z (shr_r mrs) * 2 ^ k + t /\
            (shr_s mrs = false <-> t = 0).

(** * Rounding of binary64 arithmetic *)

Lemma digits2_bounds (m : positive) :
  2 ^ (Zpos (digits2_pos m) - 1) <= Zpos m < 2 ^ Zpos (digits2_pos m).
Proof.
  induction m as [m IH | m IH |]; cbn [digits2_pos].
  - rewrite Pos2Z.inj_succ, Z.pow_succ_r by lia.
    replace (Z.succ (Zpos (digits2_pos m)) - 1) with (Z.succ (Zpos (digits2_pos m) - 1)) by lia.
    rewrite Z.pow_succ_r by lia. lia.
  - rewrite Pos2Z.inj_succ, Z.pow_succ_r by lia.
    replace (Z.succ (Zpos (digits2_pos m)) - 1) with (Z.succ (Zpos (digits2_pos m) - 1)) by lia.
    rewrite Z.pow_succ_r by lia. lia.
  - cbn. lia.
Qed.

Lemma pow2_pos (n : Z) : 0 <= n -> 0 < 2 ^ n.
Proof. intros. apply Z.pow_pos_nonneg; lia. Qed.

Lemma pow2_le (a b : Z) : 0 <= a <= b -> 2 ^ a <= 2 ^ b.
Proof. intros. apply Z.pow_le_mono_r; lia. Qed.

Lemma pow2_lt (a b : Z) : 0 <= a < b -> 2 ^ a < 2 ^ b.
Proof. intros. apply Z.pow_lt_mono_r; lia. Qed.

Lemma pow2_split (a b : Z) : 0 <= a -> 0 <= b -> 2 ^ (a + b) = 2 ^ a * 2 ^ b.
Proof. intros. apply Z.pow_add_r; lia. Qed.

Lemma digits2_unique (m : positive) (d : Z) :
  2 ^ (d - 1) <= Zpos m < 2 ^ d -> Zpos (digits2_pos m) = d.
Proof.
  intros [H1 H2]. pose proof (digits2_bounds m) as [B1 B2].
  assert (0 < d).
  { destruct (Z.lt_trichotomy d 0) as [L | [L | L]]; auto.
    - rewrite Z.pow_neg_r in H2 by lia. lia.
    - subst d. cbn in H2. lia. }
  set (dm := Zpos (digits2_pos m)) in *.
  assert (0 < dm) by (unfold dm; lia).
  destruct (Z.lt_trichotomy dm d) as [L | [L | L]]; auto; exfalso.
  - assert (2 ^ dm <= 2 ^ (d - 1)) by (apply pow2_le; lia). lia.
  - assert (2 ^ d <= 2 ^ (dm - 1)) by (apply pow2_le; lia). lia.
Qed.

(** shifting right *)
Lemma iter_pos_nat {A} (f : A -> A) (p : positive) (x : A) :
  iter_pos f p x = Nat.iter (Pos.to_nat p) f x.
Proof.
  revert x. induction p as [p IH | p IH |]; intros x; cbn [iter_pos].
  - rewrite !IH, Pos2Nat.inj_xI. 
    replace (S (2 * Pos.to_nat p))%nat with (Pos.to_nat p + (Pos.to_nat p + 1))%nat by lia.
    rewrite !Nat.iter_add. reflexivity.
  - rewrite !IH, Pos2Nat.inj_xO.
    replace (2 * Pos.to_nat p)%nat with (Pos.to_nat p + Pos.to_nat p)%nat by lia.
    rewrite Nat.iter_add. reflexivity.
  - reflexivity.
Qed.

Lemma shr_1_nonneg (m : Z) (r s : bool) :
  0 <= m ->
  shr_1 (Build_shr_record m r s) = Build_shr_record (Z.div2 m) (Z.odd m) (r || s).
Proof. destruct m as [| [p | p |] |]; intros; try lia; reflexivity. Qed.

Lemma shr_1_inv (M k : Z) (mrs : shr_record) :
  0 <= M -> 0 <= k -> shr_inv M k mrs -> shr_inv M (k + 1) (shr_1 mrs).
Proof.
  intros HM Hk [Hm Hex].
  assert (P2 : 0 < 2 ^ k) by (apply pow2_pos; lia).
  assert (E2 : 2 ^ (k + 1) = 2 ^ k * 2) by (rewrite pow2_split by lia; reflexivity).
  destruct mrs as [m r s]. cbn [shr_m shr_r shr_s] in *.
  assert (0 <= m) by (subst m; apply Z.div_pos; lia).
  rewrite shr_1_nonneg by assumption.
  split; cbn [shr_m shr_r shr_s].
  - rewrite Z.div2_div, Hm, E2, Z.div_div by lia. reflexivity.
  - intros H0. rewrite E2, Z.rem_mul_r in H0 by lia.
    pose proof (Z.mod_pos_bound M (2 ^ k) P2) as B1.
    pose proof (Z.mod_pos_bound (M / 2 ^ k) 2 ltac:(lia)) as B2.
    assert (M mod 2 ^ k = 0 /\ (M / 2 ^ k) mod 2 = 0) as [A1 A2].
    { remember (M mod 2 ^ k) as a. remember ((M / 2 ^ k) mod 2) as b. remember (2 ^ k) as w.
      clear - H0 B1 B2 P2. nia. }
    destruct (Hex A1) as [-> ->]. rewrite <- Hm in A2.
    rewrite Zmod_odd in A2. destruct (Z.odd m); [discriminate | auto].
Qed.

Lemma shr_iter_inv (M : Z) (n : nat) (mrs : shr_record) :
  0 <= M -> shr_inv M 0 mrs -> shr_inv M (Z.of_nat n) (Nat.iter n shr_1 mrs).
Proof.
  intros HM H0. induction n as [| n IH].
  - exact H0.
  - rewrite Nat2Z.inj_succ. cbn [Nat.iter nat_rect]. 
    replace (Z.succ (Z.of_nat n)) with (Z.of_nat n + 1) by lia.
    apply shr_1_inv; auto; lia.
Qed.

Lemma fexp64 (e : Z) : fexp prec emax e = Z.max (e - 53) (-1074).
Proof. reflexivity. Qed.

Lemma shr_spec (M E k : Z) :
  0 <= M ->
  exists mrs, shr (Build_shr_record M false false) E k = (mrs, E + Z.max k 0)
              /\ shr_inv M (Z.max k 0) mrs.
Proof.
  intros HM.
  assert (I0 : shr_inv M 0 (Build_shr_record M false false)).
  { split; cbn; [rewrite Z.div_1_r; reflexivity | auto]. }
  destruct k as [| p | p]; cbn [shr].
  - eexists; split; [rewrite Z.add_0_r; reflexivity | exact I0].
  - eexists; split; [reflexivity |].
    rewrite iter_pos_nat. replace (Z.max (Zpos p) 0) with (Z.of_nat (Pos.to_nat p)) by lia.
    apply shr_iter_inv; assumption.
  - eexists; split; [rewrite Z.add_0_r; reflexivity | exact I0].
Qed.

Lemma round_nearest_even_faithful (mrs : shr_record) :
  (shr_m mrs <= round_nearest_even (shr_m mrs) (loc_of_shr_record mrs) <= shr_m mrs + 1)
  /\ (shr_r mrs = false /\ shr_s mrs = false ->
      round_nearest_even (shr_m mrs) (loc_of_shr_record mrs) = shr_m mrs).
Proof.
  destruct mrs as [m [|] [|]]; cbn; try (destruct (Z.even m)); split; try lia; intros [? ?]; congruence.
Qed.

(** What a rounding produces: the mantissa [R] kept at the target exponent
    [e'] is the quotient of the exact mantissa or its successor, and the
    quotient itself when the division is exact. *)
Lemma RND_core (s : bool) (M : positive) (E : Z) :
  E <= fexp prec emax (Zpos (digits2_pos M) + E) ->
  exists R e',
    e' = fexp prec emax (Zpos (digits2_pos M) + E) /\
    (Zpos M / 2 ^ (e' - E) <= R <= Zpos M / 2 ^ (e' - E) + 1) /\
    (Zpos M mod 2 ^ (e' - E) = 0 -> R = Zpos M / 2 ^ (e' - E)) /\
    ((R = 0 /\ RND s M E = S754_zero s) \/
     (exists m2 e2, e' <= e2 /\ Zpos m2 * 2 ^ (e2 - e') = R /\
                    canonical_mantissa prec emax m2 e2 = true /\
                    RND s M E = (if e2 <=? 971 then S754_finite s m2 e2 else S754_infinity s))).
Proof.
  intros HP. rewrite fexp64 in HP.
  unfold RND, binary_round_aux, shr_fexp. cbn [Zdigits2 shr_record_of_loc].
  rewrite !fexp64.
  set (d := Zpos (digits2_pos M)) in *.
  set (e' := Z.max (d + E - 53) (-1074)) in *.
  destruct (shr_spec (Zpos M) E (e' - E) ltac:(lia)) as (mrs & -> & Hm & Hex).
  replace (Z.max (e' - E) 0) with (e' - E) in * by lia.
  replace (E + (e' - E)) with e' by lia.
  destruct (round_nearest_even_faithful mrs) as [HR HRex].
  set (R := round_nearest_even (shr_m mrs) (loc_of_shr_record mrs)) in *.
  rewrite Hm in HR.
  exists R, e'. split; [reflexivity |]. split; [exact HR |].
  split. { intros H0. rewrite <- Hm. apply HRex, Hex, H0. }
  pose proof (digits2_bounds M) as [D1 D2]. fold d in D1, D2.
  assert (Hd : 0 < d) by (unfold d; lia).
  assert (Hk : 0 <= e' - E) by lia.
  assert (Pk : 0 < 2 ^ (e' - E)) by (apply pow2_pos; lia).
  set (m1 := Zpos M / 2 ^ (e' - E)) in *.
  assert (Hm1 : 0 <= m1) by (apply Z.div_pos; lia).
  clearbody R.
  (* the result mantissa is kept as it is when it fits the format at [e'] *)
  assert (Keep : forall r : positive, R = Zpos r ->
            fexp prec emax (Zpos (digits2_pos r) + e') = e' ->
            exists m2 e2, e' <= e2 /\ Zpos m2 * 2 ^ (e2 - e') = R /\
              canonical_mantissa prec emax m2 e2 = true /\
              (let '(mrs'', e'') :=
                 shr {| shr_m := R; shr_r := false; shr_s := false |} e'
                     (fexp prec emax (Zdigits2 R + e') - e') in
               match shr_m mrs'' with
               | 0 => S754_zero s
               | Z.pos m => if e'' <=? emax - prec then S754_finite s m e'' else S754_infinity s
               | Z.neg _ => S754_nan
               end) = (if e2 <=? 971 then S754_finite s m2 e2 else S754_infinity s)).
  { intros r HRr Hc. exists r, e'. rewrite HRr. cbn [Zdigits2]. rewrite Hc, Z.sub_diag.
    cbn [shr shr_m]. split; [lia |]. split; [rewrite ?Z.sub_diag, ?Z.pow_0_r; lia |].
    split; [| reflexivity].
    unfold canonical_mantissa. rewrite Hc. apply Z.eqb_refl. }
  destruct (Z.le_gt_cases (-1074) (d + E - 53)) as [Hn | Hs].
  - (* normal range: the quotient has exactly 53 digits *)
    assert (He' : e' = d + E - 53) by lia.
    assert (Hk' : e' - E = d - 53) by lia.
    assert (B1 : 2 ^ 52 <= m1).
    { unfold m1. rewrite Hk'. apply Z.div_le_lower_bound; [apply pow2_pos; lia |].
      rewrite Z.mul_comm, <- pow2_split by lia. replace (52 + (d - 53)) with (d - 1) by lia. exact D1. }
    assert (B2 : m1 < 2 ^ 53).
    { unfold m1. rewrite Hk'. apply Z.div_lt_upper_bound; [apply pow2_pos; lia |].
      rewrite <- pow2_split by lia. replace (d - 53 + 53) with d by lia. exact D2. }
    right.
    destruct (Z.eq_dec R (2 ^ 53)) as [HR53 | HR53].
    + exists (2 ^ 52)%positive, (e' + 1). rewrite HR53.
      replace (Zdigits2 (2 ^ 53)) with 54 by reflexivity.
      rewrite fexp64. replace (Z.max (54 + e' - 53) (-1074) - e') with 1 by lia.
      split; [lia |]. split; [replace (e' + 1 - e') with 1 by lia; reflexivity |].
      split; [| reflexivity].
      unfold canonical_mantissa. rewrite fexp64.
      replace (Zpos (digits2_pos (2 ^ 52))) with 53 by reflexivity.
      apply Z.eqb_eq. lia.
    + assert (HRpos : 0 < R) by lia.
      destruct R as [| r |] eqn:ER; try lia.
      apply (Keep r eq_refl).
      rewrite (digits2_unique r 53) by (change (53 - 1) with 52; lia).
      rewrite fexp64. lia.
  - (* subnormal range: at most 52 digits are left *)
    assert (He' : e' = -1074) by lia.
    assert (B2 : m1 < 2 ^ 52).
    { unfold m1. apply Z.div_lt_upper_bound; [lia |].
      destruct (Z.le_gt_cases (e' - E) d) as [L | L].
      - assert (2 ^ d = 2 ^ (e' - E) * 2 ^ (d - (e' - E))).
        { rewrite <- pow2_split by lia. f_equal. lia. }
        assert (2 ^ (d - (e' - E)) <= 2 ^ 52) by (apply pow2_le; lia).
        nia.
      - assert (2 ^ d <= 2 ^ (e' - E)) by (apply pow2_le; lia).
        assert (0 < 2 ^ 52) by (apply pow2_pos; lia). nia. }
    destruct R as [| r |] eqn:ER; try lia.
    + left. split; [reflexivity |]. cbn [Zdigits2]. rewrite fexp64.
      replace (Z.max (0 + e' - 53) (-1074) - e') with 0 by lia. reflexivity.
    + right. apply (Keep r eq_refl).
      pose proof (digits2_bounds r) as [Q1 Q2].
      assert (Zpos (digits2_pos r) <= 53).
      { destruct (Z.le_gt_cases (Zpos (digits2_pos r)) 53); auto.
        assert (2 ^ 53 <= 2 ^ (Zpos (digits2_pos r) - 1)) by (apply pow2_le; lia).
        change (2 ^ 53) with (2 * 2 ^ 52) in *. lia. }
      rewrite fexp64. lia.
Qed.

Lemma canonical_facts (m : positive) (e : Z) :
  canonical_mantissa prec emax m e = true ->
  -1074 <= e /\ Zpos m < 2 ^ 53 /\ (-1074 < e -> 2 ^ 52 <= Zpos m).
Proof.
  unfold canonical_mantissa. rewrite fexp64. intros H. apply Z.eqb_eq in H.
  pose proof (digits2_bounds m) as [B1 B2].
  set (d := Zpos (digits2_pos m)) in *.
  assert (0 < d) by (unfold d; lia).
  split; [lia |]. split.
  - assert (2 ^ d <= 2 ^ 53) by (apply pow2_le; lia). lia.
  - intros He. replace d with 53 in B1 by lia. exact B1.
Qed.

Lemma RND_mag (s : bool) (M : positive) (E : Z) :
  - K <= E ->
  E <= fexp prec emax (Zpos (digits2_pos M) + E) ->
  exists Rv,
    ((Rv = 0 /\ RND s M E = S754_zero s) \/
     (exists m2 e2, canonical_mantissa prec emax m2 e2 = true /\ Rv = V m2 e2 /\
        RND s M E = (if e2 <=? 971 then S754_finite s m2 e2 else S754_infinity s))) /\
    (forall mb eb, canonical_mantissa prec emax mb eb = true ->
        V M E <= V mb eb -> Rv <= V mb eb) /\
    (forall mb eb, canonical_mantissa prec emax mb eb = true ->
        V mb eb <= V M E -> V mb eb <= Rv) /\
    (E = fexp prec emax (Zpos (digits2_pos M) + E) -> Rv = V M E).
Proof.
  intros HK HP. pose proof (eq_refl : K = 2148) as HKv.
  destruct (RND_core s M E HP) as (R & e' & He' & HR & HRex & Hres).
  rewrite fexp64 in He', HP.
  pose proof (digits2_bounds M) as [D1 D2].
  set (d := Zpos (digits2_pos M)) in *.
  assert (Hd : 0 < d) by (unfold d; lia).
  set (k := e' - E) in *.
  assert (Hk : 0 <= k) by (unfold k; lia).
  assert (Pk : 0 < 2 ^ k) by (apply pow2_pos; lia).
  set (m1 := Zpos M / 2 ^ k) in *.
  assert (Hm1 : 0 <= m1) by (apply Z.div_pos; lia).
  pose proof (Z.div_mod (Zpos M) (2 ^ k) ltac:(lia)) as DM. fold m1 in DM.
  pose proof (Z.mod_pos_bound (Zpos M) (2 ^ k) Pk) as RB.
  set (rem := Zpos M mod 2 ^ k) in *.
  set (X := 2 ^ (E + K)).
  assert (PX : 0 < X) by (apply pow2_pos; lia).
  set (W := 2 ^ (e' + K)).
  assert (HW : W = 2 ^ k * X).
  { unfold W, X, k. rewrite <- pow2_split by lia. f_equal. lia. }
  assert (PW : 0 < W) by (apply pow2_pos; lia).
  assert (HVM : V M E = (m1 * 2 ^ k + rem) * X).
  { unfold V. fold X. rewrite DM at 1. f_equal. lia. }
  assert (Hnorm : -1074 < e' -> 2 ^ 52 <= m1).
  { intros Hn. assert (Hk' : k = d - 53) by (unfold k; lia).
    unfold m1. rewrite Hk'. apply Z.div_le_lower_bound; [apply pow2_pos; lia |].
    rewrite Z.mul_comm, <- pow2_split by lia. replace (52 + (d - 53)) with (d - 1) by lia. exact D1. }
  exists (R * W). split; [| split; [| split]].
  - destruct Hres as [[HR0 Hr] | (m2 & e2 & Hle & Hm2 & Hc & Hr)].
    + left. split; [rewrite HR0; reflexivity | exact Hr].
    + right. exists m2, e2. split; [exact Hc |]. split; [| exact Hr].
      unfold V, W. rewrite <- Hm2, <- Z.mul_assoc, <- pow2_split by lia. do 2 f_equal. lia.
  - intros mb eb Hc HU. destruct (canonical_facts mb eb Hc) as (C1 & C2 & C3).
    rewrite HVM in HU. unfold V in *.
    destruct (Z.le_gt_cases e' eb) as [L | L].
    + assert (HB : 2 ^ (eb + K) = 2 ^ (eb - e') * W).
      { unfold W. rewrite <- pow2_split by lia. f_equal. lia. }
      rewrite HB in *. set (q := 2 ^ (eb - e')) in *.
      assert (0 < q) by (apply pow2_pos; lia).
      rewrite HW in *.
      assert (m1 <= Zpos mb * q) by nia.
      destruct (Z.eq_dec R m1) as [-> | NE]; [nia |].
      assert (R = m1 + 1) by lia. subst R.
      assert (rem <> 0) by (intros Z0; apply NE, HRex, Z0).
      assert (m1 < Zpos mb * q) by nia. nia.
    + exfalso. specialize (Hnorm ltac:(lia)).
      assert (2 * 2 ^ (eb + K) <= W).
      { unfold W. replace (2 * 2 ^ (eb + K)) with (2 ^ (1 + (eb + K))) by (rewrite pow2_split by lia; reflexivity).
        apply pow2_le. lia. }
      change (2 ^ 53) with (2 * 2 ^ 52) in C2.
      assert (0 < 2 ^ (eb + K)) by (apply pow2_pos; lia).
      rewrite HW in *. nia.
  - intros mb eb Hc HL. destruct (canonical_facts mb eb Hc) as (C1 & C2 & C3).
    rewrite HVM in HL. unfold V in *.
    destruct (Z.le_gt_cases e' eb) as [L | L].
    + assert (HB : 2 ^ (eb + K) = 2 ^ (eb - e') * W).
      { unfold W. rewrite <- pow2_split by lia. f_equal. lia. }
      rewrite HB in *. set (q := 2 ^ (eb - e')) in *.
      assert (0 < q) by (apply pow2_pos; lia).
      rewrite HW in *.
      assert (Zpos mb * q <= m1) by nia. nia.
    + specialize (Hnorm ltac:(lia)).
      assert (2 * 2 ^ (eb + K) <= W).
      { unfold W. replace (2 * 2 ^ (eb + K)) with (2 ^ (1 + (eb + K))) by (rewrite pow2_split by lia; reflexivity).
        apply pow2_le. lia. }
      change (2 ^ 53) with (2 * 2 ^ 52) in C2.
      assert (0 < 2 ^ (eb + K)) by (apply pow2_pos; lia).
      nia.
  - intros HE. rewrite fexp64 in HE. fold d in HE.
    assert (Hk0 : k = 0) by (unfold k; lia).
    assert (Hrem : rem = 0).
    { unfold rem. rewrite Hk0. apply Z.mod_1_r. }
    rewrite (HRex Hrem), HVM, Hrem, HW. ring.
Qed.

Lemma V_pos (m : positive) (e : Z) : - K <= e -> 0 < V m e.
Proof. intros. unfold V. assert (0 < 2 ^ (e + K)) by (apply pow2_pos; lia). nia. Qed.

Lemma INF_canonical : INF = V (2 ^ 52) 972 /\ canonical_mantissa prec emax (2 ^ 52) 972 = true.
Proof.
  split; [| reflexivity]. unfold INF, V. pose proof (eq_refl : K = 2148) as HKv.
  replace (1024 + K) with (52 + (972 + K)) by lia. rewrite pow2_split by lia. reflexivity.
Qed.

Lemma V_lt_mono (m1 m2 : positive) (e1 e2 : Z) :
  canonical_mantissa prec emax m1 e1 = true ->
  canonical_mantissa prec emax m2 e2 = true ->
  e1 < e2 -> V m1 e1 < V m2 e2.
Proof.
  intros H1 H2 L. pose proof (eq_refl : K = 2148) as HKv.
  destruct (canonical_facts _ _ H1) as (A1 & A2 & A3).
  destruct (canonical_facts _ _ H2) as (B1 & B2 & B3).
  specialize (B3 ltac:(lia)). unfold V.
  assert (2 * 2 ^ (e1 + K) <= 2 ^ (e2 + K)).
  { replace (2 * 2 ^ (e1 + K)) with (2 ^ (1 + (e1 + K))) by (rewrite pow2_split by lia; reflexivity).
    apply pow2_le. lia. }
  assert (0 < 2 ^ (e1 + K)) by (apply pow2_pos; lia).
  change (2 ^ 53) with (2 * 2 ^ 52) in A2. nia.
Qed.

Lemma V_compare (m1 m2 : positive) (e1 e2 : Z) :
  canonical_mantissa prec emax m1 e1 = true ->
  canonical_mantissa prec emax m2 e2 = true ->
  (V m1 e1 ?= V m2 e2) =
  match e1 ?= e2 with Lt => Lt | Gt => Gt | Eq => Pos.compare_cont Eq m1 m2 end.
Proof.
  intros H1 H2. pose proof (eq_refl : K = 2148) as HKv.
  destruct (Z.compare_spec e1 e2) as [-> | L | L].
  - change (Pos.compare_cont Eq m1 m2) with (Zpos m1 ?= Zpos m2).
    destruct (canonical_facts _ _ H2) as (B1 & _ & _).
    assert (0 < 2 ^ (e2 + K)) by (apply pow2_pos; lia). unfold V.
    destruct (Z.compare_spec (Zpos m1) (Zpos m2)) as [E | E | E].
    + rewrite E. apply Z.compare_refl.
    + apply Z.compare_lt_iff. nia.
    + apply Z.compare_gt_iff. nia.
  - apply Z.compare_lt_iff. apply V_lt_mono; assumption.
  - apply Z.compare_gt_iff. apply V_lt_mono; assumption.
Qed.

Lemma V_lt_INF (m : positive) (e : Z) :
  bounded prec emax m e = true -> 0 < V m e < INF.
Proof.
  unfold bounded. intros H. apply andb_prop in H. destruct H as [Hc He].
  apply Z.leb_le in He. change (emax - prec) with 971 in He.
  destruct (canonical_facts _ _ Hc) as (A1 & A2 & A3).
  pose proof (eq_refl : K = 2148) as HKv.
  split; [apply V_pos; lia |].
  destruct INF_canonical as [-> Hi]. apply V_lt_mono; [assumption .. | lia].
Qed.

Lemma V_ge_INF (m : positive) (e : Z) :
  canonical_mantissa prec emax m e = true -> 971 < e -> INF <= V m e.
Proof.
  intros Hc He. destruct INF_canonical as [-> Hi].
  destruct (Z.eq_dec e 972) as [-> | NE].
  - destruct (canonical_facts _ _ Hc) as (A1 & A2 & A3). specialize (A3 ltac:(lia)).
    pose proof (eq_refl : K = 2148) as HKv.
    unfold V. assert (0 < 2 ^ (972 + K)) by (apply pow2_pos; lia).
    rewrite Pos2Z.inj_pow. change (Z.pos 2 ^ Z.pos 52) with (2 ^ 52). nia.
  - apply Z.lt_le_incl, V_lt_mono; [assumption .. | lia].
Qed.

(** Comparison of valid floats is comparison of their scaled values. *)
Lemma SFcompare_SFz (x y : spec_float) :
  valid_binary x = true -> valid_binary y = true ->
  SFnum x = true -> SFnum y = true ->
  SFcompare x y = Some (SFz x ?= SFz y).
Proof.
  intros Vx Vy Nx Ny.
  assert (PI : 0 < INF) by (apply pow2_pos; unfold K; lia).
  destruct x as [sx | sx | | sx mx ex]; try discriminate;
  destruct y as [sy | sy | | sy my ey]; try discriminate;
  cbn [SFcompare SFz valid_binary] in *;
  try (pose proof (V_lt_INF _ _ Vx) as Bx);
  try (pose proof (V_lt_INF _ _ Vy) as By).
  all: try (destruct sx); try (destruct sy); cbn [cond_Zopp]; f_equal; symmetry;
    try reflexivity;
    try (apply Z.compare_lt_iff; lia); try (apply Z.compare_gt_iff; lia);
    try (apply Z.compare_eq_iff; lia).
  - apply andb_prop in Vx, Vy. destruct Vx as [Cx _], Vy as [Cy _].
    rewrite Z.compare_opp, (V_compare my mx ey ex Cy Cx).
    rewrite (Z.compare_antisym ex ey).
    change (Pos.compare_cont Eq my mx) with (Pos.compare my mx).
    change (Pos.compare_cont Eq mx my) with (Pos.compare mx my).
    rewrite (Pos.compare_antisym mx my).
    destruct (ex ?= ey); reflexivity.
  - apply andb_prop in Vx, Vy. destruct Vx as [Cx _], Vy as [Cy _].
    apply V_compare; assumption.
Qed.

Lemma valid_mag (b : spec_float) :
  valid_binary b = true -> SFnum b = true ->
  exists sb Bm, SFz b = cond_Zopp sb Bm /\
    (Bm = 0 \/ exists mb eb, canonical_mantissa prec emax mb eb = true /\
                             Bm = V mb eb /\ 0 < Bm <= INF).
Proof.
  intros Vb Nb. assert (PI : 0 < INF) by (apply pow2_pos; unfold K; lia).
  destruct b as [s | s | | s m e]; try discriminate; cbn [SFz valid_binary] in *.
  - exists false, 0. split; [reflexivity | left; reflexivity].
  - exists s, INF. split; [reflexivity | right].
    exists (2 ^ 52)%positive, 972. destruct INF_canonical as [E C].
    split; [exact C |]. split; [exact E | lia].
  - exists s, (V m e). split; [reflexivity | right]. exists m, e.
    pose proof (V_lt_INF _ _ Vb). apply andb_prop in Vb. destruct Vb as [C _].
    split; [exact C |]. split; [reflexivity | lia].
Qed.

(** Rounding is faithful: it cannot cross a representable bound. *)
Lemma RND_bounds (s : bool) (M : positive) (E : Z) :
  - K <= E ->
  E <= fexp prec emax (Zpos (digits2_pos M) + E) ->
  valid_binary (RND s M E) = true /\ SFnum (RND s M E) = true /\
  (forall b, valid_binary b = true -> SFnum b = true ->
     cond_Zopp s (V M E) <= SFz b -> SFz (RND s M E) <= SFz b) /\
  (forall b, valid_binary b = true -> SFnum b = true ->
     SFz b <= cond_Zopp s (V M E) -> SFz b <= SFz (RND s M E)) /\
  (E = fexp prec emax (Zpos (digits2_pos M) + E) -> V M E < INF ->
     SFz (RND s M E) = cond_Zopp s (V M E)).
Proof.
  intros HK HP.
  destruct (RND_mag s M E HK HP) as (Rv & Hres & HU & HL & HE).
  pose proof (V_pos M E HK) as PX.
  assert (PI : 0 < INF) by (apply pow2_pos; unfold K; lia).
  assert (Hr : valid_binary (RND s M E) = true /\ SFnum (RND s M E) = true /\
               exists Rc, SFz (RND s M E) = cond_Zopp s Rc /\ 0 <= Rc <= INF /\
                          (Rv < INF -> Rc = Rv) /\ (INF <= Rv -> Rc = INF)).
  { destruct Hres as [[-> ->] | (m2 & e2 & Hc & -> & ->)].
    - split; [reflexivity |]. split; [reflexivity |]. exists 0. destruct s; cbn; lia.
    - destruct (Z.leb_spec e2 971) as [L | L].
      + assert (Vb : bounded prec emax m2 e2 = true).
        { unfold bounded. rewrite Hc. apply Z.leb_le. exact L. }
        pose proof (V_lt_INF _ _ Vb). split; [exact Vb |]. split; [reflexivity |].
        exists (V m2 e2). cbn [SFz]. split; [reflexivity | lia].
      + pose proof (V_ge_INF _ _ Hc L). split; [reflexivity |]. split; [reflexivity |].
        exists INF. cbn [SFz]. split; [reflexivity | lia]. }
  destruct Hr as (Hv & Hn & Rc & HRc & HRb & Hlo & Hhi).
  split; [exact Hv |]. split; [exact Hn |].
  rewrite HRc. split; [| split]; [| | intros E0 Hlt; rewrite Hlo; rewrite (HE E0); [reflexivity | exact Hlt]];
    intros b Vb Nb Hb;
    destruct (valid_mag b Vb Nb) as (sb & Bm & EBz & [B0 | (mb & eb & Cb & EB & BB)]);
    rewrite EBz in *;
    destruct s, sb; cbn [cond_Zopp] in *; try lia.
  all: specialize (HU mb eb Cb); specialize (HL mb eb Cb); rewrite <- EB in HU, HL;
       destruct (Z.lt_ge_cases Rv INF) as [LT | GE];
       [rewrite (Hlo LT) | rewrite (Hhi GE)]; lia.
Qed.

Lemma iter_xO_spec (m d : positive) :
  Zpos (Pos.iter xO m d) = Zpos m * 2 ^ Zpos d /\
  Zpos (digits2_pos (Pos.iter xO m d)) = Zpos (digits2_pos m) + Zpos d.
Proof.
  induction d as [| d [IH1 IH2]] using Pos.peano_ind.
  - cbn [Pos.iter digits2_pos]. split; [rewrite Pos2Z.inj_xO; change (2 ^ 1) with 2; lia | lia].
  - rewrite Pos.iter_succ. cbn [digits2_pos]. rewrite Pos2Z.inj_xO, IH1, !Pos2Z.inj_succ, IH2.
    rewrite Z.pow_succ_r by lia. split; lia.
Qed.

Lemma shl_align_spec (m : positive) (e e' : Z) :
  exists mz ez, shl_align m e e' = (mz, ez) /\ ez = Z.min e e' /\
    Zpos mz = Zpos m * 2 ^ (e - ez) /\
    Zpos (digits2_pos mz) = Zpos (digits2_pos m) + (e - ez).
Proof.
  unfold shl_align. destruct (e' - e) as [| p | p] eqn:D.
  - exists m, e. replace (Z.min e e') with e by lia. rewrite Z.sub_diag. repeat split; lia.
  - exists m, e. replace (Z.min e e') with e by lia. rewrite Z.sub_diag. repeat split; lia.
  - exists (Pos.iter xO m p), e'. destruct (iter_xO_spec m p) as [I1 I2].
    replace (e - e') with (Zpos p) by lia. repeat split; try assumption; lia.
Qed.

Lemma V_shift (m mz : positive) (e ez : Z) :
  - K <= ez <= e -> Zpos mz = Zpos m * 2 ^ (e - ez) -> V mz ez = V m e.
Proof.
  intros H E. unfold V. rewrite E, <- Z.mul_assoc, <- pow2_split by lia. do 2 f_equal. lia.
Qed.

Lemma binary_round_bounds (s : bool) (m : positive) (e : Z) :
  -1074 <= e ->
  let r := binary_round prec emax s m e in
  valid_binary r = true /\ SFnum r = true /\
  (forall b, valid_binary b = true -> SFnum b = true ->
     cond_Zopp s (V m e) <= SFz b -> SFz r <= SFz b) /\
  (forall b, valid_binary b = true -> SFnum b = true ->
     SFz b <= cond_Zopp s (V m e) -> SFz b <= SFz r) /\
  (fexp prec emax (Zpos (digits2_pos m) + e) <= e -> V m e < INF ->
     SFz r = cond_Zopp s (V m e)).
Proof.
  intros He r. subst r. unfold binary_round.
  pose proof (eq_refl : K = 2148) as HKv.
  destruct (shl_align_spec m e (fexp prec emax (Zpos (digits2_pos m) + e)))
    as (mz & ez & -> & Hez & Hmz & Hdz).
  rewrite fexp64 in Hez.
  assert (HV : V mz ez = V m e) by (apply V_shift; [lia | exact Hmz]).
  assert (HD : Zpos (digits2_pos mz) + ez = Zpos (digits2_pos m) + e) by lia.
  assert (HP : ez <= fexp prec emax (Zpos (digits2_pos mz) + ez)).
  { rewrite HD, fexp64. lia. }
  fold (RND s mz ez).
  destruct (RND_bounds s mz ez ltac:(lia) HP) as (B1 & B2 & B3 & B4 & B5).
  rewrite HV in *. repeat split; try assumption.
  intros Hc Hlt. apply B5; [| exact Hlt]. rewrite HD. rewrite fexp64 in *. lia.
Qed.

Lemma binary_normalize_bounds (z e : Z) (sz : bool) :
  -1074 <= e ->
  let r := binary_normalize prec emax z e sz in
  valid_binary r = true /\ SFnum r = true /\
  (forall b, valid_binary b = true -> SFnum b = true ->
     z * 2 ^ (e + K) <= SFz b -> SFz r <= SFz b) /\
  (forall b, valid_binary b = true -> SFnum b = true ->
     SFz b <= z * 2 ^ (e + K) -> SFz b <= SFz r) /\
  (fexp prec emax (Zdigits2 z + e) <= e -> Z.abs z * 2 ^ (e + K) < INF ->
     SFz r = z * 2 ^ (e + K)).
Proof.
  intros He r. subst r. destruct z as [| p | p]; cbn [binary_normalize Zdigits2 Z.abs].
  - cbn [valid_binary SFnum SFz]. rewrite Z.mul_0_l. repeat split; auto.
  - apply (binary_round_bounds false p e He).
  - pose proof (binary_round_bounds true p e He) as H. cbn [cond_Zopp] in H.
    unfold V in H. replace (Zneg p * 2 ^ (e + K)) with (- (Zpos p * 2 ^ (e + K))) by lia.
    exact H.
Qed.

Lemma Rounds_zero (s : bool) (c : Z) : 0 < c -> Rounds (S754_zero s) 0 c.
Proof. intros Hc. repeat split; cbn [SFz]; intros; nia. Qed.

Lemma Rounds_self (x : spec_float) :
  valid_binary x = true -> SFnum x = true -> Rounds x (SFz x) 1.
Proof. intros. repeat split; auto; intros; lia. Qed.

Lemma cond_Zopp_mul (sx sy : bool) (a b : Z) :
  cond_Zopp sx a * cond_Zopp sy b = cond_Zopp (xorb sx sy) (a * b).
Proof. destruct sx, sy; cbn; lia. Qed.

Lemma digits2_mul (mx my : positive) :
  Zpos (digits2_pos mx) + Zpos (digits2_pos my) - 1 <= Zpos (digits2_pos (mx * my)).
Proof.
  pose proof (digits2_bounds mx) as [X1 X2]. pose proof (digits2_bounds my) as [Y1 Y2].
  pose proof (digits2_bounds (mx * my)) as [P1 P2].
  set (dx := Zpos (digits2_pos mx)) in *. set (dy := Zpos (digits2_pos my)) in *.
  set (D := Zpos (digits2_pos (mx * my))) in *.
  assert (0 < dx) by (unfold dx; lia). assert (0 < dy) by (unfold dy; lia).
  assert (0 < D) by (unfold D; lia).
  destruct (Z.le_gt_cases (dx + dy - 1) D) as [L | L]; [exact L | exfalso].
  assert (2 ^ D <= 2 ^ (dx - 1 + (dy - 1))) by (apply pow2_le; lia).
  rewrite pow2_split in * by lia.
  assert (0 < 2 ^ (dx - 1)) by (apply pow2_pos; lia).
  assert (0 < 2 ^ (dy - 1)) by (apply pow2_pos; lia).
  rewrite Pos2Z.inj_mul in P2. nia.
Qed.

Lemma canonical_digits (m : positive) (e : Z) :
  canonical_mantissa prec emax m e = true ->
  -1074 <= e /\ Zpos (digits2_pos m) <= 53 /\ (-1074 < e -> Zpos (digits2_pos m) = 53).
Proof.
  unfold canonical_mantissa. rewrite fexp64. intros H. apply Z.eqb_eq in H. lia.
Qed.

Lemma SFmul_rounds (x y : spec_float) :
  valid_binary x = true -> valid_binary y = true ->
  SFfin x = true -> SFfin y = true ->
  Rounds (SFmul prec emax x y) (SFz x * SFz y) (2 ^ K).
Proof.
  intros Vx Vy Fx Fy.
  assert (PU : 0 < 2 ^ K) by (apply pow2_pos; unfold K; lia).
  destruct x as [sx | sx | | sx mx ex]; try discriminate;
  destruct y as [sy | sy | | sy my ey]; try discriminate;
  cbn [SFmul SFz]; rewrite ?Z.mul_0_l, ?Z.mul_0_r; try (apply Rounds_zero; exact PU).
  cbn [valid_binary] in Vx, Vy. apply andb_prop in Vx, Vy.
  destruct Vx as [Cx _], Vy as [Cy _].
  destruct (canonical_digits _ _ Cx) as (X1 & X2 & X3).
  destruct (canonical_digits _ _ Cy) as (Y1 & Y2 & Y3).
  pose proof (digits2_mul mx my) as DM.
  pose proof (eq_refl : K = 2148) as HKv.
  assert (0 < Zpos (digits2_pos mx)) by lia. assert (0 < Zpos (digits2_pos my)) by lia.
  fold (RND (xorb sx sy) (mx * my) (ex + ey)).
  destruct (RND_bounds (xorb sx sy) (mx * my) (ex + ey)) as (B1 & B2 & B3 & B4 & _).
  { lia. }
  { rewrite fexp64. lia. }
  assert (HV : cond_Zopp sx (V mx ex) * cond_Zopp sy (V my ey)
               = cond_Zopp (xorb sx sy) (V (mx * my) (ex + ey)) * 2 ^ K).
  { rewrite cond_Zopp_mul. unfold V. rewrite Pos2Z.inj_mul.
    replace (Zpos mx * 2 ^ (ex + K) * (Zpos my * 2 ^ (ey + K)))
      with (Zpos mx * Zpos my * 2 ^ (ex + ey + K) * 2 ^ K).
    - destruct (xorb sx sy); cbn [cond_Zopp]; lia.
    - rewrite <- !Z.mul_assoc. f_equal. rewrite (Z.mul_comm (2 ^ (ex + K))), <- !Z.mul_assoc. f_equal.
      rewrite <- !pow2_split by lia. f_equal. lia. }
  rewrite HV. repeat split; auto; intros b Vb Nb Hb; [apply B3 | apply B4]; auto; nia.
Qed.

Lemma aligned_value (s : bool) (m : positive) (e ez : Z) :
  -1074 <= ez <= e ->
  cond_Zopp s (Zpos (fst (shl_align m e ez))) * 2 ^ (ez + K) = cond_Zopp s (V m e).
Proof.
  intros H. pose proof (eq_refl : K = 2148) as HKv.
  destruct (shl_align_spec m e ez) as (mz & ez' & -> & Hez & Hmz & _). cbn [fst].
  replace ez' with ez in * by lia.
  assert (HV : V mz ez = V m e) by (apply V_shift; [lia | exact Hmz]).
  unfold V in HV. destruct s; cbn [cond_Zopp]; unfold V; lia.
Qed.

Lemma Rounds_normalize (z e : Z) (X : Z) :
  -1074 <= e -> X = z * 2 ^ (e + K) ->
  Rounds (binary_normalize prec emax z e false) X 1.
Proof.
  intros He ->. destruct (binary_normalize_bounds z e false He) as (B1 & B2 & B3 & B4 & _).
  repeat split; auto; intros b Vb Nb Hb; [apply B3 | apply B4]; auto; lia.
Qed.

Lemma SFadd_rounds (x y : spec_float) :
  valid_binary x = true -> valid_binary y = true ->
  SFfin x = true -> SFfin y = true ->
  Rounds (SFadd prec emax x y) (SFz x + SFz y) 1.
Proof.
  intros Vx Vy Fx Fy.
  destruct x as [sx | sx | | sx mx ex]; try discriminate;
  destruct y as [sy | sy | | sy my ey]; try discriminate;
  cbn [SFadd SFz]; rewrite ?Z.add_0_l, ?Z.add_0_r.
  - destruct sx, sy; apply Rounds_zero; lia.
  - apply (Rounds_self (S754_finite sy my ey)); auto.
  - apply (Rounds_self (S754_finite sx mx ex)); auto.
  - cbn [valid_binary] in Vx, Vy. apply andb_prop in Vx, Vy.
    destruct Vx as [Cx _], Vy as [Cy _].
    destruct (canonical_digits _ _ Cx) as (X1 & _). destruct (canonical_digits _ _ Cy) as (Y1 & _).
    apply Rounds_normalize; [lia |].
    rewrite Z.mul_add_distr_r, !aligned_value by lia. reflexivity.
Qed.

Lemma SFsub_rounds (x y : spec_float) :
  valid_binary x = true -> valid_binary y = true ->
  SFfin x = true -> SFfin y = true ->
  Rounds (SFsub prec emax x y) (SFz x - SFz y) 1.
Proof.
  intros Vx Vy Fx Fy.
  destruct x as [sx | sx | | sx mx ex]; try discriminate;
  destruct y as [sy | sy | | sy my ey]; try discriminate;
  cbn [SFsub SFz]; rewrite ?Z.sub_0_l, ?Z.sub_0_r.
  - destruct sx, sy; apply Rounds_zero; lia.
  - replace (- cond_Zopp sy (V my ey)) with (SFz (S754_finite (negb sy) my ey))
      by (destruct sy; cbn; lia).
    apply Rounds_self; auto.
  - apply (Rounds_self (S754_finite sx mx ex)); auto.
  - cbn [valid_binary] in Vx, Vy. apply andb_prop in Vx, Vy.
    destruct Vx as [Cx _], Vy as [Cy _].
    destruct (canonical_digits _ _ Cx) as (X1 & _). destruct (canonical_digits _ _ Cy) as (Y1 & _).
    apply Rounds_normalize; [lia |].
    rewrite Z.mul_sub_distr_r, !aligned_value by lia. reflexivity.
Qed.

Lemma div_eucl_mul (q b : Z) : 0 < b -> Z.div_eucl (q * b) b = (q, 0).
Proof.
  intros Hb. pose proof (Z.div_mul q b ltac:(lia)) as Hq.
  pose proof (Z.mod_mul q b ltac:(lia)) as Hr.
  unfold Z.div, Z.modulo in Hq, Hr.
  destruct (Z.div_eucl (q * b) b) as [q' r']. cbn in Hq, Hr. congruence.
Qed.

Lemma pos_pow52 : Zpos (2 ^ 52) = 2 ^ 52.
Proof. reflexivity. Qed.

Lemma pow53 : 2 ^ 53 = 2 * 2 ^ 52.
Proof. reflexivity. Qed.

Lemma pow54 : 2 ^ 54 = 4 * 2 ^ 52.
Proof. reflexivity. Qed.

(** The quotient of a float by 0.25 is computed without remainder. *)
Lemma div_core_quarter (mx : positive) (ex : Z) :
  canonical_mantissa prec emax mx ex = true ->
  exists q e', SFdiv_core_binary prec emax (Zpos mx) ex (Zpos (2 ^ 52)) (-54)
               = (Zpos q, e', loc_Exact) /\
    -1074 <= e' /\ V q e' = 4 * V mx ex /\
    e' <= fexp prec emax (Zpos (digits2_pos q) + e').
Proof.
  intros Cx. destruct (canonical_digits _ _ Cx) as (X1 & X2 & X3).
  pose proof (eq_refl : K = 2148) as HKv.
  assert (Hd : 0 < Zpos (digits2_pos mx)) by lia.
  unfold SFdiv_core_binary. cbn [Zdigits2].
  replace (Zpos (digits2_pos (2 ^ 52))) with 53 by reflexivity.
  rewrite fexp64.
  set (d := Zpos (digits2_pos mx)) in *.
  destruct (Z.eq_dec d 53) as [D53 | D53].
  - replace (Z.min (Z.max (d + ex - (53 + -54) - 53) (-1074)) (ex - -54)) with (ex + 1) by lia.
    replace (ex - -54 - (ex + 1)) with 53 by lia.
    rewrite Z.shiftl_mul_pow2 by lia.
    replace (Zpos mx * 2 ^ 53) with (Zpos mx~0 * Zpos (2 ^ 52))
      by (rewrite pos_pow52, pow53; lia).
    rewrite div_eucl_mul by lia.
    exists (mx~0)%positive, (ex + 1). split; [vm_compute; reflexivity |]. split; [lia |]. split.
    + unfold V. rewrite Pos2Z.inj_xO. replace (ex + 1 + K) with (1 + (ex + K)) by lia.
      rewrite pow2_split by lia. change (2 ^ 1) with 2. lia.
    + cbn [digits2_pos]. rewrite Pos2Z.inj_succ, fexp64. fold d. lia.
  - assert (Hex : ex = -1074) by lia.
    replace (Z.min (Z.max (d + ex - (53 + -54) - 53) (-1074)) (ex - -54)) with ex by lia.
    replace (ex - -54 - ex) with 54 by lia.
    rewrite Z.shiftl_mul_pow2 by lia.
    replace (Zpos mx * 2 ^ 54) with (Zpos mx~0~0 * Zpos (2 ^ 52))
      by (rewrite pos_pow52, pow54; lia).
    rewrite div_eucl_mul by lia.
    exists (mx~0~0)%positive, ex. split; [vm_compute; reflexivity |]. split; [lia |]. split.
    + unfold V. lia.
    + cbn [digits2_pos]. rewrite 2!Pos2Z.inj_succ, fexp64. fold d. lia.
Qed.

Lemma SFdiv_quarter_rounds (x : spec_float) :
  valid_binary x = true -> SFfin x = true ->
  Rounds (SFdiv prec emax x SFquarter) (4 * SFz x) 1.
Proof.
  intros Vx Fx. destruct x as [sx | sx | | sx mx ex]; try discriminate.
  - cbn [SFdiv SFquarter SFz]. apply Rounds_zero. lia.
  - cbn [valid_binary] in Vx. apply andb_prop in Vx. destruct Vx as [Cx _].
    destruct (div_core_quarter mx ex Cx) as (q & e' & Hq & He' & HV & HP).
    unfold SFquarter. cbn [SFdiv]. rewrite Hq. rewrite xorb_false_r.
    fold (RND sx q e'). pose proof (eq_refl : K = 2148) as HKv.
    destruct (RND_bounds sx q e' ltac:(lia) HP) as (B1 & B2 & B3 & B4 & _).
    cbn [SFz]. repeat split; auto; intros b Vb Nb Hb; [apply B3 | apply B4]; auto;
      rewrite HV; destruct sx; cbn [cond_Zopp] in *; lia.
Qed.

(** * Primitive floats through their exact values *)

Lemma Fz_eq_0 : Fz 0 = 0.
Proof. reflexivity. Qed.

Lemma U_pos : 0 < U.
Proof. apply pow2_pos. unfold K. lia. Qed.

Lemma INF_U : INF = 2 ^ 1024 * U.
Proof. unfold INF, U. apply pow2_split; unfold K; lia. Qed.

Lemma INF_big : 1000000 * U < INF.
Proof. rewrite INF_U. pose proof U_pos. assert (1000000 < 2 ^ 1024) by reflexivity. nia. Qed.

Lemma SFcompare_refl (x : spec_float) :
  valid_binary x = true -> SFnum x = true -> SFcompare x x = Some Eq.
Proof. intros V N. rewrite SFcompare_SFz, Z.compare_refl; auto. Qed.

Lemma is_nan_Fnum (x : float) : is_nan x = negb (Fnum x).
Proof.
  unfold is_nan, Fnum. rewrite FloatAxioms.eqb_spec. unfold SFeqb.
  destruct (SFnum (Prim2SF x)) eqn:N.
  - rewrite SFcompare_refl; auto using Prim2SF_valid.
  - destruct (Prim2SF x); try discriminate. reflexivity.
Qed.

Lemma compare_Fz (x y : float) :
  Fnum x = true -> Fnum y = true ->
  SFcompare (Prim2SF x) (Prim2SF y) = Some (Fz x ?= Fz y).
Proof. intros. apply SFcompare_SFz; auto using Prim2SF_valid. Qed.

Lemma SFcompare_num (x y : spec_float) (c : comparison) :
  SFcompare x y = Some c -> SFnum x = true /\ SFnum y = true.
Proof. destruct x, y; cbn; intros; try discriminate; auto. Qed.

Lemma leb_Fz (x y : float) :
  (x <=? y)%float = Fnum x && Fnum y && (Fz x <=? Fz y).
Proof.
  rewrite FloatAxioms.leb_spec. unfold SFleb.
  destruct (Fnum x) eqn:Nx; [destruct (Fnum y) eqn:Ny |].
  - rewrite compare_Fz by assumption. cbn [andb]. unfold Z.leb.
    destruct (Fz x ?= Fz y); reflexivity.
  - unfold Fnum in Ny. destruct (Prim2SF y); try discriminate.
    destruct (Prim2SF x); reflexivity.
  - unfold Fnum in Nx. destruct (Prim2SF x); try discriminate. reflexivity.
Qed.

Lemma ltb_Fz (x y : float) :
  (x <? y)%float = Fnum x && Fnum y && (Fz x <? Fz y).
Proof.
  rewrite FloatAxioms.ltb_spec. unfold SFltb.
  destruct (Fnum x) eqn:Nx; [destruct (Fnum y) eqn:Ny |].
  - rewrite compare_Fz by assumption. cbn [andb]. unfold Z.ltb.
    destruct (Fz x ?= Fz y); reflexivity.
  - unfold Fnum in Ny. destruct (Prim2SF y); try discriminate.
    destruct (Prim2SF x); reflexivity.
  - unfold Fnum in Nx. destruct (Prim2SF x); try discriminate. reflexivity.
Qed.

Lemma eqb_Fz (x y : float) :
  (x =? y)%float = Fnum x && Fnum y && (Fz x =? Fz y).
Proof.
  rewrite FloatAxioms.eqb_spec. unfold SFeqb.
  destruct (Fnum x) eqn:Nx; [destruct (Fnum y) eqn:Ny |].
  - rewrite compare_Fz by assumption. cbn [andb].
    destruct (Z.eqb_spec (Fz x) (Fz y)) as [E | NE].
    + rewrite E, Z.compare_refl. reflexivity.
    + destruct (Fz x ?= Fz y) eqn:C; try reflexivity.
      apply Z.compare_eq in C. contradiction.
  - unfold Fnum in Ny. destruct (Prim2SF y); try discriminate.
    destruct (Prim2SF x); reflexivity.
  - unfold Fnum in Nx. destruct (Prim2SF x); try discriminate. reflexivity.
Qed.

Lemma Fz_range (x : float) : - INF <= Fz x <= INF.
Proof.
  unfold Fz. pose proof (Prim2SF_valid x) as V.
  assert (PI : 0 < INF) by (apply pow2_pos; unfold K; lia).
  destruct (Prim2SF x) as [s | s | | s m e]; cbn [SFz]; try lia.
  - destruct s; cbn [cond_Zopp]; lia.
  - pose proof (V_lt_INF m e V). destruct s; cbn [cond_Zopp]; lia.
Qed.

Lemma Ffin_bounds (x : float) :
  Ffin x = true <-> Fnum x = true /\ - INF < Fz x < INF.
Proof.
  unfold Ffin, Fnum, Fz. pose proof (Prim2SF_valid x) as V.
  assert (PI : 0 < INF) by (apply pow2_pos; unfold K; lia).
  destruct (Prim2SF x) as [s | s | | s m e]; cbn [SFz SFfin SFnum].
  - split; [intros _; split; [reflexivity | lia] | reflexivity].
  - split; [discriminate |]. intros [_ H]. destruct s; cbn [cond_Zopp] in H; lia.
  - split; [discriminate | intros [? _]; discriminate].
  - pose proof (V_lt_INF m e V). split; [| reflexivity]. intros _. split; [reflexivity |].
    destruct s; cbn [cond_Zopp]; lia.
Qed.

(** What the bounds of an exact value give for its rounding. *)
Lemma Rounds_between (r : spec_float) (X c : Z) (blo bhi : float) :
  Rounds r X c -> Fnum blo = true -> Fnum bhi = true ->
  Fz blo * c <= X <= Fz bhi * c ->
  SFnum r = true /\ Fz blo <= SFz r <= Fz bhi.
Proof.
  intros (Vr & Nr & Hu & Hl) Nlo Nhi [H1 H2]. split; [exact Nr |]. split.
  - apply Hl; auto using Prim2SF_valid.
  - apply Hu; auto using Prim2SF_valid.
Qed.

Lemma mul_Rounds (x y : float) :
  Ffin x = true -> Ffin y = true -> Rounds (Prim2SF (x * y)) (Fz x * Fz y) U.
Proof. intros. rewrite mul_spec. apply SFmul_rounds; auto using Prim2SF_valid. Qed.

Lemma add_Rounds (x y : float) :
  Ffin x = true -> Ffin y = true -> Rounds (Prim2SF (x + y)) (Fz x + Fz y) 1.
Proof. intros. rewrite add_spec. apply SFadd_rounds; auto using Prim2SF_valid. Qed.

Lemma sub_Rounds (x y : float) :
  Ffin x = true -> Ffin y = true -> Rounds (Prim2SF (x - y)) (Fz x - Fz y) 1.
Proof. intros. rewrite sub_spec. apply SFsub_rounds; auto using Prim2SF_valid. Qed.

Lemma quarter_SF : Prim2SF 0.25 = SFquarter.
Proof. reflexivity. Qed.

Lemma div_quarter_Rounds (x : float) :
  Ffin x = true -> Rounds (Prim2SF (x / 0.25)) (4 * Fz x) 1.
Proof.
  intros. rewrite div_spec, quarter_SF. apply SFdiv_quarter_rounds; auto using Prim2SF_valid.
Qed.

Lemma digits2_le53 (p : positive) : Zpos p <= 2 ^ 52 -> Zpos (digits2_pos p) <= 53.
Proof.
  intros H. pose proof (digits2_bounds p) as [B1 B2].
  destruct (Z.le_gt_cases (Zpos (digits2_pos p)) 53) as [L | L]; [exact L | exfalso].
  assert (2 ^ 53 <= 2 ^ (Zpos (digits2_pos p) - 1)) by (apply pow2_le; lia).
  rewrite pow53 in *. assert (0 < 2 ^ 52) by (apply pow2_pos; lia). lia.
Qed.

(** Conversion of a small integer is exact. *)
Lemma normalize_int (z : Z) (s : bool) :
  Z.abs z <= 2 ^ 52 ->
  let r := binary_normalize prec emax z 0 s in
  valid_binary r = true /\ SFfin r = true /\ SFz r = z * U.
Proof.
  intros Hz r. subst r.
  destruct (binary_normalize_bounds z 0 s ltac:(lia)) as (B1 & B2 & _ & _ & B5).
  assert (PU := U_pos).
  assert (E : SFz (binary_normalize prec emax z 0 s) = z * U).
  { apply B5.
    - rewrite fexp64. destruct z as [| p | p]; cbn [Zdigits2].
      + lia.
      + pose proof (digits2_le53 p ltac:(lia)). lia.
      + pose proof (digits2_le53 p ltac:(lia)). lia.
    - change (2 ^ (0 + K)) with U. rewrite INF_U.
      assert (2 ^ 52 < 2 ^ 1024) by (apply pow2_lt; lia). nia. }
  split; [exact B1 |]. split; [| exact E].
  pose proof INF_U as HI. assert (L : 2 ^ 52 < 2 ^ 1024) by (apply pow2_lt; lia).
  destruct (binary_normalize prec emax z 0 s) as [s' | s' | | s' m e]; try reflexivity; try discriminate.
  exfalso. cbn [SFz] in E. destruct s'; cbn [cond_Zopp] in E; nia.
Qed.

Lemma Math_round_spec (x : float) :
  Ffin x = true ->
  exists n : Z,
    Ffin (Math_round x) = true /\ Fz (Math_round x) = n * U /\
    2 * n * U <= 2 * Fz x + U < 2 * n * U + 2 * U.
Proof.
  intros Fx. assert (PU := U_pos). pose proof (eq_refl : K = 2148) as HKv.
  pose proof (Prim2SF_valid x) as Vx.
  unfold Math_round. unfold Ffin, Fz in *.
  destruct (Prim2SF x) as [s | s | | s m e] eqn:Ex; try discriminate.
  - exists 0. rewrite Ex. cbn [SFfin SFz]. split; [reflexivity |]. lia.
  - cbn [valid_binary] in Vx. apply andb_prop in Vx. destruct Vx as [Cx _].
    destruct (canonical_facts _ _ Cx) as (A1 & A2 & _).
    destruct (Z.leb_spec 0 e) as [He | He].
    + exists (cond_Zopp s (Zpos m * 2 ^ e)). rewrite Ex. cbn [SFfin SFz].
      split; [reflexivity |].
      assert (EV : V m e = Zpos m * 2 ^ e * U).
      { unfold V, U. rewrite Z.pow_add_r by lia. ring. }
      rewrite EV. destruct s; cbn [cond_Zopp]; lia.
    + set (k := - e). assert (Hk : 1 <= k <= 1074) by (unfold k; lia).
      rewrite Z.shiftr_div_pow2, Z.land_ones, Z.shiftl_1_l by lia.
      set (q := Zpos m / 2 ^ k). set (r := Zpos m mod 2 ^ k). set (H := 2 ^ (k - 1)).
      assert (PH : 0 < H) by (apply pow2_pos; lia).
      assert (E2 : 2 ^ k = 2 * H).
      { unfold H. replace k with (1 + (k - 1)) at 1 by lia. rewrite pow2_split by lia. reflexivity. }
      pose proof (Z.div_mod (Zpos m) (2 ^ k) ltac:(lia)) as DM. fold q r in DM.
      pose proof (Z.mod_pos_bound (Zpos m) (2 ^ k) ltac:(lia)) as RB. fold r in RB.
      rewrite E2 in DM, RB.
      assert (Hq : 0 <= q < 2 ^ 52) by (rewrite pow53 in A2; nia).
      set (w := 2 ^ (e + K)). assert (Pw : 0 < w) by (apply pow2_pos; lia).
      assert (EU : U = 2 * H * w).
      { unfold U, w. rewrite <- E2, <- pow2_split by lia. f_equal. unfold k. lia. }
      assert (EV : V m e = (2 * H * q + r) * w) by (unfold V; fold w; rewrite DM at 1; reflexivity).
      set (n := if s then (if H <? r then q + 1 else q) else (if H <=? r then q + 1 else q)).
      assert (Hn : 0 <= n <= 2 ^ 52).
      { unfold n. destruct s; [destruct (H <? r) | destruct (H <=? r)]; lia. }
      destruct (normalize_int (if s then - n else n) s) as (N1 & N2 & N3).
      { destruct s; lia. }
      exists (if s then - n else n).
      rewrite (Prim2SF_SF2Prim _ N1). split; [exact N2 |]. split; [exact N3 |].
      cbn [SFz]. rewrite EV, EU. unfold n.
      destruct s; cbn [cond_Zopp].
      * destruct (Z.ltb_spec H r); nia.
      * destruct (Z.leb_spec H r); nia.
Qed.

Lemma isInteger_of_multiple (x : float) (n : Z) :
  Ffin x = true -> Fz x = n * U -> Number_isInteger x = true.
Proof.
  unfold Ffin, Fz, Number_isInteger. intros Fx E.
  pose proof (Prim2SF_valid x) as Vx. pose proof (eq_refl : K = 2148) as HKv.
  destruct (Prim2SF x) as [s | s | | s m e]; try discriminate; [reflexivity |].
  cbn [valid_binary] in Vx. apply andb_prop in Vx. destruct Vx as [Cx _].
  destruct (canonical_facts _ _ Cx) as (A1 & _ & _).
  destruct (Z.leb_spec 0 e) as [He | He]; [reflexivity |]. cbn [orb].
  apply Z.eqb_eq. cbn [SFz] in E. unfold V in E.
  set (w := 2 ^ (e + K)) in *. assert (Pw : 0 < w) by (apply pow2_pos; lia).
  set (p := 2 ^ (- e)). assert (Pp : 0 < p) by (apply pow2_pos; lia).
  assert (EU : U = p * w).
  { unfold U, p, w. rewrite <- pow2_split by lia. f_equal. lia. }
  rewrite EU in E.
  assert (Em : Zpos m = Z.abs n * p) by (destruct s; cbn [cond_Zopp] in E; nia).
  rewrite Em. apply Z.mod_mul. lia.
Qed.

Lemma Fz_zero_inv (x : float) :
  Fnum x = true -> Fz x = 0 -> exists s, Prim2SF x = S754_zero s.
Proof.
  unfold Fnum, Fz. intros N E. pose proof (Prim2SF_valid x) as V.
  assert (PI : 0 < INF) by (apply pow2_pos; unfold K; lia).
  destruct (Prim2SF x) as [s | s | | s m e]; cbn [SFz SFnum] in *.
  - exists s. reflexivity.
  - destruct s; cbn [cond_Zopp] in E; lia.
  - discriminate N.
  - pose proof (V_lt_INF m e V). destruct s; cbn [cond_Zopp] in E; lia.
Qed.

Lemma Fz_INF_inv (x : float) :
  Fnum x = true -> Z.abs (Fz x) = INF -> exists s, Prim2SF x = S754_infinity s.
Proof.
  unfold Fnum, Fz. intros N E. pose proof (Prim2SF_valid x) as V.
  assert (PI : 0 < INF) by (apply pow2_pos; unfold K; lia).
  destruct (Prim2SF x) as [s | s | | s m e]; cbn [SFz SFnum] in *.
  - lia.
  - exists s. reflexivity.
  - discriminate N.
  - pose proof (V_lt_INF m e V). destruct s; cbn [cond_Zopp] in E; lia.
Qed.

Lemma Prim_of_SF (x : float) (v : spec_float) : Prim2SF x = v -> x = SF2Prim v.
Proof. intros <-. symmetry. apply SF2Prim_Prim2SF. Qed.

Lemma Fz_pos_INF (x : float) : Fnum x = true -> Fz x = INF -> x = infinity.
Proof.
  intros N E. assert (PI : 0 < INF) by (apply pow2_pos; unfold K; lia).
  destruct (Fz_INF_inv x N ltac:(lia)) as [s Hs].
  unfold Fz in E. rewrite Hs in E. cbn [SFz] in E.
  destruct s; cbn [cond_Zopp] in E; [lia |]. apply (Prim_of_SF _ _ Hs).
Qed.

Lemma Fz_neg_INF (x : float) : Fnum x = true -> Fz x = - INF -> x = neg_infinity.
Proof.
  intros N E. assert (PI : 0 < INF) by (apply pow2_pos; unfold K; lia).
  destruct (Fz_INF_inv x N ltac:(lia)) as [s Hs].
  unfold Fz in E. rewrite Hs in E. cbn [SFz] in E.
  destruct s; cbn [cond_Zopp] in E; [| lia]. apply (Prim_of_SF _ _ Hs).
Qed.


Lemma is_zero_inv (x : float) :
  is_zero x = true -> exists s, Prim2SF x = S754_zero s.
Proof.
  unfold is_zero. rewrite eqb_Fz. intros H.
  apply andb_prop in H. destruct H as [H E]. apply andb_prop in H. destruct H as [N _].
  apply Z.eqb_eq in E. apply Fz_zero_inv; assumption.
Qed.

Lemma get_sign_zero (x : float) (s : bool) :
  Prim2SF x = S754_zero s -> get_sign x = s.
Proof.
  intros E. unfold get_sign, is_zero.
  rewrite FloatAxioms.eqb_spec, E. change (Prim2SF PrimFloat.zero) with (S754_zero false).
  cbn [SFeqb SFcompare]. rewrite FloatAxioms.ltb_spec, div_spec, E.
  change (Prim2SF PrimFloat.zero) with (S754_zero false).
  change (Prim2SF PrimFloat.one) with (S754_finite false 4503599627370496 (-52)).
  destruct s; reflexivity.
Qed.

Lemma is_neg_zero_eq (x : float) : is_neg_zero x = true -> x = neg_zero.
Proof.
  unfold is_neg_zero. intros H. apply andb_prop in H. destruct H as [Z S].
  destruct (is_zero_inv x Z) as [s E]. rewrite (get_sign_zero x s E) in S. subst s.
  apply (Prim_of_SF _ _ E).
Qed.

Lemma is_pos_zero_eq (x : float) : is_pos_zero x = true -> x = PrimFloat.zero.
Proof.
  unfold is_pos_zero. intros H. apply andb_prop in H. destruct H as [Z S].
  destruct (is_zero_inv x Z) as [s E]. rewrite (get_sign_zero x s E) in S.
  destruct s; [discriminate |]. apply (Prim_of_SF _ _ E).
Qed.

(** ** Math.min and Math.max on lists without NaN *)

Lemma Math_min_from_spec (l : list float) :
  forall lowest,
    Fnum lowest = true -> Forall (fun v => Fnum v = true) l ->
    Fnum (Math_min_from lowest l) = true /\
    (Math_min_from lowest l = lowest \/ In (Math_min_from lowest l) l) /\
    Fz (Math_min_from lowest l) <= Fz lowest /\
    Forall (fun v => Fz (Math_min_from lowest l) <= Fz v) l.
Proof.
  induction l as [| n rest IH]; intros lowest Nl Hl; cbn [Math_min_from].
  - repeat split; auto. lia.
  - inversion Hl as [| ? ? Nn Hrest]; subst.
    rewrite is_nan_Fnum, Nn. cbn [negb]. cbv zeta.
    match goal with |- context [(n <? ?y)%float] => remember y as l1 eqn:D1 end.
    assert (H1 : Fnum l1 = true /\ (l1 = lowest \/ l1 = n) /\ Fz l1 = Fz lowest).
    { rewrite D1. destruct (is_neg_zero n && is_pos_zero lowest) eqn:C.
      - apply andb_prop in C. destruct C as [C1 C2].
        apply is_neg_zero_eq in C1. apply is_pos_zero_eq in C2. rewrite C1, C2.
        repeat split; auto.
      - auto. }
    clear D1. destruct H1 as (N1 & O1 & E1).
    match goal with |- context [Math_min_from ?y rest] => remember y as l2 eqn:D2 end.
    assert (H2 : Fnum l2 = true /\ (l2 = lowest \/ l2 = n) /\ Fz l2 <= Fz lowest /\ Fz l2 <= Fz n).
    { rewrite D2, ltb_Fz, Nn, N1. cbn [andb].
      destruct (Z.ltb_spec (Fz n) (Fz l1)); (split; [assumption |]); (split; [tauto |]); lia. }
    clear D2. destruct H2 as (N2 & O2 & L2 & L2').
    destruct (IH l2 N2 Hrest) as (Nr & Or & Lr & Fr).
    split; [exact Nr |]. split; [| split; [lia |]].
    + destruct Or as [-> | I]; [| right; right; exact I].
      destruct O2 as [-> | ->]; [left; reflexivity | right; left; reflexivity].
    + constructor; [lia | exact Fr].
Qed.

Lemma Math_max_from_spec (l : list float) :
  forall highest,
    Fnum highest = true -> Forall (fun v => Fnum v = true) l ->
    Fnum (Math_max_from highest l) = true /\
    (Math_max_from highest l = highest \/ In (Math_max_from highest l) l) /\
    Fz highest <= Fz (Math_max_from highest l) /\
    Forall (fun v => Fz v <= Fz (Math_max_from highest l)) l.
Proof.
  induction l as [| n rest IH]; intros highest Nl Hl; cbn [Math_max_from].
  - repeat split; auto. lia.
  - inversion Hl as [| ? ? Nn Hrest]; subst.
    rewrite is_nan_Fnum, Nn. cbn [negb]. cbv zeta.
    match goal with |- context [(?y <? n)%float] => remember y as l1 eqn:D1 end.
    assert (H1 : Fnum l1 = true /\ (l1 = highest \/ l1 = n) /\ Fz l1 = Fz highest).
    { rewrite D1. destruct (is_pos_zero n && is_neg_zero highest) eqn:C.
      - apply andb_prop in C. destruct C as [C1 C2].
        apply is_pos_zero_eq in C1. apply is_neg_zero_eq in C2. rewrite C1, C2.
        repeat split; auto.
      - auto. }
    clear D1. destruct H1 as (N1 & O1 & E1).
    match goal with |- context [Math_max_from ?y rest] => remember y as l2 eqn:D2 end.
    assert (H2 : Fnum l2 = true /\ (l2 = highest \/ l2 = n) /\ Fz highest <= Fz l2 /\ Fz n <= Fz l2).
    { rewrite D2, ltb_Fz, Nn, N1. cbn [andb].
      destruct (Z.ltb_spec (Fz l1) (Fz n)); (split; [assumption |]); (split; [tauto |]); lia. }
    clear D2. destruct H2 as (N2 & O2 & L2 & L2').
    destruct (IH l2 N2 Hrest) as (Nr & Or & Lr & Fr).
    split; [exact Nr |]. split; [| split; [lia |]].
    + destruct Or as [-> | I]; [| right; right; exact I].
      destruct O2 as [-> | ->]; [left; reflexivity | right; left; reflexivity].
    + constructor; [lia | exact Fr].
Qed.

Lemma Math_min_spec (l : list float) :
  l <> [] -> Forall (fun v => Fnum v = true) l ->
  Fnum (Math_min l) = true /\ In (Math_min l) l /\
  Forall (fun v => Fz (Math_min l) <= Fz v) l.
Proof.
  intros Hne Hl. destruct (Math_min_from_spec l infinity eq_refl Hl) as (N & O & L & F).
  fold (Math_min l) in *. split; [exact N |]. split; [| exact F].
  destruct O as [E | I]; [| exact I].
  destruct l as [| v rest]; [contradiction |].
  inversion F as [| ? ? Lv _]; subst. inversion Hl as [| ? ? Nv _]; subst.
  rewrite E in Lv. pose proof (Fz_range v). change (Fz infinity) with INF in Lv.
  rewrite E. left. apply Fz_pos_INF; [exact Nv | lia].
Qed.

Lemma Math_max_spec (l : list float) :
  l <> [] -> Forall (fun v => Fnum v = true) l ->
  Fnum (Math_max l) = true /\ In (Math_max l) l /\
  Forall (fun v => Fz v <= Fz (Math_max l)) l.
Proof.
  intros Hne Hl. destruct (Math_max_from_spec l neg_infinity eq_refl Hl) as (N & O & L & F).
  fold (Math_max l) in *. split; [exact N |]. split; [| exact F].
  destruct O as [E | I]; [| exact I].
  destruct l as [| v rest]; [contradiction |].
  inversion F as [| ? ? Lv _]; subst. inversion Hl as [| ? ? Nv _]; subst.
  rewrite E in Lv. pose proof (Fz_range v). change (Fz neg_infinity) with (- INF) in Lv.
  rewrite E. left. apply Fz_neg_INF; [exact Nv | lia].
Qed.

(** ** The degenerate normalisation *)

Lemma sub_same (x y : float) :
  Fnum x = true -> Fnum y = true -> Fz x = Fz y ->
  (exists s, Prim2SF (x - y) = S754_zero s) \/ Prim2SF (x - y) = S754_nan.
Proof.
  intros Nx Ny E. assert (PI : 0 < INF) by (apply pow2_pos; unfold K; lia).
  destruct (Ffin x) eqn:Fx.
  - assert (Fy : Ffin y = true).
    { apply Ffin_bounds in Fx. apply Ffin_bounds. split; [exact Ny | lia]. }
    left. destruct (Rounds_between _ _ _ 0%float 0%float (sub_Rounds x y Fx Fy) eq_refl eq_refl) as [N B].
    + rewrite Fz_eq_0. lia.
    + rewrite Fz_eq_0 in B. apply Fz_zero_inv; [exact N | unfold Fz; lia].
  - right. assert (Ax : Z.abs (Fz x) = INF).
    { pose proof (Fz_range x). destruct (Z.eq_dec (Z.abs (Fz x)) INF) as [A | A]; [exact A |].
      assert (Ffin x = true) by (apply Ffin_bounds; split; [exact Nx | lia]). congruence. }
    destruct (Fz_INF_inv x Nx Ax) as [sx Ex].
    destruct (Fz_INF_inv y Ny ltac:(lia)) as [sy Ey].
    unfold Fz in E. rewrite Ex, Ey in E. cbn [SFz] in E.
    rewrite sub_spec, Ex, Ey.
    destruct sx, sy; cbn [cond_Zopp] in E; try lia; reflexivity.
Qed.

Lemma div_degenerate (a b : float) :
  (exists s, Prim2SF a = S754_zero s) \/ Prim2SF a = S754_nan ->
  (exists s, Prim2SF b = S754_zero s) \/ Prim2SF b = S754_nan ->
  (a / b)%float = nan.
Proof.
  intros Ha Hb. apply (Prim_of_SF _ S754_nan). rewrite div_spec.
  destruct Ha as [[sa ->] | ->], Hb as [[sb ->] | ->]; reflexivity.
Qed.

(** * The colour ramp on the unit interval *)

Lemma Fz_1 : Fz 1 = U.
Proof. vm_compute. reflexivity. Qed.
Lemma Fz_025 : 4 * Fz 0.25 = U.
Proof. vm_compute. reflexivity. Qed.
Lemma Fz_05 : 2 * Fz 0.5 = U.
Proof. vm_compute. reflexivity. Qed.
Lemma Fz_075 : 4 * Fz 0.75 = 3 * U.
Proof. vm_compute. reflexivity. Qed.

Lemma Ffin_small (x : float) (k : Z) :
  Fnum x = true -> - k * U <= Fz x <= k * U -> 0 <= k <= 1000000 -> Ffin x = true.
Proof.
  intros N B Hk. apply Ffin_bounds. split; [exact N |].
  pose proof INF_big. pose proof U_pos. nia.
Qed.

(** One channel of one segment: [Math.round(a + c * t)] for [t] in [0,1]
    is an integer between the segment's endpoint values [a] and [a + c]. *)
Lemma interp_bounds (a c b t : float) (ka kc : Z) :
  Fnum a = true -> Fnum c = true -> Fnum b = true ->
  Fz a = ka * U -> Fz c = kc * U -> Fz b = (ka + kc) * U ->
  - 1000 <= ka <= 1000 -> - 1000 <= kc <= 1000 ->
  Ffin t = true -> 0 <= Fz t <= U ->
  exists n, Ffin (Math_round (a + c * t)%float) = true /\
            Fz (Math_round (a + c * t)%float) = n * U /\
            Z.min ka (ka + kc) <= n <= Z.max ka (ka + kc).
Proof.
  intros Na Nc Nb Ea Ec Eb Ha Hc Ft Ht. pose proof U_pos as PU.
  assert (Fa : Ffin a = true) by (apply (Ffin_small a 1000); auto; nia).
  assert (Fc : Ffin c = true) by (apply (Ffin_small c 1000); auto; nia).
  (* the product lies between 0 and c *)
  assert (Hm : Fnum (c * t)%float = true /\
               Z.min 0 (kc * U) <= Fz (c * t)%float <= Z.max 0 (kc * U)).
  { destruct (Z.le_gt_cases 0 kc) as [P | P].
    - destruct (Rounds_between _ _ _ 0%float c (mul_Rounds c t Fc Ft) eq_refl Nc) as [N B].
      + rewrite Fz_eq_0, Ec. nia.
      + split; [exact N |]. rewrite Fz_eq_0, Ec in B. fold (Fz (c * t)%float) in B. nia.
    - destruct (Rounds_between _ _ _ c 0%float (mul_Rounds c t Fc Ft) Nc eq_refl) as [N B].
      + rewrite Fz_eq_0, Ec. nia.
      + split; [exact N |]. rewrite Fz_eq_0, Ec in B. fold (Fz (c * t)%float) in B. nia. }
  destruct Hm as [Nm Bm].
  assert (Fm : Ffin (c * t)%float = true) by (apply (Ffin_small _ 1000); auto; nia).
  (* the sum lies between a and a + c *)
  assert (Hs : Fnum (a + c * t)%float = true /\
               Z.min ka (ka + kc) * U <= Fz (a + c * t)%float <= Z.max ka (ka + kc) * U).
  { destruct (Z.le_gt_cases 0 kc) as [P | P].
    - destruct (Rounds_between _ _ _ a b (add_Rounds a (c * t)%float Fa Fm) Na Nb) as [N B].
      + rewrite Ea, Eb. nia.
      + split; [exact N |]. rewrite Ea, Eb in B. fold (Fz (a + c * t)%float) in B. nia.
    - destruct (Rounds_between _ _ _ b a (add_Rounds a (c * t)%float Fa Fm) Nb Na) as [N B].
      + rewrite Ea, Eb. nia.
      + split; [exact N |]. rewrite Ea, Eb in B. fold (Fz (a + c * t)%float) in B. nia. }
  destruct Hs as [Ns Bs].
  assert (Fs : Ffin (a + c * t)%float = true) by (apply (Ffin_small _ 2000); auto; nia).
  destruct (Math_round_spec _ Fs) as (n & Fr & Er & Hr).
  exists n. split; [exact Fr |]. split; [exact Er |]. nia.
Qed.

Lemma Fz_255 : Fz 255 = 255 * U.
Proof. vm_compute. reflexivity. Qed.

Lemma Ffin_Fnum (x : float) : Ffin x = true -> Fnum x = true.
Proof. intros H. apply Ffin_bounds in H. tauto. Qed.

Lemma valid_channel_of_n (x : float) (n : Z) :
  Ffin x = true -> Fz x = n * U -> 0 <= n <= 255 -> valid_channel x = true.
Proof.
  intros Fx E Hn. pose proof U_pos. unfold valid_channel.
  rewrite (isInteger_of_multiple x n Fx E), !leb_Fz, (Ffin_Fnum x Fx), Fz_eq_0, Fz_255, E.
  cbn [andb]. change (Fnum 0) with true. change (Fnum 255) with true. cbn [andb].
  apply andb_true_intro. split; apply Z.leb_le; nia.
Qed.

(** The interpolation parameter of the first segment. *)
Lemma t_first (n : float) :
  Fnum n = true -> 0 <= Fz n -> 4 * Fz n <= U ->
  Ffin (n / 0.25)%float = true /\ 0 <= Fz (n / 0.25)%float <= U.
Proof.
  intros Nn L H. pose proof U_pos as PU.
  assert (Fn : Ffin n = true) by (apply (Ffin_small n 1); auto; lia).
  destruct (Rounds_between _ _ _ 0%float 1%float (div_quarter_Rounds n Fn) eq_refl eq_refl) as [N B].
  - rewrite Fz_eq_0, Fz_1. lia.
  - rewrite Fz_eq_0, Fz_1 in B. fold (Fz (n / 0.25)%float) in B.
    split; [apply (Ffin_small _ 1); auto; lia | lia].
Qed.

(** The interpolation parameter of a later segment, which starts at [b]. *)
Lemma t_later (n b : float) (kb : Z) :
  Fnum n = true -> Fnum b = true -> 4 * Fz b = kb * U -> 0 <= kb <= 3 ->
  kb * U < 4 * Fz n -> 4 * Fz n <= (kb + 1) * U ->
  Ffin ((n - b) / 0.25)%float = true /\ 0 <= Fz ((n - b) / 0.25)%float <= U.
Proof.
  intros Nn Nb Eb Hk L H. pose proof U_pos as PU. pose proof Fz_025 as Q.
  assert (Fn : Ffin n = true) by (apply (Ffin_small n 1); auto; nia).
  assert (Fb : Ffin b = true) by (apply (Ffin_small b 1); auto; nia).
  destruct (Rounds_between _ _ _ 0%float 0.25%float (sub_Rounds n b Fn Fb) eq_refl eq_refl) as [N B].
  - rewrite Fz_eq_0. nia.
  - rewrite Fz_eq_0 in B. fold (Fz (n - b)%float) in B.
    assert (Fs : Ffin (n - b)%float = true) by (apply (Ffin_small _ 1); auto; nia).
    apply t_first; auto; nia.
Qed.

Ltac channel b ka kc Ft Ht :=
  match goal with
  | |- valid_channel (Math_round (?a + ?c * ?t)%float) = true =>
      let n := fresh "n" in
      let Fr := fresh "Fr" in
      let Er := fresh "Er" in
      let Hn := fresh "Hn" in
      destruct (interp_bounds a c b t ka kc eq_refl eq_refl eq_refl) as (n & Fr & Er & Hn);
      [ vm_compute; reflexivity | vm_compute; reflexivity | vm_compute; reflexivity
      | lia | lia | exact Ft | exact Ht
      | apply (valid_channel_of_n _ n Fr Er); lia ]
  end.

Lemma leb_true_Fz (x y : float) :
  (x <=? y)%float = true -> Fnum x = true /\ Fnum y = true /\ Fz x <= Fz y.
Proof.
  rewrite leb_Fz. intros H. apply andb_prop in H. destruct H as [H H3].
  apply andb_prop in H. destruct H as [H1 H2]. apply Z.leb_le in H3. auto.
Qed.

Lemma leb_false_Fz (x y : float) :
  Fnum x = true -> Fnum y = true -> (x <=? y)%float = false -> Fz y < Fz x.
Proof.
  intros Nx Ny. rewrite leb_Fz, Nx, Ny. cbn [andb]. intros H. apply Z.leb_gt in H. exact H.
Qed.

(** C10.  For every input from 0 to 1 each of the red, green and blue
    channels (and the alpha channel) is an integer from 0 to 255: the
    colour is a valid RGBA colour. *)
Theorem getKeplerColor_valid_in_range (t : number) :
  (0 <=? t)%float = true -> (t <=? 1)%float = true ->
  let '(r, g, b, a) := getKeplerColor t in
  valid_channel r = true /\ valid_channel g = true /\ valid_channel b = true /\
  valid_channel a = true.
Proof.
  intros H0 H1. apply leb_true_Fz in H0, H1.
  destruct H0 as (_ & Nt & L0), H1 as (_ & _ & L1). rewrite Fz_eq_0 in L0. rewrite Fz_1 in L1.
  pose proof U_pos as PU. pose proof Fz_025 as Q1. pose proof Fz_05 as Q2. pose proof Fz_075 as Q3.
  unfold getKeplerColor.
  destruct (t <=? 0.25)%float eqn:C1.
  { apply leb_true_Fz in C1. destruct C1 as (_ & _ & C1).
    destruct (t_first t Nt L0 ltac:(lia)) as [Ft Ht].
    split; [| split; [| split; [| reflexivity]]]; [channel 59%float 68 (-9) Ft Ht | channel 82%float 1 81 Ft Ht
                  | channel 139%float 84 55 Ft Ht]. }
  apply leb_false_Fz in C1; [| exact Nt | reflexivity].
  destruct (t <=? 0.5)%float eqn:C2.
  { apply leb_true_Fz in C2. destruct C2 as (_ & _ & C2).
    destruct (t_later t 0.25%float 1 Nt eq_refl ltac:(lia) ltac:(lia) ltac:(lia) ltac:(lia)) as [Ft Ht].
    split; [| split; [| split; [| reflexivity]]]; [channel 33%float 59 (-26) Ft Ht | channel 144%float 82 62 Ft Ht
                  | channel 140%float 139 1 Ft Ht]. }
  apply leb_false_Fz in C2; [| exact Nt | reflexivity].
  destruct (t <=? 0.75)%float eqn:C3.
  { apply leb_true_Fz in C3. destruct C3 as (_ & _ & C3).
    destruct (t_later t 0.5%float 2 Nt eq_refl ltac:(lia) ltac:(lia) ltac:(lia) ltac:(lia)) as [Ft Ht].
    split; [| split; [| split; [| reflexivity]]]; [channel 94%float 33 61 Ft Ht | channel 201%float 144 57 Ft Ht
                  | channel 98%float 140 (-42) Ft Ht]. }
  apply leb_false_Fz in C3; [| exact Nt | reflexivity].
  destruct (t_later t 0.75%float 3 Nt eq_refl ltac:(lia) ltac:(lia) ltac:(lia) ltac:(lia)) as [Ft Ht].
  split; [| split; [| split; [| reflexivity]]]; [channel 253%float 94 159 Ft Ht | channel 231%float 201 30 Ft Ht
                | channel 37%float 98 (-61) Ft Ht].
Qed.

(** * The colour ramp near the segment boundaries *)

Lemma U_G : U = 2048 * G.
Proof. unfold U, G. replace K with (11 + (K - 11)) at 1 by lia. rewrite pow2_split by (unfold K; lia). reflexivity. Qed.

Lemma G_pos : 0 < G.
Proof. apply pow2_pos. unfold K. lia. Qed.

Lemma SF_finite_inj (x y : spec_float) :
  SFfin x = true -> SFfin y = true -> SFcompare x y = Some Eq ->
  (exists s m e, x = S754_finite s m e) -> x = y.
Proof.
  intros Fx Fy C (s & m & e & ->).
  destruct y as [sy | sy | | sy my ey]; try discriminate.
  - cbn in C. destruct s; discriminate.
  - cbn [SFcompare] in C.
    destruct s, sy; try discriminate; destruct (Z.compare_spec e ey) as [-> | L | L];
      try discriminate; inversion C as [C'];
      change (Pos.compare_cont Eq m my) with (Pos.compare m my) in C';
      try (apply (f_equal CompOpp) in C'; rewrite CompOpp_involutive in C'; cbn [CompOpp] in C');
      apply Pos.compare_eq in C'; subst; reflexivity.
Qed.

Lemma Fz_inj (x y : float) :
  Ffin x = true -> Ffin y = true -> Fz x = Fz y -> Fz x <> 0 -> x = y.
Proof.
  intros Fx Fy E NZ. apply Prim2SF_inj.
  apply SF_finite_inj; auto.
  - rewrite compare_Fz by (apply Ffin_Fnum; assumption). rewrite E, Z.compare_refl. reflexivity.
  - unfold Ffin, Fz in *. destruct (Prim2SF x) as [s | s | | s m e]; try discriminate.
    + cbn [SFz] in NZ. contradiction.
    + eauto.
Qed.

Lemma Ffin_between (x lo hi : float) :
  Fnum x = true -> Ffin lo = true -> Ffin hi = true ->
  Fz lo <= Fz x <= Fz hi -> Ffin x = true.
Proof.
  intros N Fl Fh B. apply Ffin_bounds in Fl, Fh. apply Ffin_bounds. split; [exact N | lia].
Qed.

(** One channel near a segment end: when the interpolation parameter [t]
    stays between [tl] and [th], and the exact interpolant at both stays
    within half a unit of the integer [S], the channel is exactly [S]. *)
Lemma interp_exact (a c t tl th Sf : float) (A C TL TH S : Z) :
  Ffin a = true -> Ffin c = true -> Ffin Sf = true ->
  Ffin (c * tl)%float = true -> Ffin (c * th)%float = true ->
  Ffin (a + c * tl)%float = true -> Ffin (a + c * th)%float = true ->
  Fz a = A * U -> Fz c = C * U -> Fz Sf = S * U ->
  Fz (c * tl)%float = C * TL * G -> Fz (c * th)%float = C * TH * G ->
  Fz (a + c * tl)%float = A * U + C * TL * G ->
  Fz (a + c * th)%float = A * U + C * TH * G ->
  S <> 0 ->
  (2 * S - 1) * 1024 < A * 2048 + C * TL < (2 * S + 1) * 1024 ->
  (2 * S - 1) * 1024 < A * 2048 + C * TH < (2 * S + 1) * 1024 ->
  Ffin t = true -> TL * G <= Fz t <= TH * G ->
  Math_round (a + c * t)%float = Sf.
Proof.
  intros Fa Fc FS Fpl Fph Fsl Fsh Ea Ec ES Epl Eph Esl Esh NZ W1 W2 Ft Ht.
  pose proof U_pos as PU. pose proof G_pos as PG. pose proof U_G as UG.
  pose proof (Ffin_Fnum _ Fpl) as Npl. pose proof (Ffin_Fnum _ Fph) as Nph.
  pose proof (Ffin_Fnum _ Fsl) as Nsl. pose proof (Ffin_Fnum _ Fsh) as Nsh.
  assert (Hm : Ffin (c * t)%float = true /\
               Z.min (C * TL * G) (C * TH * G) <= Fz (c * t)%float <= Z.max (C * TL * G) (C * TH * G)).
  { destruct (Z.le_gt_cases 0 C) as [P | P].
    - destruct (Rounds_between _ _ _ (c * tl)%float (c * th)%float (mul_Rounds c t Fc Ft) Npl Nph) as [N B].
      + rewrite Epl, Eph, Ec.
        replace (C * TL * G * U) with (C * U * (TL * G)) by ring.
        replace (C * TH * G * U) with (C * U * (TH * G)) by ring.
        assert (0 <= C * U) by nia.
        split; apply Z.mul_le_mono_nonneg_l; lia.
      + fold (Fz (c * t)%float) in B. split.
        * apply (Ffin_between _ (c * tl)%float (c * th)%float); auto.
        * rewrite Epl, Eph in B. nia.
    - destruct (Rounds_between _ _ _ (c * th)%float (c * tl)%float (mul_Rounds c t Fc Ft) Nph Npl) as [N B].
      + rewrite Epl, Eph, Ec.
        replace (C * TL * G * U) with (C * U * (TL * G)) by ring.
        replace (C * TH * G * U) with (C * U * (TH * G)) by ring.
        assert (C * U <= 0) by nia.
        split; apply Z.mul_le_mono_nonpos_l; lia.
      + fold (Fz (c * t)%float) in B. split.
        * apply (Ffin_between _ (c * th)%float (c * tl)%float); auto.
        * rewrite Epl, Eph in B. nia. }
  destruct Hm as [Fm Bm].
  assert (Hs : Ffin (a + c * t)%float = true /\
               A * U + Z.min (C * TL * G) (C * TH * G) <= Fz (a + c * t)%float
               <= A * U + Z.max (C * TL * G) (C * TH * G)).
  { destruct (Z.le_gt_cases (C * TL * G) (C * TH * G)) as [P | P].
    - destruct (Rounds_between _ _ _ (a + c * tl)%float (a + c * th)%float
                  (add_Rounds a (c * t)%float Fa Fm) Nsl Nsh) as [N B].
      + rewrite Esl, Esh, Ea. lia.
      + fold (Fz (a + c * t)%float) in B. split.
        * apply (Ffin_between _ (a + c * tl)%float (a + c * th)%float); auto.
        * rewrite Esl, Esh in B. lia.
    - destruct (Rounds_between _ _ _ (a + c * th)%float (a + c * tl)%float
                  (add_Rounds a (c * t)%float Fa Fm) Nsh Nsl) as [N B].
      + rewrite Esl, Esh, Ea. lia.
      + fold (Fz (a + c * t)%float) in B. split.
        * apply (Ffin_between _ (a + c * th)%float (a + c * tl)%float); auto.
        * rewrite Esl, Esh in B. lia. }
  destruct Hs as [Fs Bs].
  destruct (Math_round_spec _ Fs) as (n & Fr & Er & Hr).
  assert (n = S).
  { rewrite UG in *. 
    assert (Z.min (C * TL * G) (C * TH * G) = Z.min (C * TL) (C * TH) * G) by nia.
    assert (Z.max (C * TL * G) (C * TH * G) = Z.max (C * TL) (C * TH) * G) by nia.
    nia. }
  subst n. apply Fz_inj; auto. - congruence. - rewrite Er. nia.
Qed.

Lemma Fz_G (x : float) (k : Z) : Fz x * 2048 = k * U -> Fz x = k * G.
Proof. rewrite U_G. pose proof G_pos. nia. Qed.

Ltac closed_Fz := apply Fz_G; vm_compute; reflexivity.

(** The parameter of a segment just before its end. *)
Lemma t_near_end_first (n : float) :
  Fnum n = true -> 511 * G <= Fz n <= 512 * G ->
  Ffin (n / 0.25)%float = true /\ 2044 * G <= Fz (n / 0.25)%float <= 2048 * G.
Proof.
  intros Nn H. pose proof G_pos as PG. pose proof U_G as UG. pose proof U_pos as PU.
  assert (Fn : Ffin n = true) by (apply (Ffin_small n 1); auto; lia).
  assert (E1 : Fz 0.998046875 = 2044 * G) by closed_Fz.
  destruct (Rounds_between _ _ _ 0.998046875%float 1%float (div_quarter_Rounds n Fn) eq_refl eq_refl) as [N B].
  - rewrite E1, Fz_1. lia.
  - rewrite E1, Fz_1 in B. fold (Fz (n / 0.25)%float) in B.
    split; [apply (Ffin_small _ 1); auto; lia | lia].
Qed.

Lemma t_near_end (n s : float) (ks : Z) :
  Fnum n = true -> Fnum s = true -> Fz s = ks * 512 * G -> 0 <= ks <= 3 ->
  (ks * 512 + 511) * G <= Fz n <= (ks * 512 + 512) * G ->
  Ffin ((n - s) / 0.25)%float = true /\ 2044 * G <= Fz ((n - s) / 0.25)%float <= 2048 * G.
Proof.
  intros Nn Ns Es Hk H. pose proof G_pos as PG. pose proof U_G as UG. pose proof U_pos as PU.
  assert (Fn : Ffin n = true) by (apply (Ffin_small n 1); auto; nia).
  assert (Fs : Ffin s = true) by (apply (Ffin_small s 1); auto; nia).
  assert (E1 : Fz 0.24951171875 = 511 * G) by closed_Fz.
  assert (E2 : Fz 0.25 = 512 * G) by closed_Fz.
  destruct (Rounds_between _ _ _ 0.24951171875%float 0.25%float (sub_Rounds n s Fn Fs) eq_refl eq_refl) as [N B].
  - rewrite E1, E2. nia.
  - rewrite E1, E2 in B. fold (Fz (n - s)%float) in B. apply t_near_end_first; auto.
Qed.

(** The parameter of a segment just after its start [b]. *)
Lemma t_near_start (n b : float) (kb : Z) :
  Fnum n = true -> Fnum b = true -> Fz b = kb * 512 * G -> 0 <= kb <= 3 ->
  kb * 512 * G < Fz n <= (kb * 512 + 1) * G ->
  Ffin ((n - b) / 0.25)%float = true /\ 0 * G <= Fz ((n - b) / 0.25)%float <= 4 * G.
Proof.
  intros Nn Nb Eb Hk H. pose proof G_pos as PG. pose proof U_G as UG. pose proof U_pos as PU.
  assert (Fn : Ffin n = true) by (apply (Ffin_small n 1); auto; nia).
  assert (Fb : Ffin b = true) by (apply (Ffin_small b 1); auto; nia).
  assert (E1 : Fz 0.00048828125 = 1 * G) by closed_Fz.
  assert (E2 : Fz 0.001953125 = 4 * G) by closed_Fz.
  destruct (Rounds_between _ _ _ 0%float 0.00048828125%float (sub_Rounds n b Fn Fb) eq_refl eq_refl) as [N B].
  - rewrite E1, Fz_eq_0. nia.
  - rewrite E1, Fz_eq_0 in B. fold (Fz (n - b)%float) in B.
    assert (Fd : Ffin (n - b)%float = true) by (apply (Ffin_small _ 1); auto; nia).
    destruct (Rounds_between _ _ _ 0%float 0.001953125%float (div_quarter_Rounds _ Fd) eq_refl eq_refl) as [N' B'].
    + rewrite E2, Fz_eq_0. lia.
    + rewrite E2, Fz_eq_0 in B'. fold (Fz ((n - b) / 0.25)%float) in B'.
      split; [apply (Ffin_small _ 1); auto; lia | lia].
Qed.

Ltac near_channel tl th A C TL TH S Ft Ht :=
  match goal with
  | |- Math_round (?a + ?c * ?t)%float = ?Sf =>
      apply (interp_exact a c t tl th Sf A C TL TH S);
      [ vm_compute; reflexivity | vm_compute; reflexivity | vm_compute; reflexivity
      | vm_compute; reflexivity | vm_compute; reflexivity | vm_compute; reflexivity
      | vm_compute; reflexivity
      | vm_compute; reflexivity | vm_compute; reflexivity | vm_compute; reflexivity
      | closed_Fz | closed_Fz
      | apply (Z.mul_reg_r _ _ 2048); [lia | rewrite Z.mul_add_distr_r, <- !Z.mul_assoc, (Z.mul_comm G 2048), <- U_G; vm_compute; reflexivity]
      | apply (Z.mul_reg_r _ _ 2048); [lia | rewrite Z.mul_add_distr_r, <- !Z.mul_assoc, (Z.mul_comm G 2048), <- U_G; vm_compute; reflexivity]
      | lia | lia | lia | exact Ft | exact Ht ]
  end.

Ltac end_channel A C S Ft Ht := near_channel 0.998046875%float 1%float A C 2044 2048 S Ft Ht.
Ltac start_channel A C S Ft Ht := near_channel 0%float 0.001953125%float A C 0 4 S Ft Ht.

Lemma color_eq (r g b r' g' b' : number) :
  r = r' -> g = g' -> b = b' -> (r, g, b, 200%float) = (r', g', b', 200%float).
Proof. intros -> -> ->. reflexivity. Qed.

(** C4.  The colour mapper is continuous at the three interior segment
    boundaries: at every input within [2^-11] of 0.25, of 0.5 or of 0.75, on
    either side, the colour is the endpoint triple the two adjoining segments
    share, [59,82,139], [33,144,140] and [94,201,98]; the colours on the left
    and on the right of a boundary agree, here without any rounding gap. *)
Theorem getKeplerColor_near_boundaries (n : number) :
  ((0.24951171875 <=? n)%float = true -> (n <=? 0.25048828125)%float = true ->
   getKeplerColor n = (59, 82, 139, 200)%float) /\
  ((0.49951171875 <=? n)%float = true -> (n <=? 0.50048828125)%float = true ->
   getKeplerColor n = (33, 144, 140, 200)%float) /\
  ((0.74951171875 <=? n)%float = true -> (n <=? 0.75048828125)%float = true ->
   getKeplerColor n = (94, 201, 98, 200)%float).
Proof.
  pose proof G_pos as PG. pose proof U_G as UG.
  assert (E25 : Fz 0.25 = 1 * 512 * G) by closed_Fz.
  assert (E50 : Fz 0.5 = 2 * 512 * G) by closed_Fz.
  assert (E75 : Fz 0.75 = 3 * 512 * G) by closed_Fz.
  split; [| split]; intros H0 H1; apply leb_true_Fz in H0, H1;
    destruct H0 as (_ & Nn & L0), H1 as (_ & _ & L1); unfold getKeplerColor.
  - assert (A0 : Fz 0.24951171875 = 511 * G) by closed_Fz.
    assert (A1 : Fz 0.25048828125 = 513 * G) by closed_Fz.
    destruct (n <=? 0.25)%float eqn:C1.
    + apply leb_true_Fz in C1. destruct C1 as (_ & _ & C1).
      destruct (t_near_end_first n Nn ltac:(lia)) as [Ft Ht].
      apply color_eq; [end_channel 68 (-9) 59 Ft Ht | end_channel 1 81 82 Ft Ht
                      | end_channel 84 55 139 Ft Ht].
    + apply leb_false_Fz in C1; [| exact Nn | reflexivity].
      assert (C2 : (n <=? 0.5)%float = true).
      { rewrite leb_Fz, Nn. apply Z.leb_le. lia. }
      rewrite C2.
      destruct (t_near_start n 0.25%float 1 Nn eq_refl E25 ltac:(lia) ltac:(lia)) as [Ft Ht].
      apply color_eq; [start_channel 59 (-26) 59 Ft Ht | start_channel 82 62 82 Ft Ht
                      | start_channel 139 1 139 Ft Ht].
  - assert (A0 : Fz 0.49951171875 = 1023 * G) by closed_Fz.
    assert (A1 : Fz 0.50048828125 = 1025 * G) by closed_Fz.
    assert (C1 : (n <=? 0.25)%float = false).
    { rewrite leb_Fz, Nn. apply Z.leb_gt. lia. }
    rewrite C1.
    destruct (n <=? 0.5)%float eqn:C2.
    + apply leb_true_Fz in C2. destruct C2 as (_ & _ & C2).
      destruct (t_near_end n 0.25%float 1 Nn eq_refl E25 ltac:(lia) ltac:(lia)) as [Ft Ht].
      apply color_eq; [end_channel 59 (-26) 33 Ft Ht | end_channel 82 62 144 Ft Ht
                      | end_channel 139 1 140 Ft Ht].
    + apply leb_false_Fz in C2; [| exact Nn | reflexivity].
      assert (C3 : (n <=? 0.75)%float = true).
      { rewrite leb_Fz, Nn. apply Z.leb_le. lia. }
      rewrite C3.
      destruct (t_near_start n 0.5%float 2 Nn eq_refl E50 ltac:(lia) ltac:(lia)) as [Ft Ht].
      apply color_eq; [start_channel 33 61 33 Ft Ht | start_channel 144 57 144 Ft Ht
                      | start_channel 140 (-42) 140 Ft Ht].
  - assert (A0 : Fz 0.74951171875 = 1535 * G) by closed_Fz.
    assert (A1 : Fz 0.75048828125 = 1537 * G) by closed_Fz.
    assert (C1 : (n <=? 0.25)%float = false).
    { rewrite leb_Fz, Nn. apply Z.leb_gt. lia. }
    assert (C2 : (n <=? 0.5)%float = false).
    { rewrite leb_Fz, Nn. apply Z.leb_gt. lia. }
    rewrite C1, C2.
    destruct (n <=? 0.75)%float eqn:C3.
    + apply leb_true_Fz in C3. destruct C3 as (_ & _ & C3).
      destruct (t_near_end n 0.5%float 2 Nn eq_refl E50 ltac:(lia) ltac:(lia)) as [Ft Ht].
      apply color_eq; [end_channel 33 61 94 Ft Ht | end_channel 144 57 201 Ft Ht
                      | end_channel 140 (-42) 98 Ft Ht].
    + apply leb_false_Fz in C3; [| exact Nn | reflexivity].
      destruct (t_near_start n 0.75%float 3 Nn eq_refl E75 ltac:(lia) ltac:(lia)) as [Ft Ht].
      apply color_eq; [start_channel 94 159 94 Ft Ht | start_channel 201 30 201 Ft Ht
                      | start_channel 98 (-61) 98 Ft Ht].
Qed.

(** * The loader, the range and the screens *)

(** C1.  At the two ends of the palette the colour mapper returns the
    endpoint colours exactly: [getKeplerColor(0)] is [68,1,84,200] and
    [getKeplerColor(1)] is [253,231,37,200]. *)
Theorem getKeplerColor_endpoints :
  getKeplerColor 0%float = (68, 1, 84, 200)%float /\
  getKeplerColor 1%float = (253, 231, 37, 200)%float.
Proof. split; vm_compute; reflexivity. Qed.

Lemma undefined_not_numeric : isNaN (parseFloat None) = true.
Proof. vm_compute. reflexivity. Qed.

Lemma keep_item_spec (line : string) :
  keep_item (parseLine line) = negb (spec_dropped line).
Proof.
  unfold keep_item, parseLine, spec_dropped, third_field_empty, fifth_field_not_numeric.
  cbn [h3index val_trans].
  destruct (nth_error (split comma line) 2) as [[| c s] |] eqn:E3; cbn [truthy andb orb negb];
    try reflexivity.
  assert (E5 : nth_error (split comma line) 4 = None).
  { apply nth_error_None. apply nth_error_None in E3. lia. }
  rewrite E5, undefined_not_numeric. reflexivity.
Qed.

Lemma length_filter_map {A B : Type} (f : B -> bool) (g : A -> B) (l : list A) :
  List.length (filter f (map g l)) =
  (List.length l - List.length (filter (fun x => negb (f (g x))) l))%nat.
Proof.
  induction l as [| x l IH]; [reflexivity |]. cbn [map filter].
  pose proof (filter_length_le (fun x => negb (f (g x))) l) as L.
  destruct (f (g x)); cbn [negb List.length]; rewrite IH; lia.
Qed.

(** C2.  For every CSV text the number of rows the loader returns is the
    number of non-blank lines after the header, minus those whose third
    field is empty or whose fifth field parses to NaN. *)
Theorem loadCSVData_length (csvText : string) :
  List.length (fst (loadCSVData (Resolved {| text := Resolved csvText |}))) =
  (List.length (data_lines csvText)
   - List.length (filter spec_dropped (data_lines csvText)))%nat.
Proof.
  cbn [loadCSVData loadCSVData_try bind text fst]. unfold parseCSV, data_lines.
  rewrite length_filter_map. f_equal. f_equal.
  apply filter_ext. intros line. rewrite keep_item_spec. apply negb_involutive.
Qed.

(** C8.  When the fetch rejects, or when reading the body rejects, the
    loader returns the empty sequence and logs the error; whenever it logs
    an error its result is empty; it has no other way to fail: a body that
    was read is parsed and returned. *)
Theorem loadCSVData_failure (error : string) :
  loadCSVData (Rejected error) = ([], [error_entry error]) /\
  loadCSVData (Resolved {| text := Rejected error |}) = ([], [error_entry error]) /\
  (forall fetch, snd (loadCSVData fetch) <> [] -> fst (loadCSVData fetch) = []) /\
  (forall csvText, loadCSVData (Resolved {| text := Resolved csvText |}) = (parseCSV csvText, [])).
Proof.
  repeat split.
  intros [[[s | e]] | e]; cbn; congruence.
Qed.

Section RenderFacts.
Variable cellToLatLng : option string -> number * number.
Variable cellToBoundary : option string -> bool -> list (number * number).

(** C9.  Whenever the loader returns no row, the view rendered once the
    effect has run is the error screen: no map and no polygon layer. *)
Theorem empty_data_renders_error (engine : Engine) (fetch : Network) (st : AppState) :
  fst (loadCSVData fetch) = [] ->
  render cellToLatLng cellToBoundary (state (loadData engine fetch st)) = ErrorScreen.
Proof.
  intros H. unfold loadData. destruct (loadCSVData fetch) as [csvData log].
  cbn [fst] in H. subst csvData. reflexivity.
Qed.
End RenderFacts.

(** The rows the loader returns carry no NaN. *)
Lemma parseCSV_no_NaN (csvText : string) :
  Forall (fun d => Fnum (val_trans d) = true) (parseCSV csvText).
Proof.
  unfold parseCSV. apply Forall_forall. intros d Hd. apply filter_In in Hd.
  destruct Hd as [_ Hk]. unfold keep_item, isNaN in Hk. apply andb_prop in Hk.
  destruct Hk as [_ Hk]. rewrite is_nan_Fnum, negb_involutive in Hk. exact Hk.
Qed.

Lemma loadCSVData_no_NaN (fetch : Network) :
  Forall (fun d => Fnum (val_trans d) = true) (fst (loadCSVData fetch)).
Proof.
  destruct fetch as [[[s | e]] | e]; cbn; auto using parseCSV_no_NaN.
Qed.

(** The three ways the effect ends: without rows; with rows that fit one
    call; with more rows than one call takes. *)
Lemma loadData_no_rows (engine : Engine) (fetch : Network) (st : AppState) :
  fst (loadCSVData fetch) = [] ->
  loadData engine fetch st =
  {| state := setLoading false (setData [] (setLoading true st));
     logged := snd (loadCSVData fetch); settled := Resolved tt |}.
Proof.
  unfold loadData. destruct (loadCSVData fetch) as [rows log]. cbn [fst snd].
  intros ->. reflexivity.
Qed.

Lemma loadData_completes (engine : Engine) (fetch : Network) (st : AppState) :
  fst (loadCSVData fetch) <> [] ->
  (N.of_nat (List.length (fst (loadCSVData fetch))) <= max_arguments engine)%N ->
  loadData engine fetch st =
  {| state := setLoading false
                (setDataRange {| min := Math_min (map val_trans (fst (loadCSVData fetch)));
                                 max := Math_max (map val_trans (fst (loadCSVData fetch))) |}
                   (setData (fst (loadCSVData fetch)) (setLoading true st)));
     logged := snd (loadCSVData fetch); settled := Resolved tt |}.
Proof.
  unfold loadData, spread. destruct (loadCSVData fetch) as [rows log]. cbn [fst snd].
  intros Hne Hle. rewrite length_map. apply N.leb_le in Hle. rewrite Hle.
  destruct rows as [| d rest]; [contradiction | reflexivity].
Qed.

Lemma loadData_throws (engine : Engine) (fetch : Network) (st : AppState) :
  (max_arguments engine < N.of_nat (List.length (fst (loadCSVData fetch))))%N ->
  loadData engine fetch st =
  {| state := setData (fst (loadCSVData fetch)) (setLoading true st);
     logged := snd (loadCSVData fetch); settled := Rejected RangeError |}.
Proof.
  unfold loadData, spread. destruct (loadCSVData fetch) as [rows log]. cbn [fst snd].
  intros Hlt. rewrite length_map. apply N.leb_gt in Hlt. rewrite Hlt.
  destruct rows as [| d rest]; [| reflexivity].
  apply N.leb_gt in Hlt. cbn [List.length N.of_nat] in Hlt. lia.
Qed.

(** The rows are stored in every case. *)
Lemma loadData_data (engine : Engine) (fetch : Network) (st : AppState) :
  data (state (loadData engine fetch st)) = fst (loadCSVData fetch).
Proof.
  destruct (N.le_gt_cases (N.of_nat (List.length (fst (loadCSVData fetch))))
              (max_arguments engine)) as [L | L].
  - destruct (fst (loadCSVData fetch)) as [| d rest] eqn:E.
    + rewrite loadData_no_rows by exact E. reflexivity.
    + rewrite loadData_completes; rewrite E; [reflexivity | discriminate | exact L].
  - rewrite loadData_throws by exact L. reflexivity.
Qed.

(** Loading is over only when no call threw; the range is then the one
    computed from the rows, when there is a row. *)
Lemma loadData_state (engine : Engine) (fetch : Network) (st : AppState) :
  loading (state (loadData engine fetch st)) = false ->
  (N.of_nat (List.length (fst (loadCSVData fetch))) <= max_arguments engine)%N /\
  (fst (loadCSVData fetch) <> [] ->
   dataRange (state (loadData engine fetch st)) =
   {| min := Math_min (map val_trans (fst (loadCSVData fetch)));
      max := Math_max (map val_trans (fst (loadCSVData fetch))) |}).
Proof.
  intros Hl.
  destruct (N.le_gt_cases (N.of_nat (List.length (fst (loadCSVData fetch))))
              (max_arguments engine)) as [L | L].
  - split; [exact L |]. intros Hne. rewrite loadData_completes by assumption. reflexivity.
  - rewrite loadData_throws in Hl by exact L. discriminate Hl.
Qed.

Lemma range_spec (csvData : list Cell) :
  csvData <> [] -> Forall (fun d => Fnum (val_trans d) = true) csvData ->
  let values := map val_trans csvData in
  (forall v, In v values ->
     (Math_min values <=? v)%float = true /\ (v <=? Math_max values)%float = true) /\
  In (Math_min values) values /\ In (Math_max values) values.
Proof.
  intros Hne Hn values.
  assert (Hv : Forall (fun v => Fnum v = true) values).
  { unfold values. apply Forall_forall. intros v Hv. apply in_map_iff in Hv.
    destruct Hv as (d & <- & Hd). rewrite Forall_forall in Hn. auto. }
  assert (Hne' : values <> []).
  { unfold values. destruct csvData; [contradiction | discriminate]. }
  destruct (Math_min_spec values Hne' Hv) as (Nmin & Imin & Fmin).
  destruct (Math_max_spec values Hne' Hv) as (Nmax & Imax & Fmax).
  split; [| split; assumption].
  intros v Iv. rewrite Forall_forall in Fmin, Fmax, Hv.
  rewrite !leb_Fz, Nmin, Nmax, (Hv v Iv). cbn [andb].
  split; apply Z.leb_le; auto.
Qed.

(** Whenever the effect has completed with at least one row, the range it
    stored satisfies [min <= v <= max] for every value [v] of the rows, and
    [min] and [max] are themselves values of the rows. *)
Theorem dataRange_is_min_max (engine : Engine) (fetch : Network) (st : AppState) :
  let st' := state (loadData engine fetch st) in
  let values := map val_trans (data st') in
  loading st' = false ->
  data st' <> [] ->
  (forall v, In v values ->
     (min (dataRange st') <=? v)%float = true /\ (v <=? max (dataRange st'))%float = true) /\
  In (min (dataRange st')) values /\ In (max (dataRange st')) values.
Proof.
  intros st' values Hl Hne. subst st' values.
  destruct (loadData_state engine fetch st Hl) as (_ & Hr).
  rewrite loadData_data in *. rewrite (Hr Hne). cbn [min max].
  apply range_spec; [exact Hne | apply loadCSVData_no_NaN].
Qed.

Lemma split_nonempty (sep : ascii) (s : string) : split sep s <> [].
Proof.
  destruct s as [| c r]; cbn [split]; [discriminate |].
  destruct (Ascii.eqb c sep); [discriminate |].
  destruct (split sep r); discriminate.
Qed.

Lemma split_no_sep (sep : ascii) (s : string) :
  contains_char sep s = false -> split sep s = [s].
Proof.
  induction s as [| c r IH]; cbn [contains_char split]; [reflexivity |].
  intros H. apply orb_false_elim in H. destruct H as [Hc Hr].
  rewrite Hc, (IH Hr). reflexivity.
Qed.

Lemma split_app (sep : ascii) (s rest : string) :
  contains_char sep s = false ->
  split sep (s ++ String sep rest)%string = s :: split sep rest.
Proof.
  induction s as [| c r IH]; cbn [contains_char split append].
  - intros _. rewrite Ascii.eqb_refl. reflexivity.
  - intros H. apply orb_false_elim in H. destruct H as [Hc Hr].
    rewrite Hc, (IH Hr). reflexivity.
Qed.

Lemma filter_repeat {A : Type} (f : A -> bool) (x : A) (n : nat) :
  f x = true -> filter f (repeat x n) = repeat x n.
Proof.
  intros H. induction n as [| n IH]; [reflexivity |].
  cbn [repeat filter]. rewrite H, IH. reflexivity.
Qed.

Lemma split_many_rows (n : nat) :
  split newline ("Mumbai,Andheri,8960100000000,A1,5.0" ++ many_rows n)
  = repeat "Mumbai,Andheri,8960100000000,A1,5.0"%string (S n).
Proof.
  induction n as [| n IH]; [reflexivity |].
  cbn [many_rows].
  rewrite (split_app newline "Mumbai,Andheri,8960100000000,A1,5.0") by reflexivity.
  rewrite IH. reflexivity.
Qed.

(** A response of a header line and [n] rows gives [n] rows, all equal. *)
Lemma parseCSV_large_csv (n : N) : parseCSV (large_csv n) = repeat andheri (N.to_nat n).
Proof.
  unfold large_csv. generalize (N.to_nat n) as k. intros [| k]; [reflexivity |].
  unfold parseCSV. cbn [many_rows].
  rewrite (split_app newline "city,loc,id,code,val") by reflexivity.
  rewrite split_many_rows. cbn [tl].
  rewrite filter_repeat by reflexivity. rewrite map_repeat.
  rewrite filter_repeat by (vm_compute; reflexivity).
  f_equal; vm_compute; reflexivity.
Qed.

(** C3.  The range is not computed for every non-empty sequence: the rows
    are passed to [Math.min] and [Math.max] as the arguments of one call, and
    when there are more rows than the engine takes in one call, the call
    throws; the rows are stored, the range keeps its initial value (0, 0),
    which is not the minimum of the values, and loading is never cleared. *)
Theorem dataRange_not_computed_above_limit (engine : Engine) (n : N) :
  (max_arguments engine < n)%N ->
  let run := loadData engine (serves (large_csv n)) initialState in
  N.of_nat (List.length (data (state run))) = n /\
  Forall (fun d => val_trans d = 5%float) (data (state run)) /\
  dataRange (state run) = {| min := 0%float; max := 0%float |} /\
  loading (state run) = true /\
  settled run = Rejected RangeError.
Proof.
  intros Hlt run. subst run.
  assert (E : fst (loadCSVData (serves (large_csv n))) = repeat andheri (N.to_nat n)).
  { cbn [serves loadCSVData loadCSVData_try bind text fst]. apply parseCSV_large_csv. }
  rewrite loadData_throws by (rewrite E, repeat_length, N2Nat.id; exact Hlt).
  cbn [state settled setData setLoading data dataRange loading initialState].
  rewrite E, repeat_length, N2Nat.id.
  split; [reflexivity |]. split; [| split; [| split]; reflexivity].
  apply Forall_forall. intros d Hd. apply repeat_spec in Hd. subst d. reflexivity.
Qed.

Lemma getKeplerColor_NaN : getKeplerColor nan = (nan, nan, nan, 200%float).
Proof. vm_compute. reflexivity. Qed.

(** C5.  When the effect has completed, the only state in which a colour is
    computed, and the stored range has [min] equal to [max], the divisor
    [max - min] of the normalisation is zero (or NaN, for an infinite
    value), nothing guards the division, the normalised value of every row
    is NaN, and the row's fill colour is [NaN, NaN, NaN, 200]. *)
Theorem equal_range_gives_NaN (engine : Engine) (fetch : Network) (st : AppState) (d : Cell) :
  let st' := state (loadData engine fetch st) in
  let range := dataRange st' in
  loading st' = false ->
  In d (data st') ->
  (min range =? max range)%float = true ->
  (is_zero (max range - min range)%float = true \/ isNaN (max range - min range)%float = true) /\
  ((val_trans d - min range) / (max range - min range))%float = nan /\
  getFillColor range d = (nan, nan, nan, 200%float).
Proof.
  intros st' range Hl Hd Heq. subst st' range.
  destruct (loadData_state engine fetch st Hl) as (_ & Hr).
  rewrite loadData_data in Hd.
  assert (Hne : fst (loadCSVData fetch) <> []) by (intros E; rewrite E in Hd; exact Hd).
  rewrite (Hr Hne) in *. cbn [min max] in *.
  set (values := map val_trans (fst (loadCSVData fetch))) in *.
  destruct (range_spec _ Hne (loadCSVData_no_NaN fetch)) as (Hb & _ & _). fold values in Hb.
  destruct (Hb (val_trans d) (in_map val_trans _ _ Hd)) as [B1 B2].
  apply leb_true_Fz in B1, B2. destruct B1 as (Nmin & Nv & L1), B2 as (_ & Nmax & L2).
  rewrite eqb_Fz, Nmin, Nmax in Heq. cbn [andb] in Heq. apply Z.eqb_eq in Heq.
  pose proof (sub_same (val_trans d) (Math_min values) Nv Nmin ltac:(lia)) as S1.
  pose proof (sub_same (Math_max values) (Math_min values) Nmax Nmin ltac:(lia)) as S2.
  assert (EN : ((val_trans d - Math_min values) / (Math_max values - Math_min values))%float = nan)
    by (apply div_degenerate; assumption).
  split; [| split; [exact EN |]].
  - destruct S2 as [[s E] | E].
    + left. unfold is_zero. rewrite FloatAxioms.eqb_spec, E. reflexivity.
    + right. unfold isNaN. rewrite is_nan_Fnum. unfold Fnum. rewrite E. reflexivity.
  - unfold getFillColor. cbn [val_trans min max]. rewrite EN. apply getKeplerColor_NaN.
Qed.


Lemma below_zero_first_segment (n : number) :
  (n <? 0)%float = true -> (n <=? 0.25)%float = true.
Proof.
  rewrite ltb_Fz, leb_Fz. intros H. apply andb_prop in H. destruct H as [H L].
  apply andb_prop in H. destruct H as [-> _]. apply Z.ltb_lt in L. cbn [andb].
  change (Fnum 0.25) with true. cbn [andb]. apply Z.leb_le.
  pose proof Fz_025. pose proof U_pos. rewrite Fz_eq_0 in L. lia.
Qed.

Lemma above_one_last_segment (n : number) :
  (1 <? n)%float = true ->
  (n <=? 0.25)%float = false /\ (n <=? 0.5)%float = false /\ (n <=? 0.75)%float = false.
Proof.
  rewrite ltb_Fz, !leb_Fz. intros H. apply andb_prop in H. destruct H as [H L].
  apply andb_prop in H. destruct H as [_ ->]. apply Z.ltb_lt in L. cbn [andb].
  change (Fnum 0.25) with true. change (Fnum 0.5) with true. change (Fnum 0.75) with true.
  cbn [andb]. pose proof Fz_025. pose proof Fz_05. pose proof Fz_075. pose proof U_pos.
  rewrite Fz_1 in L. repeat split; apply Z.leb_gt; lia.
Qed.

(** C7.  The colour mapper does not clamp: an input below 0 goes through
    the first segment's formula and an input above 1 through the last
    segment's, so that [getKeplerColor(-1)] is [104,-323,-136,200] and
    [getKeplerColor(2)] is [889,351,-207,200], neither of them an endpoint
    colour. *)
Theorem getKeplerColor_not_clamped :
  (forall n : number, (n <? 0)%float = true ->
     getKeplerColor n =
     (Math_round (68 + (59 - 68) * (n / 0.25)), Math_round (1 + (82 - 1) * (n / 0.25)),
      Math_round (84 + (139 - 84) * (n / 0.25)), 200)%float) /\
  (forall n : number, (1 <? n)%float = true ->
     getKeplerColor n =
     (Math_round (94 + (253 - 94) * ((n - 0.75) / 0.25)),
      Math_round (201 + (231 - 201) * ((n - 0.75) / 0.25)),
      Math_round (98 + (37 - 98) * ((n - 0.75) / 0.25)), 200)%float) /\
  getKeplerColor (-1)%float = (104, -323, -136, 200)%float /\
  getKeplerColor 2%float = (889, 351, -207, 200)%float.
Proof.
  split; [| split; [| split; vm_compute; reflexivity]].
  - intros n H. unfold getKeplerColor. rewrite (below_zero_first_segment n H). reflexivity.
  - intros n H. unfold getKeplerColor.
    destruct (above_one_last_segment n H) as (-> & -> & ->). reflexivity.
Qed.

Lemma empty_data_renders_error_witness :
  fst (loadCSVData (serves header_only_csv)) = [] /\
  render (fun _ => (0, 0)%float) (fun _ _ => [])
         (state (loadData engine65536 (serves header_only_csv) initialState)) = ErrorScreen.
Proof.
  split; [vm_compute; reflexivity |].
  apply (empty_data_renders_error (fun _ => (0, 0)%float) (fun _ _ => [])
           engine65536 (serves header_only_csv) initialState).
  vm_compute. reflexivity.
Defined.

Lemma dataRange_is_min_max_witness :
  loading (state (loadData engine65536 (serves two_rows_csv) initialState)) = false /\
  data (state (loadData engine65536 (serves two_rows_csv) initialState)) <> [] /\
  In (min (dataRange (state (loadData engine65536 (serves two_rows_csv) initialState))))
     (map val_trans (data (state (loadData engine65536 (serves two_rows_csv) initialState)))).
Proof.
  split; [vm_compute; reflexivity |]. split; [vm_compute; discriminate |].
  exact (proj1 (proj2 (dataRange_is_min_max engine65536 (serves two_rows_csv) initialState
                         ltac:(vm_compute; reflexivity) ltac:(vm_compute; discriminate)))).
Defined.

Lemma dataRange_not_computed_above_limit_witness :
  (max_arguments engine65536 < 150000)%N /\
  dataRange (state (loadData engine65536 (serves (large_csv 150000)) initialState))
  = {| min := 0%float; max := 0%float |} /\
  loading (state (loadData engine65536 (serves (large_csv 150000)) initialState)) = true.
Proof.
  split; [reflexivity |].
  pose proof (dataRange_not_computed_above_limit engine65536 150000 eq_refl) as H.
  exact (conj (proj1 (proj2 (proj2 H))) (proj1 (proj2 (proj2 (proj2 H))))).
Defined.

Lemma equal_range_gives_NaN_witness :
  loading (state (loadData engine65536 (serves equal_values_csv) initialState)) = false /\
  In andheri (data (state (loadData engine65536 (serves equal_values_csv) initialState))) /\
  (min (dataRange (state (loadData engine65536 (serves equal_values_csv) initialState)))
   =? max (dataRange (state (loadData engine65536 (serves equal_values_csv) initialState))))%float = true /\
  getFillColor (dataRange (state (loadData engine65536 (serves equal_values_csv) initialState))) andheri
  = (nan, nan, nan, 200%float).
Proof.
  split; [vm_compute; reflexivity |].
  split; [vm_compute; left; reflexivity |]. split; [vm_compute; reflexivity |].
  exact (proj2 (proj2 (equal_range_gives_NaN engine65536 (serves equal_values_csv) initialState
                         andheri ltac:(vm_compute; reflexivity)
                         ltac:(vm_compute; left; reflexivity)
                         ltac:(vm_compute; reflexivity)))).
Defined.

Lemma getKeplerColor_not_clamped_witness :
  (-1 <? 0)%float = true /\
  getKeplerColor (-1)%float =
  (Math_round (68 + (59 - 68) * (-1 / 0.25)), Math_round (1 + (82 - 1) * (-1 / 0.25)),
   Math_round (84 + (139 - 84) * (-1 / 0.25)), 200)%float.
Proof.
  split; [reflexivity |].
  exact (proj1 getKeplerColor_not_clamped (-1)%float eq_refl).
Defined.

Lemma getKeplerColor_valid_in_range_witness :
  (0 <=? 0.5)%float = true /\ (0.5 <=? 1)%float = true /\
  valid_channel (fst (fst (fst (getKeplerColor 0.5%float)))) = true.
Proof.
  split; [reflexivity |]. split; [reflexivity |].
  pose proof (getKeplerColor_valid_in_range 0.5%float eq_refl eq_refl) as H.
  destruct (getKeplerColor 0.5%float) as [[[r g] b] a]. exact (proj1 H).
Defined.

Lemma getKeplerColor_near_boundaries_witness :
  (0.24951171875 <=? 0.25)%float = true /\ (0.25 <=? 0.25048828125)%float = true /\
  getKeplerColor 0.25%float = (59, 82, 139, 200)%float.
Proof.
  split; [reflexivity |]. split; [reflexivity |].
  exact (proj1 (getKeplerColor_near_boundaries 0.25%float) eq_refl eq_refl).
Defined.

(** * Further properties of the code *)

(** ** Splitting lines and fields *)

(** Joining fields that do not contain the separator and splitting the
    result gives the fields back. *)
Theorem split_join (sep : ascii) (fields : list string) :
  fields <> [] ->
  Forall (fun f => contains_char sep f = false) fields ->
  split sep (join sep fields) = fields.
Proof.
  induction fields as [| f rest IH]; [contradiction |].
  intros _ Hf. inversion Hf as [| ? ? Hf1 Hrest]; subst.
  destruct rest as [| g rest'].
  - cbn [join]. apply split_no_sep. exact Hf1.
  - change (join sep (f :: g :: rest')) with (f ++ String sep (join sep (g :: rest')))%string.
    rewrite (split_app sep f _ Hf1). f_equal. apply IH; [discriminate | exact Hrest].
Qed.

Lemma split_join_witness :
  [ "a"; "b" ]%string <> [] /\
  Forall (fun f => contains_char comma f = false) [ "a"; "b" ]%string /\
  split comma (join comma [ "a"; "b" ]%string) = [ "a"; "b" ]%string.
Proof.
  split; [discriminate |]. split; [repeat constructor |].
  apply (split_join comma [ "a"; "b" ]%string); [discriminate | repeat constructor].
Defined.

(** A line made of at least five comma-free fields is read positionally:
    the first four fields as they are, the fifth through [parseFloat], the
    others ignored. *)
Theorem parseLine_fields (f1 f2 f3 f4 f5 : string) (more : list string) :
  Forall (fun f => contains_char comma f = false) (f1 :: f2 :: f3 :: f4 :: f5 :: more) ->
  parseLine (join comma (f1 :: f2 :: f3 :: f4 :: f5 :: more)) =
  {| city := Some f1; locality := Some f2; h3index := Some f3; poiCode := Some f4;
     val_trans := parseFloat (Some f5) |}.
Proof.
  intros H. unfold parseLine. rewrite split_join; [reflexivity | discriminate | exact H].
Qed.

Lemma parseLine_fields_witness :
  Forall (fun f => contains_char comma f = false)
         [ "Mumbai"; "Andheri"; "8960100000000"; "A1"; "5.0" ]%string /\
  parseLine (join comma [ "Mumbai"; "Andheri"; "8960100000000"; "A1"; "5.0" ]%string) =
  {| city := Some "Mumbai"%string; locality := Some "Andheri"%string;
     h3index := Some "8960100000000"%string; poiCode := Some "A1"%string;
     val_trans := parseFloat (Some "5.0"%string) |}.
Proof.
  split; [repeat constructor |].
  apply (parseLine_fields "Mumbai" "Andheri" "8960100000000" "A1" "5.0" []).
  repeat constructor.
Defined.

(** ** The loader *)

(** Every row the loader returns has a non-empty cell identifier and a
    value that is not NaN, whatever the fetch does. *)
Theorem loadCSVData_rows_kept (fetch : Network) :
  Forall (fun d => truthy (h3index d) = true /\ isNaN (val_trans d) = false)
         (fst (loadCSVData fetch)).
Proof.
  assert (P : forall csvText,
             Forall (fun d => truthy (h3index d) = true /\ isNaN (val_trans d) = false)
                    (parseCSV csvText)).
  { intros csvText. unfold parseCSV. apply Forall_forall. intros d Hd.
    apply filter_In in Hd. destruct Hd as [_ Hk]. unfold keep_item in Hk.
    apply andb_prop in Hk. destruct Hk as [H1 H2]. split; [exact H1 |].
    apply negb_true_iff. exact H2. }
  destruct fetch as [[[s | e]] | e]; cbn; auto.
Qed.

(** The rows are the data lines that are not dropped, read one by one, in
    the order of the file. *)
Theorem parseCSV_rows (csvText : string) :
  parseCSV csvText =
  map parseLine (filter (fun line => negb (spec_dropped line)) (data_lines csvText)).
Proof.
  unfold parseCSV, data_lines.
  induction (filter not_blank (tl (split newline csvText))) as [| line rest IH];
    [reflexivity |].
  cbn [map filter]. rewrite keep_item_spec.
  destruct (negb (spec_dropped line)); cbn [map]; rewrite IH; reflexivity.
Qed.

(** The header line is discarded whatever it holds. *)
Theorem parseCSV_ignores_header (header1 header2 body : string) :
  contains_char newline header1 = false ->
  contains_char newline header2 = false ->
  parseCSV (header1 ++ String newline body)%string =
  parseCSV (header2 ++ String newline body)%string.
Proof.
  intros H1 H2. unfold parseCSV. rewrite !split_app by assumption. reflexivity.
Qed.

Lemma parseCSV_ignores_header_witness :
  contains_char newline "a,b,c,d,e" = false /\
  contains_char newline "1,2,3,4,5" = false /\
  parseCSV ("a,b,c,d,e" ++ String newline "x,y,z,w,1")%string =
  parseCSV ("1,2,3,4,5" ++ String newline "x,y,z,w,1")%string.
Proof.
  split; [reflexivity |]. split; [reflexivity |].
  apply (parseCSV_ignores_header "a,b,c,d,e" "1,2,3,4,5" "x,y,z,w,1"); reflexivity.
Defined.

(** A text of one line, be it a header or a data row, gives no row. *)
Theorem parseCSV_single_line (line : string) :
  contains_char newline line = false -> parseCSV line = [].
Proof.
  intros H. unfold parseCSV. rewrite (split_no_sep newline line H). reflexivity.
Qed.

Lemma parseCSV_single_line_witness :
  contains_char newline "Mumbai,Andheri,8960100000000,A1,5.0" = false /\
  parseCSV "Mumbai,Andheri,8960100000000,A1,5.0" = [].
Proof.
  split; [reflexivity |].
  apply (parseCSV_single_line "Mumbai,Andheri,8960100000000,A1,5.0"). reflexivity.
Defined.

Lemma split_snoc (sep : ascii) (s : string) :
  split sep (s ++ String sep EmptyString)%string = split sep s ++ [EmptyString].
Proof.
  induction s as [| c r IH]; cbn [split append].
  - rewrite Ascii.eqb_refl. reflexivity.
  - destruct (Ascii.eqb c sep); [rewrite IH; reflexivity |].
    rewrite IH. pose proof (split_nonempty sep r) as N.
    destruct (split sep r) as [| h t]; [contradiction | reflexivity].
Qed.

(** A newline at the end of the text changes nothing. *)
Theorem parseCSV_trailing_newline (csvText : string) :
  parseCSV (csvText ++ String newline EmptyString)%string = parseCSV csvText.
Proof.
  unfold parseCSV. rewrite split_snoc.
  pose proof (split_nonempty newline csvText) as N.
  destruct (split newline csvText) as [| h t]; [contradiction |].
  cbn [tl app]. rewrite filter_app. cbn [filter].
  replace (not_blank EmptyString) with false by reflexivity.
  rewrite app_nil_r. reflexivity.
Qed.

(** ** The effect and the screens *)

(** What one run of the effect leaves, whatever the fetch does and whatever
    the state was.  The rows of the loader are stored and its log is the log.
    Without rows the range keeps its previous value and loading is over.
    With rows that fit one call the range is their minimum and maximum, two
    numbers with [min <= max], and loading is over.  With more rows than the
    engine takes in one call, [Math.min(...values)] throws: the range keeps
    its previous value, loading stays true and the promise is rejected. *)
Theorem loadData_postcondition (engine : Engine) (fetch : Network) (st : AppState) :
  let rows := fst (loadCSVData fetch) in
  let run := loadData engine fetch st in
  let st' := state run in
  data st' = rows /\
  logged run = snd (loadCSVData fetch) /\
  (rows = [] ->
     loading st' = false /\ dataRange st' = dataRange st /\ settled run = Resolved tt) /\
  (rows <> [] -> (N.of_nat (List.length rows) <= max_arguments engine)%N ->
     loading st' = false /\ settled run = Resolved tt /\
     dataRange st' = {| min := Math_min (map val_trans rows);
                        max := Math_max (map val_trans rows) |} /\
     isNaN (min (dataRange st')) = false /\ isNaN (max (dataRange st')) = false /\
     (min (dataRange st') <=? max (dataRange st'))%float = true) /\
  ((max_arguments engine < N.of_nat (List.length rows))%N ->
     loading st' = true /\ dataRange st' = dataRange st /\
     settled run = Rejected RangeError).
Proof.
  intros rows run st'. subst rows run st'.
  split; [apply loadData_data |]. split; [| split; [| split]].
  - unfold loadData, spread. destruct (loadCSVData fetch) as [rows log]. cbn [snd].
    destruct (0 <? List.length rows)%nat; [| reflexivity].
    destruct (N.of_nat (List.length (map val_trans rows)) <=? max_arguments engine)%N;
      reflexivity.
  - intros E. rewrite (loadData_no_rows engine fetch st E). repeat split.
  - intros Hne Hle. rewrite (loadData_completes engine fetch st Hne Hle).
    cbn [state settled loading dataRange setLoading setDataRange min max].
    split; [reflexivity |]. split; [reflexivity |]. split; [reflexivity |].
    destruct (range_spec _ Hne (loadCSVData_no_NaN fetch)) as (Hb & Imin & _).
    cbv zeta in Hb, Imin.
    destruct (Hb _ Imin) as [_ B]. pose proof (leb_true_Fz _ _ B) as (N1 & N2 & _).
    unfold isNaN. rewrite !is_nan_Fnum, N1, N2. repeat split. exact B.
  - intros Hlt. rewrite (loadData_throws engine fetch st Hlt). repeat split.
Qed.

Section ScreenFacts.
Variable cellToLatLng : option string -> number * number.
Variable cellToBoundary : option string -> bool -> list (number * number).

End ScreenFacts.

(** ** The fill colour at the two ends of the range *)

Lemma is_finite_Ffin (x : float) : is_finite x = Ffin x.
Proof.
  unfold is_finite, is_infinity. rewrite is_nan_Fnum, eqb_Fz.
  change (Fnum infinity) with true. change (Fz infinity) with INF.
  unfold Fnum at 2. unfold Fz. rewrite abs_spec. unfold Fnum, Ffin.
  pose proof (Prim2SF_valid x) as Vx.
  assert (PI : 0 < INF) by (apply pow2_pos; unfold K; lia).
  destruct (Prim2SF x) as [s | s | | s m e]; cbn [SFabs SFnum SFfin SFz cond_Zopp negb andb orb].
  - replace (0 =? INF) with false by (symmetry; apply Z.eqb_neq; lia). reflexivity.
  - rewrite Z.eqb_refl. reflexivity.
  - reflexivity.
  - pose proof (V_lt_INF m e Vx).
    replace (V m e =? INF) with false by (symmetry; apply Z.eqb_neq; lia). reflexivity.
Qed.

Lemma sub_finite_operands (x y : float) :
  Fnum x = true -> Fnum y = true -> Ffin (x - y)%float = true ->
  Ffin x = true /\ Ffin y = true.
Proof.
  unfold Fnum, Ffin. rewrite sub_spec. unfold SF64sub.
  destruct (Prim2SF x) as [sx | sx | | sx mx ex], (Prim2SF y) as [sy | sy | | sy my ey];
    cbn [SFsub SFnum SFfin]; intros; try discriminate; try (split; reflexivity);
    destruct sx, sy; discriminate.
Qed.

Lemma sub_same_finite (x y : float) :
  Ffin x = true -> Ffin y = true -> Fz x = Fz y ->
  exists s, Prim2SF (x - y) = S754_zero s.
Proof.
  intros Fx Fy E.
  destruct (Rounds_between _ _ _ 0%float 0%float (sub_Rounds x y Fx Fy) eq_refl eq_refl) as [N B].
  - rewrite Fz_eq_0. lia.
  - rewrite Fz_eq_0 in B. apply Fz_zero_inv; [exact N | unfold Fz; lia].
Qed.

Lemma Ffin_nonzero_inv (x : float) :
  Ffin x = true -> Fz x <> 0 -> exists s m e, Prim2SF x = S754_finite s m e.
Proof.
  unfold Ffin, Fz. destruct (Prim2SF x) as [s | s | | s m e]; cbn [SFfin SFz]; intros F N;
    try discriminate; [contradiction | eauto].
Qed.

Lemma sub_congr (v w y : float) :
  Ffin v = true -> Ffin w = true -> Ffin y = true ->
  Fz v = Fz w -> Fz y <> Fz v -> (v - y)%float = (w - y)%float.
Proof.
  intros Fv Fw Fy E NE.
  destruct (Z.eq_dec (Fz v) 0) as [Z0 | NZ].
  - apply Prim2SF_inj. rewrite !sub_spec.
    destruct (Fz_zero_inv v (Ffin_Fnum _ Fv) Z0) as [sv ->].
    destruct (Fz_zero_inv w (Ffin_Fnum _ Fw) ltac:(lia)) as [sw ->].
    destruct (Ffin_nonzero_inv y Fy ltac:(lia)) as (sy & my & ey & ->).
    reflexivity.
  - rewrite (Fz_inj v w Fv Fw E NZ). reflexivity.
Qed.

(** A finite number other than zero divided by itself is 1. *)
Lemma div_self (x : float) : Ffin x = true -> Fz x <> 0 -> (x / x)%float = 1%float.
Proof.
  intros Fx NZ. destruct (Ffin_nonzero_inv x Fx NZ) as (s & m & e & E).
  apply (Prim_of_SF _ (S754_finite false (2 ^ 52) (-52))).
  rewrite div_spec, E. unfold SF64div. cbn [SFdiv].
  assert (C : SFdiv_core_binary prec emax (Zpos m) e (Zpos m) e = (2 ^ 53, -53, loc_Exact)).
  { unfold SFdiv_core_binary. cbn [Zdigits2].
    replace (Zpos (digits2_pos m) + e - (Zpos (digits2_pos m) + e)) with 0 by lia.
    replace (e - e) with 0 by lia.
    replace (Z.min (fexp prec emax 0) 0) with (-53) by reflexivity.
    replace (0 - -53) with 53 by reflexivity.
    rewrite Z.shiftl_mul_pow2 by lia. rewrite (Z.mul_comm (Zpos m)).
    rewrite div_eucl_mul by lia.
    unfold new_location, new_location_even, new_location_odd.
    destruct (Z.even (Zpos m)); reflexivity. }
  rewrite C, xorb_nilpotent. vm_compute. reflexivity.
Qed.

Lemma Fz_unit (x : float) : exists k, Fz x = k * 2 ^ (K - 1074).
Proof.
  unfold Fz. pose proof (Prim2SF_valid x) as Vx. pose proof (eq_refl : K = 2148) as HKv.
  destruct (Prim2SF x) as [s | s | | s m e]; cbn [SFz].
  - exists 0. lia.
  - exists (cond_Zopp s (2 ^ 2098)). unfold INF.
    replace (1024 + K) with (2098 + (K - 1074)) by lia. rewrite pow2_split by lia.
    destruct s; cbn [cond_Zopp]; lia.
  - exists 0. lia.
  - cbn [valid_binary] in Vx. apply andb_prop in Vx. destruct Vx as [Cx _].
    destruct (canonical_facts _ _ Cx) as (A1 & _ & _).
    exists (cond_Zopp s (Zpos m * 2 ^ (e + 1074))). unfold V.
    replace (e + K) with (e + 1074 + (K - 1074)) by lia. rewrite pow2_split by lia.
    destruct s; cbn [cond_Zopp]; lia.
Qed.

(** The difference of two distinct finite numbers does not round to zero. *)
Lemma sub_positive (x y : float) :
  Ffin x = true -> Ffin y = true -> Fz y < Fz x -> 0 < Fz (x - y)%float.
Proof.
  intros Fx Fy L. destruct (sub_Rounds x y Fx Fy) as (_ & _ & _ & Hl).
  destruct (Fz_unit x) as [kx Ex]. destruct (Fz_unit y) as [ky Ey].
  pose proof (eq_refl : K = 2148) as HKv.
  assert (Pu : 0 < 2 ^ (K - 1074)) by (apply pow2_pos; lia).
  assert (Eb : Fz 0x1p-1074 = 2 ^ (K - 1074)) by (vm_compute; reflexivity).
  specialize (Hl (Prim2SF 0x1p-1074) (Prim2SF_valid _) eq_refl).
  fold (Fz 0x1p-1074) in Hl. fold (Fz (x - y)%float) in Hl. rewrite Eb in Hl.
  clear HKv Eb. remember (2 ^ (K - 1074)) as u eqn:Du. clear Du.
  rewrite Ex, Ey in *.
  assert (ky < kx).
  { destruct (Z.lt_ge_cases ky kx) as [A | A]; [exact A | exfalso].
    assert (kx * u <= ky * u) by (apply Z.mul_le_mono_nonneg_r; lia). lia. }
  assert (u <= Fz (x - y)%float).
  { apply Hl. replace (kx * u - ky * u) with ((kx - ky) * u) by ring.
    rewrite Z.mul_1_r. rewrite <- (Z.mul_1_l u) at 1.
    apply Z.mul_le_mono_nonneg_r; lia. }
  lia.
Qed.

Lemma getKeplerColor_zeros :
  getKeplerColor 0%float = (68, 1, 84, 200)%float /\
  getKeplerColor (-0)%float = (68, 1, 84, 200)%float.
Proof. split; vm_compute; reflexivity. Qed.

(** When the range is not degenerate ([min < max], with a finite
    difference), a row whose value is the minimum is drawn with the first
    colour of the palette and a row whose value is the maximum with the
    last. *)
Theorem getFillColor_range_ends (engine : Engine) (fetch : Network) (st : AppState) (d : Cell) :
  let st' := state (loadData engine fetch st) in
  let range := dataRange st' in
  In d (data st') ->
  (min range <? max range)%float = true ->
  is_finite (max range - min range)%float = true ->
  ((val_trans d =? min range)%float = true ->
   getFillColor range d = (68, 1, 84, 200)%float) /\
  ((val_trans d =? max range)%float = true ->
   getFillColor range d = (253, 231, 37, 200)%float).
Proof.
  intros st' range Hd Hlt Hfin. subst range st'.
  set (range := dataRange (state (loadData engine fetch st))) in *.
  rewrite is_finite_Ffin in Hfin.
  rewrite ltb_Fz in Hlt. apply andb_prop in Hlt. destruct Hlt as [Hn Hlt].
  apply andb_prop in Hn. destruct Hn as [Nmin Nmax]. apply Z.ltb_lt in Hlt.
  destruct (sub_finite_operands _ _ Nmax Nmin Hfin) as [Fmax Fmin].
  pose proof (sub_positive _ _ Fmax Fmin Hlt) as Hpos.
  destruct (Ffin_nonzero_inv _ Hfin ltac:(lia)) as (sb & mb & eb & Eb).
  unfold getFillColor. split; intros Hv; rewrite eqb_Fz in Hv;
    apply andb_prop in Hv; destruct Hv as [Hv Ev]; apply andb_prop in Hv;
    destruct Hv as [Nv _]; apply Z.eqb_eq in Ev.
  - assert (Fv : Ffin (val_trans d) = true).
    { apply Ffin_bounds. apply Ffin_bounds in Fmin. split; [exact Nv | lia]. }
    destruct (sub_same_finite _ _ Fv Fmin Ev) as [s0 E0].
    assert (EN : ((val_trans d - min range) / (max range - min range))%float
                 = SF2Prim (S754_zero (xorb s0 sb))).
    { apply Prim_of_SF. rewrite div_spec, E0, Eb. reflexivity. }
    rewrite EN. destruct (xorb s0 sb); apply getKeplerColor_zeros.
  - assert (Fv : Ffin (val_trans d) = true).
    { apply Ffin_bounds. apply Ffin_bounds in Fmax. split; [exact Nv | lia]. }
    rewrite (sub_congr (val_trans d) (max range) (min range) Fv Fmax Fmin Ev ltac:(lia)).
    rewrite (div_self _ Hfin ltac:(lia)). vm_compute. reflexivity.
Qed.

Lemma getFillColor_range_ends_witness :
  In andheri (data (state (loadData engine65536 (serves two_rows_csv) initialState))) /\
  (min (dataRange (state (loadData engine65536 (serves two_rows_csv) initialState)))
   <? max (dataRange (state (loadData engine65536 (serves two_rows_csv) initialState))))%float = true /\
  is_finite (max (dataRange (state (loadData engine65536 (serves two_rows_csv) initialState)))
             - min (dataRange (state (loadData engine65536 (serves two_rows_csv) initialState))))%float = true /\
  (val_trans andheri =? min (dataRange (state (loadData engine65536 (serves two_rows_csv) initialState))))%float = true /\
  getFillColor (dataRange (state (loadData engine65536 (serves two_rows_csv) initialState))) andheri
  = (68, 1, 84, 200)%float.
Proof.
  split; [vm_compute; left; reflexivity |]. split; [vm_compute; reflexivity |].
  split; [vm_compute; reflexivity |]. split; [vm_compute; reflexivity |].
  apply (proj1 (getFillColor_range_ends engine65536 (serves two_rows_csv) initialState andheri
                  ltac:(vm_compute; left; reflexivity) ltac:(vm_compute; reflexivity)
                  ltac:(vm_compute; reflexivity))).
  vm_compute. reflexivity.
Defined.

(** ** Each segment stays between its endpoint colours *)

Lemma between_of_n (x lo hi : float) (n klo khi : Z) :
  Ffin x = true -> Fz x = n * U ->
  Fnum lo = true -> Fnum hi = true -> Fz lo = klo * U -> Fz hi = khi * U ->
  klo <= n <= khi -> between lo x hi = true.
Proof.
  intros Fx E Nlo Nhi Elo Ehi H. pose proof U_pos. unfold between.
  rewrite !leb_Fz, (Ffin_Fnum x Fx), Nlo, Nhi, E, Elo, Ehi. cbn [andb].
  apply andb_true_intro. split; apply Z.leb_le; nia.
Qed.

Ltac channel_between b ka kc klo khi Ft Ht :=
  match goal with
  | |- between ?lo (Math_round (?a + ?c * ?t)%float) ?hi = true =>
      let n := fresh "n" in
      let Fr := fresh "Fr" in
      let Er := fresh "Er" in
      let Hn := fresh "Hn" in
      destruct (interp_bounds a c b t ka kc eq_refl eq_refl eq_refl) as (n & Fr & Er & Hn);
      [ vm_compute; reflexivity | vm_compute; reflexivity | vm_compute; reflexivity
      | lia | lia | exact Ft | exact Ht
      | apply (between_of_n _ lo hi n klo khi Fr Er eq_refl eq_refl);
        [ vm_compute; reflexivity | vm_compute; reflexivity | lia ] ]
  end.

Lemma ltb_true_Fz (x y : float) :
  (x <? y)%float = true -> Fnum x = true /\ Fnum y = true /\ Fz x < Fz y.
Proof.
  rewrite ltb_Fz. intros H. apply andb_prop in H. destruct H as [H H3].
  apply andb_prop in H. destruct H as [H1 H2]. apply Z.ltb_lt in H3. auto.
Qed.

Lemma leb_false_of_lt (x y : float) :
  Fnum x = true -> Fnum y = true -> Fz y < Fz x -> (x <=? y)%float = false.
Proof.
  intros Nx Ny L. rewrite leb_Fz, Nx, Ny. cbn [andb]. apply Z.leb_gt. exact L.
Qed.

(** On each of the four segments every channel lies between the values it
    has at the two ends of the segment. *)
Theorem getKeplerColor_segment_bounds (n : number) :
  ((0 <=? n)%float = true -> (n <=? 0.25)%float = true ->
   let '(r, g, b, _) := getKeplerColor n in
   between 59 r 68 = true /\ between 1 g 82 = true /\ between 84 b 139 = true) /\
  ((0.25 <? n)%float = true -> (n <=? 0.5)%float = true ->
   let '(r, g, b, _) := getKeplerColor n in
   between 33 r 59 = true /\ between 82 g 144 = true /\ between 139 b 140 = true) /\
  ((0.5 <? n)%float = true -> (n <=? 0.75)%float = true ->
   let '(r, g, b, _) := getKeplerColor n in
   between 33 r 94 = true /\ between 144 g 201 = true /\ between 98 b 140 = true) /\
  ((0.75 <? n)%float = true -> (n <=? 1)%float = true ->
   let '(r, g, b, _) := getKeplerColor n in
   between 94 r 253 = true /\ between 201 g 231 = true /\ between 37 b 98 = true).
Proof.
  pose proof U_pos as PU. pose proof Fz_025 as Q1. pose proof Fz_05 as Q2. pose proof Fz_075 as Q3.
  split; [| split; [| split]]; intros H0 H1.
  - apply leb_true_Fz in H0, H1. destruct H0 as (_ & Nn & L0), H1 as (_ & _ & L1).
    rewrite Fz_eq_0 in L0. unfold getKeplerColor.
    assert (C1 : (n <=? 0.25)%float = true) by (rewrite leb_Fz, Nn; apply Z.leb_le; lia).
    rewrite C1. destruct (t_first n Nn L0 ltac:(lia)) as [Ft Ht].
    split; [| split]; [channel_between 59%float 68 (-9) 59 68 Ft Ht
                      | channel_between 82%float 1 81 1 82 Ft Ht
                      | channel_between 139%float 84 55 84 139 Ft Ht].
  - apply ltb_true_Fz in H0. apply leb_true_Fz in H1.
    destruct H0 as (_ & Nn & L0), H1 as (_ & _ & L1). unfold getKeplerColor.
    rewrite (leb_false_of_lt n 0.25%float Nn eq_refl L0).
    assert (C2 : (n <=? 0.5)%float = true) by (rewrite leb_Fz, Nn; apply Z.leb_le; lia).
    rewrite C2.
    destruct (t_later n 0.25%float 1 Nn eq_refl ltac:(lia) ltac:(lia) ltac:(lia) ltac:(lia)) as [Ft Ht].
    split; [| split]; [channel_between 33%float 59 (-26) 33 59 Ft Ht
                      | channel_between 144%float 82 62 82 144 Ft Ht
                      | channel_between 140%float 139 1 139 140 Ft Ht].
  - apply ltb_true_Fz in H0. apply leb_true_Fz in H1.
    destruct H0 as (_ & Nn & L0), H1 as (_ & _ & L1). unfold getKeplerColor.
    rewrite (leb_false_of_lt n 0.25%float Nn eq_refl ltac:(lia)).
    rewrite (leb_false_of_lt n 0.5%float Nn eq_refl L0).
    assert (C3 : (n <=? 0.75)%float = true) by (rewrite leb_Fz, Nn; apply Z.leb_le; lia).
    rewrite C3.
    destruct (t_later n 0.5%float 2 Nn eq_refl ltac:(lia) ltac:(lia) ltac:(lia) ltac:(lia)) as [Ft Ht].
    split; [| split]; [channel_between 94%float 33 61 33 94 Ft Ht
                      | channel_between 201%float 144 57 144 201 Ft Ht
                      | channel_between 98%float 140 (-42) 98 140 Ft Ht].
  - apply ltb_true_Fz in H0. apply leb_true_Fz in H1.
    destruct H0 as (_ & Nn & L0), H1 as (_ & _ & L1). rewrite Fz_1 in L1. unfold getKeplerColor.
    rewrite (leb_false_of_lt n 0.25%float Nn eq_refl ltac:(lia)).
    rewrite (leb_false_of_lt n 0.5%float Nn eq_refl ltac:(lia)).
    rewrite (leb_false_of_lt n 0.75%float Nn eq_refl L0).
    destruct (t_later n 0.75%float 3 Nn eq_refl ltac:(lia) ltac:(lia) ltac:(lia) ltac:(lia)) as [Ft Ht].
    split; [| split]; [channel_between 253%float 94 159 94 253 Ft Ht
                      | channel_between 231%float 201 30 201 231 Ft Ht
                      | channel_between 37%float 98 (-61) 37 98 Ft Ht].
Qed.

Lemma getKeplerColor_segment_bounds_witness :
  (0.5 <? 0.625)%float = true /\ (0.625 <=? 0.75)%float = true /\
  between 33 (fst (fst (fst (getKeplerColor 0.625%float)))) 94 = true.
Proof.
  split; [reflexivity |]. split; [reflexivity |].
  pose proof (proj1 (proj2 (proj2 (getKeplerColor_segment_bounds 0.625%float))) eq_refl eq_refl) as H.
  destruct (getKeplerColor 0.625%float) as [[[r g] b] a]. exact (proj1 H).
Defined.

(** ** Outside the unit interval *)

Ltac closed_le := apply Z.leb_le; vm_compute; reflexivity.
Ltac closed_eq := vm_compute; reflexivity.

(** One channel for a parameter [t] between two numbers [tl] and [th], far
    from the unit interval or not: the rounded interpolant stays, up to the
    rounding, between the bounds [slo] and [shi] of the exact one. *)
Lemma interp_range (a c t tl th slo shi : float) :
  Ffin a = true -> Ffin c = true ->
  Ffin (c * tl)%float = true -> Ffin (c * th)%float = true ->
  Ffin slo = true -> Ffin shi = true ->
  Fz (c * tl)%float * U = Fz c * Fz tl -> Fz (c * th)%float * U = Fz c * Fz th ->
  Fz slo <= Fz a + Z.min (Fz (c * tl)%float) (Fz (c * th)%float) ->
  Fz a + Z.max (Fz (c * tl)%float) (Fz (c * th)%float) <= Fz shi ->
  Ffin t = true -> Fz tl <= Fz t <= Fz th ->
  exists n, Ffin (Math_round (a + c * t)%float) = true /\
            Fz (Math_round (a + c * t)%float) = n * U /\
            2 * Fz slo - U < 2 * n * U <= 2 * Fz shi + U.
Proof.
  intros Fa Fc Fpl Fph Fsl Fsh Epl Eph Hsl Hsh Ft Ht. pose proof U_pos as PU.
  pose proof (Ffin_Fnum _ Fpl) as Npl. pose proof (Ffin_Fnum _ Fph) as Nph.
  pose proof (Ffin_Fnum _ Fsl) as Nsl. pose proof (Ffin_Fnum _ Fsh) as Nsh.
  assert (Hm : Ffin (c * t)%float = true /\
               Z.min (Fz (c * tl)%float) (Fz (c * th)%float) <= Fz (c * t)%float
               <= Z.max (Fz (c * tl)%float) (Fz (c * th)%float)).
  { destruct (Z.le_gt_cases 0 (Fz c)) as [P | P].
    - destruct (Rounds_between _ _ _ (c * tl)%float (c * th)%float (mul_Rounds c t Fc Ft) Npl Nph) as [N B].
      + rewrite Epl, Eph. split; apply Z.mul_le_mono_nonneg_l; lia.
      + fold (Fz (c * t)%float) in B. split; [| lia].
        apply (Ffin_between _ (c * tl)%float (c * th)%float); auto.
    - destruct (Rounds_between _ _ _ (c * th)%float (c * tl)%float (mul_Rounds c t Fc Ft) Nph Npl) as [N B].
      + rewrite Epl, Eph. split; apply Z.mul_le_mono_nonpos_l; lia.
      + fold (Fz (c * t)%float) in B. split; [| lia].
        apply (Ffin_between _ (c * th)%float (c * tl)%float); auto. }
  destruct Hm as [Fm Bm].
  destruct (Rounds_between _ _ _ slo shi (add_Rounds a (c * t)%float Fa Fm) Nsl Nsh) as [N B];
    [lia |].
  fold (Fz (a + c * t)%float) in B.
  assert (Fs : Ffin (a + c * t)%float = true) by (apply (Ffin_between _ slo shi); auto).
  destruct (Math_round_spec _ Fs) as (n & Fr & Er & Hr).
  exists n. split; [exact Fr |]. split; [exact Er |]. lia.
Qed.

(** Without a clamp an input outside the unit interval gives channels that
    are no colour values: for every input from [-2^1000] to [-1/32] the
    green channel is below 0, and for every input from [1 + 2^-7] to
    [2^1000] the red channel is above 255. *)
Theorem getKeplerColor_outside_unit_interval (n : number) :
  ((-0x1p1000 <=? n)%float = true -> (n <=? -0.03125)%float = true ->
   let '(_, g, _, _) := getKeplerColor n in (g <? 0)%float = true) /\
  ((1.0078125 <=? n)%float = true -> (n <=? 0x1p1000)%float = true ->
   let '(r, _, _, _) := getKeplerColor n in (255 <? r)%float = true).
Proof.
  pose proof U_pos as PU.
  split; intros H0 H1; apply leb_true_Fz in H0, H1;
    destruct H0 as (_ & Nn & L0), H1 as (_ & _ & L1); unfold getKeplerColor.
  - assert (Fn : Ffin n = true) by (apply (Ffin_between n (-0x1p1000)%float (-0.03125)%float); auto).
    assert (C1 : (n <=? 0.25)%float = true).
    { rewrite leb_Fz, Nn. apply Z.leb_le.
      assert (Fz (-0.03125) <= Fz 0.25) by closed_le. lia. }
    rewrite C1.
    destruct (Rounds_between _ _ _ (-0x1p1002)%float (-0.125)%float (div_quarter_Rounds n Fn) eq_refl eq_refl) as [Nt Bt].
    { assert (Fz (-0x1p1002) = 4 * Fz (-0x1p1000)) by closed_eq.
      assert (Fz (-0.125) = 4 * Fz (-0.03125)) by closed_eq. lia. }
    fold (Fz (n / 0.25)%float) in Bt.
    assert (Ft : Ffin (n / 0.25)%float = true)
      by (apply (Ffin_between _ (-0x1p1002)%float (-0.125)%float); auto).
    destruct (interp_range 1%float (82 - 1)%float (n / 0.25)%float
                (-0x1p1002)%float (-0.125)%float (-0x1p1010)%float (-9.125)%float)
      as (k & Fr & Er & Hk); try first [assumption | closed_eq | closed_le].
    assert (E : 8 * Fz (-9.125) = - 73 * U) by closed_eq.
    rewrite ltb_Fz, (Ffin_Fnum _ Fr), Er, Fz_eq_0. cbn [andb]. apply Z.ltb_lt. nia.
  - assert (Fn : Ffin n = true) by (apply (Ffin_between n 1.0078125%float 0x1p1000%float); auto).
    assert (A : Fz 0.75 < Fz 1.0078125) by (apply Z.ltb_lt; vm_compute; reflexivity).
    assert (A1 : Fz 0.25 <= Fz 0.75) by closed_le.
    assert (A2 : Fz 0.5 <= Fz 0.75) by closed_le.
    rewrite (leb_false_of_lt n 0.25%float Nn eq_refl ltac:(lia)).
    rewrite (leb_false_of_lt n 0.5%float Nn eq_refl ltac:(lia)).
    rewrite (leb_false_of_lt n 0.75%float Nn eq_refl ltac:(lia)).
    destruct (Rounds_between _ _ _ 0.2578125%float 0x1p1000%float
                (sub_Rounds n 0.75%float Fn eq_refl) eq_refl eq_refl) as [Ns Bs].
    { assert (Fz 0.2578125 = Fz 1.0078125 - Fz 0.75) by closed_eq.
      assert (0 <= Fz 0.75) by closed_le. lia. }
    fold (Fz (n - 0.75)%float) in Bs.
    assert (Fs : Ffin (n - 0.75)%float = true)
      by (apply (Ffin_between _ 0.2578125%float 0x1p1000%float); auto).
    destruct (Rounds_between _ _ _ 1.03125%float 0x1p1002%float
                (div_quarter_Rounds _ Fs) eq_refl eq_refl) as [Nt Bt].
    { assert (Fz 1.03125 = 4 * Fz 0.2578125) by closed_eq.
      assert (Fz 0x1p1002 = 4 * Fz 0x1p1000) by closed_eq. lia. }
    fold (Fz ((n - 0.75) / 0.25)%float) in Bt.
    assert (Ft : Ffin ((n - 0.75) / 0.25)%float = true)
      by (apply (Ffin_between _ 1.03125%float 0x1p1002%float); auto).
    destruct (interp_range 94%float (253 - 94)%float ((n - 0.75) / 0.25)%float
                1.03125%float 0x1p1002%float 257.96875%float 0x1p1011%float)
      as (k & Fr & Er & Hk); try first [assumption | closed_eq | closed_le].
    assert (E : 32 * Fz 257.96875 = 8255 * U) by closed_eq.
    rewrite ltb_Fz, (Ffin_Fnum _ Fr), Er, Fz_255. cbn [andb]. apply Z.ltb_lt. nia.
Qed.

Lemma getKeplerColor_outside_unit_interval_witness :
  (-0x1p1000 <=? -1)%float = true /\ (-1 <=? -0.03125)%float = true /\
  (snd (fst (fst (getKeplerColor (-1)%float))) <? 0)%float = true.
Proof.
  split; [reflexivity |]. split; [reflexivity |].
  pose proof (proj1 (getKeplerColor_outside_unit_interval (-1)%float) eq_refl eq_refl) as H.
  destruct (getKeplerColor (-1)%float) as [[[r g] b] a]. exact H.
Defined.

(** Running the effect again with the same outcome of the fetch leaves the
    state as it is. *)
Theorem loadData_idempotent (engine : Engine) (fetch : Network) (st : AppState) :
  state (loadData engine fetch (state (loadData engine fetch st)))
  = state (loadData engine fetch st).
Proof.
  unfold loadData, spread. destruct (loadCSVData fetch) as [[| d rest] log]; [reflexivity |].
  cbn [Nat.ltb Nat.leb List.length].
  destruct (N.of_nat (List.length (map val_trans (d :: rest))) <=? max_arguments engine)%N;
    reflexivity.
Qed.

(** * The normalised value of a row *)

(** ** Division of a smaller by a larger number *)

Lemma shr_1_m (mrs : shr_record) :
  0 <= shr_m mrs -> shr_m (shr_1 mrs) = shr_m mrs / 2.
Proof.
  destruct mrs as [m r s]. cbn [shr_m]. intros H.
  rewrite shr_1_nonneg by assumption. cbn [shr_m]. apply Z.div2_div.
Qed.

Lemma shr_iter_m (n : nat) (mrs : shr_record) :
  0 <= shr_m mrs -> shr_m (Nat.iter n shr_1 mrs) = shr_m mrs / 2 ^ Z.of_nat n.
Proof.
  intros H. induction n as [| n IH].
  - change (Nat.iter 0 shr_1 mrs) with mrs. change (2 ^ Z.of_nat 0) with 1.
    rewrite Z.div_1_r. reflexivity.
  - change (Nat.iter (S n) shr_1 mrs) with (shr_1 (Nat.iter n shr_1 mrs)). rewrite shr_1_m.
    + rewrite IH, Nat2Z.inj_succ, Z.pow_succ_r, Z.div_div by lia.
      f_equal. lia.
    + rewrite IH. apply Z.div_pos; [lia | apply pow2_pos; lia].
Qed.

Lemma shr_m_spec (mrs : shr_record) (e k : Z) :
  0 <= shr_m mrs ->
  shr_m (fst (shr mrs e k)) = shr_m mrs / 2 ^ Z.max k 0 /\
  snd (shr mrs e k) = e + Z.max k 0.
Proof.
  intros H. destruct k as [| p | p]; cbn [shr fst snd].
  - rewrite Z.div_1_r. split; [reflexivity | lia].
  - rewrite iter_pos_nat, shr_iter_m by assumption.
    replace (Z.max (Zpos p) 0) with (Zpos p) by lia. rewrite positive_nat_Z. split; reflexivity.
  - rewrite Z.div_1_r. split; [reflexivity | lia].
Qed.

Lemma shr_record_of_loc_m (m : Z) (l : location) : shr_m (shr_record_of_loc m l) = m.
Proof. destruct l as [| []]; reflexivity. Qed.

Lemma Zdigits2_bounds (q : Z) :
  0 < q -> 2 ^ (Zdigits2 q - 1) <= q < 2 ^ Zdigits2 q /\ 0 < Zdigits2 q.
Proof.
  destruct q as [| p | p]; try lia. intros _. cbn [Zdigits2].
  split; [apply digits2_bounds | lia].
Qed.

(** A value below 1, given at exponent [e'] by its integer part [q] and the
    location of the rest, rounds to at most 1. *)
Lemma BRA_small (s : bool) (q e' : Z) (lz : location) :
  0 <= q -> - K <= e' <= 0 -> q + 1 <= 2 ^ (- e') ->
  exists Rz, SFz (binary_round_aux prec emax s q e' lz) = cond_Zopp s Rz /\
             0 <= Rz <= U /\
             SFnum (binary_round_aux prec emax s q e' lz) = true.
Proof.
  intros Hq He Hb. pose proof (eq_refl : K = 2148) as HKv. pose proof U_pos as PU.
  unfold binary_round_aux, shr_fexp. rewrite !fexp64.
  set (k1 := Z.max (Zdigits2 q + e' - 53) (-1074) - e').
  pose proof (shr_m_spec (shr_record_of_loc q lz) e' k1) as S1.
  rewrite shr_record_of_loc_m in S1. specialize (S1 Hq). destruct S1 as [Sm Se].
  destruct (shr (shr_record_of_loc q lz) e' k1) as [mrs e1]. cbn [fst snd] in Sm, Se.
  cbv beta iota.
  destruct (round_nearest_even_faithful mrs) as [HR _].
  set (R := round_nearest_even (shr_m mrs) (loc_of_shr_record mrs)) in *.
  rewrite Sm in HR. clearbody R.
  remember (q / 2 ^ Z.max k1 0) as m1 eqn:Em1.
  assert (P1 : 0 < 2 ^ Z.max k1 0) by (apply pow2_pos; lia).
  assert (Hm1 : 0 <= m1) by (rewrite Em1; apply Z.div_pos; lia).
  (* the exponent after the first shift, and the room left below 1 *)
  assert (A : -1074 <= e1 <= 0 /\ m1 + 1 <= 2 ^ (- e1)).
  { destruct (Z.le_gt_cases k1 0) as [L | L].
    - replace (Z.max k1 0) with 0 in * by lia. rewrite Z.pow_0_r, Z.div_1_r in Em1. subst m1.
      replace e1 with e' by lia. split; [unfold k1 in L; lia | exact Hb].
    - replace (Z.max k1 0) with k1 in * by lia.
      assert (Hd : Zdigits2 q <= - e').
      { destruct (Z.eq_dec q 0) as [-> | NZ]; [cbn [Zdigits2]; lia |].
        destruct (Zdigits2_bounds q ltac:(lia)) as [[B1 _] Dp].
        destruct (Z.le_gt_cases (Zdigits2 q) (- e')) as [G | G]; [exact G | exfalso].
        assert (2 ^ (- e') <= 2 ^ (Zdigits2 q - 1)) by (apply pow2_le; lia). lia. }
      assert (E1 : e1 = Z.max (Zdigits2 q + e' - 53) (-1074)) by (unfold k1 in Se; lia).
      split; [lia |].
      assert (Hs : 2 ^ (- e') = 2 ^ k1 * 2 ^ (- e1)).
      { rewrite <- pow2_split by lia. f_equal. lia. }
      assert (P2 : 0 < 2 ^ (- e1)) by (apply pow2_pos; lia).
      assert (m1 < 2 ^ (- e1)).
      { rewrite Em1. apply Z.div_lt_upper_bound; [lia |]. lia. }
      lia. }
  destruct A as [He1 Hroom].
  assert (HRb : 0 <= R <= 2 ^ (- e1)) by lia.
  assert (P3 : 0 < 2 ^ (- e1)) by (apply pow2_pos; lia).
  assert (EU : U = 2 ^ (- e1) * 2 ^ (e1 + K)).
  { unfold U. rewrite <- pow2_split by lia. f_equal. lia. }
  assert (P4 : 0 < 2 ^ (e1 + K)) by (apply pow2_pos; lia).
  rewrite !fexp64.
  set (k2 := Z.max (Zdigits2 R + e1 - 53) (-1074) - e1).
  pose proof (shr_m_spec (shr_record_of_loc R loc_Exact) e1 k2) as S2.
  rewrite shr_record_of_loc_m in S2. specialize (S2 ltac:(lia)). destruct S2 as [Sm2 Se2].
  destruct (shr (shr_record_of_loc R loc_Exact) e1 k2) as [mrs2 e2]. cbn [fst snd] in Sm2, Se2.
  cbv beta iota.
  rewrite Sm2.
  assert (P5 : 0 < 2 ^ Z.max k2 0) by (apply pow2_pos; lia).
  remember (R / 2 ^ Z.max k2 0) as m2 eqn:Em2'.
  assert (Hm2 : 0 <= m2) by (rewrite Em2'; apply Z.div_pos; lia).
  assert (Hv : m2 * 2 ^ Z.max k2 0 <= R).
  { rewrite Em2'. pose proof (Z.mul_div_le R (2 ^ Z.max k2 0) P5). lia. }
  clear Em2'. destruct m2 as [| p | p]; try lia.
  - exists 0. cbn [SFz SFnum]. split; [destruct s; reflexivity | split; [lia | reflexivity]].
  - assert (Hval : Zpos p * 2 ^ (e2 + K) <= U).
    { assert (E2 : 2 ^ (e2 + K) = 2 ^ Z.max k2 0 * 2 ^ (e1 + K)).
      { rewrite <- pow2_split by lia. f_equal. lia. }
      rewrite E2, EU. nia. }
    assert (He2 : e2 <= 0).
    { destruct (Z.le_gt_cases e2 0) as [L | L]; [exact L | exfalso].
      assert (2 ^ (0 + K) < 2 ^ (e2 + K)) by (apply pow2_lt; lia).
      change (2 ^ (0 + K)) with U in *. nia. }
    replace (e2 <=? emax - prec) with true by (symmetry; apply Z.leb_le; change (emax - prec) with 971; lia).
    exists (V p e2). cbn [SFz SFnum]. split; [reflexivity |]. unfold V.
    split; [split; [nia | exact Hval] | reflexivity].
Qed.

Lemma div_eucl_q (a b : Z) : 0 < b -> fst (Z.div_eucl a b) = a / b.
Proof. intros. reflexivity. Qed.

Lemma shift_match (m : positive) (s : Z) :
  0 <= s ->
  match s with
  | 0 => Zpos m
  | Zpos _ => Z.shiftl (Zpos m) s
  | Zneg _ => 0
  end = Zpos m * 2 ^ s.
Proof.
  intros H. destruct s as [| p | p]; try lia.
  apply Z.shiftl_mul_pow2. lia.
Qed.

(** The quotient of a positive finite number by a larger one is between 0
    and 1. *)
Lemma SFdiv_small (sx sy : bool) (mx my : positive) (ex ey : Z) :
  canonical_mantissa prec emax mx ex = true -> bounded prec emax my ey = true ->
  V mx ex < V my ey ->
  exists Rz, SFz (SFdiv prec emax (S754_finite sx mx ex) (S754_finite sy my ey))
             = cond_Zopp (xorb sx sy) Rz /\ 0 <= Rz <= U /\
             SFnum (SFdiv prec emax (S754_finite sx mx ex) (S754_finite sy my ey)) = true.
Proof.
  intros Cx By L. pose proof (eq_refl : K = 2148) as HKv.
  apply andb_prop in By. destruct By as [Cy Ey]. apply Z.leb_le in Ey.
  change (emax - prec) with 971 in Ey.
  destruct (canonical_digits _ _ Cx) as (X1 & X2 & _).
  destruct (canonical_digits _ _ Cy) as (Y1 & Y2 & _).
  pose proof (digits2_bounds mx) as [Dx1 Dx2]. pose proof (digits2_bounds my) as [Dy1 Dy2].
  set (d1 := Zpos (digits2_pos mx)) in *. set (d2 := Zpos (digits2_pos my)) in *.
  assert (Hd1 : 0 < d1) by (unfold d1; lia). assert (Hd2 : 0 < d2) by (unfold d2; lia).
  (* both values at the smaller of the two exponents *)
  set (lo := Z.min ex ey).
  set (A := Zpos mx * 2 ^ (ex - lo)). set (B := Zpos my * 2 ^ (ey - lo)).
  assert (PW : 0 < 2 ^ (lo + K)) by (apply pow2_pos; lia).
  assert (EA : V mx ex = A * 2 ^ (lo + K)).
  { unfold V, A. rewrite <- Z.mul_assoc, <- pow2_split by lia. do 2 f_equal. lia. }
  assert (EB : V my ey = B * 2 ^ (lo + K)).
  { unfold V, B. rewrite <- Z.mul_assoc, <- pow2_split by lia. do 2 f_equal. lia. }
  assert (HAB : A < B) by nia.
  (* the magnitude of the quotient *)
  assert (Hmag : d1 + ex <= d2 + ey).
  { destruct (Z.le_gt_cases (d1 + ex) (d2 + ey)) as [G | G]; [exact G | exfalso].
    assert (P1 : 0 < 2 ^ (ex - lo)) by (apply pow2_pos; lia).
    assert (P2 : 0 < 2 ^ (ey - lo)) by (apply pow2_pos; lia).
    assert (B < 2 ^ (d2 + (ey - lo))) by (unfold B; rewrite pow2_split by lia; nia).
    assert (2 ^ (d1 - 1 + (ex - lo)) <= A) by (unfold A; rewrite pow2_split by lia; nia).
    assert (2 ^ (d2 + (ey - lo)) <= 2 ^ (d1 - 1 + (ex - lo))) by (apply pow2_le; lia).
    lia. }
  unfold SFdiv, SFdiv_core_binary. cbn [Zdigits2]. fold d1 d2. rewrite fexp64.
  set (e' := Z.min (Z.max (d1 + ex - (d2 + ey) - 53) (-1074)) (ex - ey)).
  assert (He' : - K <= e' <= -53) by (unfold e'; lia).
  set (s := ex - ey - e'). assert (Hs : 0 <= s) by (unfold s, e'; lia).
  pose proof (shift_match mx s Hs) as Em.
  rewrite Em.
  pose proof (div_eucl_q (Zpos mx * 2 ^ s) (Zpos my) ltac:(lia)) as Hq.
  destruct (Z.div_eucl (Zpos mx * 2 ^ s) (Zpos my)) as [q r]. cbn [fst] in Hq.
  apply BRA_small; [| lia |].
  - rewrite Hq. apply Z.div_pos; [| lia]. assert (0 < 2 ^ s) by (apply pow2_pos; lia). nia.
  - assert (Ht : 0 <= lo - ey - e') by (unfold lo, s in *; lia).
    assert (Pt : 0 < 2 ^ (lo - ey - e')) by (apply pow2_pos; lia).
    assert (E1 : Zpos mx * 2 ^ s = A * 2 ^ (lo - ey - e')).
    { unfold A. rewrite <- Z.mul_assoc, <- pow2_split by lia. do 2 f_equal. unfold s. lia. }
    assert (E2 : Zpos my * 2 ^ (- e') = B * 2 ^ (lo - ey - e')).
    { unfold B. rewrite <- Z.mul_assoc, <- pow2_split by lia. do 2 f_equal. lia. }
    assert (Hlt : Zpos mx * 2 ^ s < Zpos my * 2 ^ (- e')) by (rewrite E1, E2; nia).
    assert (q < 2 ^ (- e')).
    { rewrite Hq. apply Z.div_lt_upper_bound; lia. }
    lia.
Qed.

Lemma Ffin_pos_inv (x : float) :
  Ffin x = true -> 0 < Fz x ->
  exists m e, Prim2SF x = S754_finite false m e /\ Fz x = V m e.
Proof.
  intros F P. destruct (Ffin_nonzero_inv x F ltac:(lia)) as (s & m & e & E).
  pose proof (Prim2SF_valid x) as Vx. rewrite E in Vx.
  pose proof (V_lt_INF m e Vx). unfold Fz in *. rewrite E in *. cbn [SFz] in *.
  destruct s; cbn [cond_Zopp] in *; [lia |]. eauto.
Qed.

Lemma div_unit_interval (a b : float) :
  Ffin a = true -> Ffin b = true -> 0 <= Fz a <= Fz b -> 0 < Fz b ->
  (0 <=? a / b)%float = true /\ (a / b <=? 1)%float = true.
Proof.
  intros Fa Fb H Pb. pose proof U_pos as PU.
  assert (G : Fnum (a / b)%float = true /\ 0 <= Fz (a / b)%float <= U).
  { destruct (Z.eq_dec (Fz a) 0) as [Z0 | NZ].
    - destruct (Fz_zero_inv a (Ffin_Fnum _ Fa) Z0) as [sa Ea].
      destruct (Ffin_pos_inv b Fb Pb) as (mb & eb & Eb & _).
      unfold Fnum, Fz. rewrite div_spec, Ea, Eb. cbn. lia.
    - destruct (Z.eq_dec (Fz a) (Fz b)) as [E | NE].
      + rewrite (Fz_inj a b Fa Fb E NZ), (div_self b Fb ltac:(lia)).
        split; [reflexivity | rewrite Fz_1; lia].
      + destruct (Ffin_pos_inv a Fa ltac:(lia)) as (ma & ea & Ea & Va).
        destruct (Ffin_pos_inv b Fb Pb) as (mb & eb & Eb & Vb).
        pose proof (Prim2SF_valid a) as Vla. pose proof (Prim2SF_valid b) as Vlb.
        rewrite Ea in Vla. rewrite Eb in Vlb. cbn [valid_binary] in Vla, Vlb.
        apply andb_prop in Vla. destruct Vla as [Ca _].
        destruct (SFdiv_small false false ma mb ea eb Ca Vlb ltac:(lia)) as (Rz & ER & HR & NR).
        unfold Fnum, Fz. rewrite div_spec, Ea, Eb. unfold SF64div.
        rewrite ER, NR. cbn [xorb cond_Zopp]. split; [reflexivity | exact HR]. }
  destruct G as [N B]. rewrite !leb_Fz, N, Fz_eq_0, Fz_1. cbn [andb].
  change (Fnum 0) with true. change (Fnum 1) with true. cbn [andb].
  split; apply Z.leb_le; lia.
Qed.

(** ** Rounding is monotone *)

Lemma rne_ge (x g : Z) : 0 < g -> x / g * g <= rne x g <= (x / g + 1) * g.
Proof.
  intros Hg. unfold rne.
  destruct ((g <? 2 * (x mod g)) || ((g =? 2 * (x mod g)) && Z.odd (x / g))); lia.
Qed.

Lemma rne_exact (p g : Z) : 0 < g -> rne (p * g) g = p * g.
Proof.
  intros Hg. unfold rne. rewrite Z.div_mul, Z.mod_mul by lia.
  rewrite Z.mul_0_r.
  replace (g <? 0) with false by (symmetry; apply Z.ltb_ge; lia).
  replace (g =? 0) with false by (symmetry; apply Z.eqb_neq; lia).
  reflexivity.
Qed.

Lemma rne_multiple_le (x g p : Z) : 0 < g -> x <= p * g -> rne x g <= p * g.
Proof.
  intros Hg H. pose proof (Z.div_le_mono x (p * g) g Hg H) as Hq.
  rewrite Z.div_mul in Hq by lia.
  destruct (Z.eq_dec (x / g) p) as [E | NE].
  - pose proof (Z.mul_div_le x g Hg) as L. rewrite E in L.
    assert (Ex : x = p * g) by lia. rewrite Ex, rne_exact by assumption. lia.
  - destruct (rne_ge x g Hg) as [_ U1].
    assert (x / g + 1 <= p) by lia.
    pose proof (Z.mul_le_mono_nonneg_r (x / g + 1) p g ltac:(lia) ltac:(lia)). lia.
Qed.

Lemma rne_multiple_ge (x g p : Z) : 0 < g -> p * g <= x -> p * g <= rne x g.
Proof.
  intros Hg H. pose proof (Z.div_le_mono (p * g) x g Hg H) as Hq.
  rewrite Z.div_mul in Hq by lia.
  destruct (rne_ge x g Hg) as [L1 _].
  pose proof (Z.mul_le_mono_nonneg_r p (x / g) g ltac:(lia) ltac:(lia)). lia.
Qed.

Lemma rne_mono (x1 x2 g : Z) : 0 < g -> x1 <= x2 -> rne x1 g <= rne x2 g.
Proof.
  intros Hg H. pose proof (Z.div_le_mono x1 x2 g Hg H) as Hq.
  destruct (Z.eq_dec (x1 / g) (x2 / g)) as [E | NE].
  - pose proof (Z.div_mod x1 g ltac:(lia)) as D1. pose proof (Z.div_mod x2 g ltac:(lia)) as D2.
    assert (Hr : x1 mod g <= x2 mod g) by (rewrite E in D1; lia).
    unfold rne. rewrite E.
    destruct (g <? 2 * (x1 mod g)) eqn:A1.
    + apply Z.ltb_lt in A1. replace (g <? 2 * (x2 mod g)) with true by (symmetry; apply Z.ltb_lt; lia).
      cbn [orb]. lia.
    + destruct (g =? 2 * (x1 mod g)) eqn:B1; cbn [orb andb].
      * apply Z.eqb_eq in B1. destruct (Z.odd (x2 / g)) eqn:O.
        -- destruct (g <? 2 * (x2 mod g)) eqn:A2; cbn [orb]; [lia |].
           apply Z.ltb_ge in A2.
           replace (g =? 2 * (x2 mod g)) with true by (symmetry; apply Z.eqb_eq; lia).
           cbn [andb]. lia.
        -- destruct ((g <? 2 * (x2 mod g)) || ((g =? 2 * (x2 mod g)) && false)); lia.
      * destruct ((g <? 2 * (x2 mod g)) || ((g =? 2 * (x2 mod g)) && Z.odd (x2 / g))); lia.
  - destruct (rne_ge x1 g Hg) as [_ U1]. destruct (rne_ge x2 g Hg) as [L2 _].
    assert (x1 / g + 1 <= x2 / g) by lia.
    pose proof (Z.mul_le_mono_nonneg_r (x1 / g + 1) (x2 / g) g ltac:(lia) ltac:(lia)). lia.
Qed.

Lemma ulp_pos (x : Z) : 0 < ulp x.
Proof. unfold ulp. apply pow2_pos. unfold K. lia. Qed.

Lemma pow2_multiple (a b : Z) : 0 <= a <= b -> 2 ^ b = 2 ^ (b - a) * 2 ^ a.
Proof. intros. rewrite <- pow2_split by lia. f_equal. lia. Qed.

Lemma round_mag_0 : round_mag 0 = 0.
Proof.
  unfold round_mag. pose proof (rne_exact 0 (ulp 0) (ulp_pos 0)) as E.
  rewrite Z.mul_0_l in E. rewrite E. apply Z.min_l. apply Z.lt_le_incl, pow2_pos. unfold K. lia.
Qed.

Lemma round_mag_nonneg (x : Z) : 0 <= x -> 0 <= round_mag x.
Proof.
  intros H. unfold round_mag. apply Z.min_glb.
  - pose proof (rne_multiple_ge x (ulp x) 0 (ulp_pos x)) as L. rewrite Z.mul_0_l in L. auto.
  - apply Z.lt_le_incl, pow2_pos. unfold K. lia.
Qed.

Lemma round_mag_mono (x1 x2 : Z) : 0 <= x1 <= x2 -> round_mag x1 <= round_mag x2.
Proof.
  intros [H0 H]. destruct (Z.eq_dec x1 0) as [-> | NZ].
  { rewrite round_mag_0. apply round_mag_nonneg. lia. }
  unfold round_mag. apply Z.min_le_compat_r.
  pose proof (Z.log2_le_mono x1 x2 H) as HL.
  pose proof (Z.log2_nonneg x1) as N1.
  destruct (Z.log2_spec x1 ltac:(lia)) as [_ S1]. destruct (Z.log2_spec x2 ltac:(lia)) as [S2 _].
  unfold ulp. pose proof (eq_refl : K = 2148) as HKv.
  set (L1 := Z.log2 x1) in *. set (L2 := Z.log2 x2) in *.
  set (a1 := Z.max (L1 + 1 - K - 53) (-1074) + K).
  set (a2 := Z.max (L2 + 1 - K - 53) (-1074) + K).
  assert (Ha : 0 <= a1 <= a2) by (unfold a1, a2; lia).
  destruct (Z.eq_dec a1 a2) as [E | NE].
  - rewrite E. apply rne_mono; [apply pow2_pos; lia | exact H].
  - assert (HL2 : a2 = L2 - 52) by (unfold a1, a2 in *; lia).
    assert (HL12 : L1 + 1 <= L2) by (unfold a1, a2 in *; lia).
    assert (P12 : 2 ^ Z.succ L1 <= 2 ^ L2) by (apply pow2_le; lia).
    clear HKv. transitivity (2 ^ L2).
    + rewrite (pow2_multiple a1 L2) by lia. apply rne_multiple_le; [apply pow2_pos; lia |].
      rewrite <- (pow2_multiple a1 L2) by lia. lia.
    + rewrite (pow2_multiple a2 L2) by lia. apply rne_multiple_ge; [apply pow2_pos; lia |].
      rewrite <- (pow2_multiple a2 L2) by lia. lia.
Qed.

Lemma round_value_mono (x1 x2 : Z) : x1 <= x2 -> round_value x1 <= round_value x2.
Proof.
  intros H. unfold round_value.
  destruct (x1 <? 0) eqn:A1; destruct (x2 <? 0) eqn:A2;
    try apply Z.ltb_lt in A1; try apply Z.ltb_ge in A1;
    try apply Z.ltb_lt in A2; try apply Z.ltb_ge in A2.
  - pose proof (round_mag_mono (- x2) (- x1) ltac:(lia)). lia.
  - pose proof (round_mag_nonneg (- x1) ltac:(lia)). pose proof (round_mag_nonneg x2 A2). lia.
  - lia.
  - apply round_mag_mono. lia.
Qed.

(** ** The value a rounding produces *)

Lemma shr_1_bits (M k : Z) (mrs : shr_record) :
  0 <= M -> 0 <= k -> shr_bits M k mrs -> shr_bits M (k + 1) (shr_1 mrs).
Proof.
  intros HM Hk (Hm & t & Ht & Hrem & Hs).
  assert (P2 : 0 < 2 ^ k) by (apply pow2_pos; lia).
  assert (E2 : 2 ^ (k + 1) = 2 ^ k * 2) by (rewrite pow2_split by lia; reflexivity).
  destruct mrs as [m r s]. cbn [shr_m shr_r shr_s] in *.
  assert (0 <= m) by (subst m; apply Z.div_pos; lia).
  rewrite shr_1_nonneg by assumption.
  split; cbn [shr_m shr_r shr_s].
  - rewrite Z.div2_div, Hm, E2, Z.div_div by lia. reflexivity.
  - exists (Z.b2z r * 2 ^ k + t).
    pose proof (Z.mod_pos_bound M (2 ^ k) P2) as B1.
    assert (Eo : m mod 2 = Z.b2z (Z.odd m)).
    { rewrite <- Z.bit0_odd. symmetry. apply Z.bit0_mod. }
    rewrite E2, Z.rem_mul_r, <- Hm, Eo by lia.
    remember (2 ^ k) as P eqn:EP. remember (M mod P) as rem eqn:Erem.
    clear EP Erem E2 Hm Eo.
    split; [destruct r; cbn [Z.b2z] in *; lia |].
    split; [lia |].
    destruct r, s; cbn [orb Z.b2z] in *; split; intros Q; try discriminate; try reflexivity; try lia.
Qed.

Lemma shr_iter_bits (M : Z) (n : nat) (mrs : shr_record) :
  0 <= M -> shr_bits M 0 mrs -> shr_bits M (Z.of_nat n) (Nat.iter n shr_1 mrs).
Proof.
  intros HM H0. induction n as [| n IH].
  - exact H0.
  - rewrite Nat2Z.inj_succ.
    change (Nat.iter (S n) shr_1 mrs) with (shr_1 (Nat.iter n shr_1 mrs)).
    replace (Z.succ (Z.of_nat n)) with (Z.of_nat n + 1) by lia.
    apply shr_1_bits; auto; lia.
Qed.

Lemma shr_bits_spec (M E k : Z) :
  0 <= M ->
  exists mrs, shr (Build_shr_record M false false) E k = (mrs, E + Z.max k 0)
              /\ shr_bits M (Z.max k 0) mrs.
Proof.
  intros HM.
  assert (I0 : shr_bits M 0 (Build_shr_record M false false)).
  { split; cbn [shr_m shr_r shr_s]; [rewrite Z.div_1_r; reflexivity |].
    exists 0. rewrite Z.pow_0_r, Z.mod_1_r. cbn [Z.b2z]. repeat split; lia. }
  destruct k as [| p | p]; cbn [shr].
  - eexists; split; [rewrite Z.add_0_r; reflexivity | exact I0].
  - eexists; split; [reflexivity |].
    rewrite iter_pos_nat. replace (Z.max (Zpos p) 0) with (Z.of_nat (Pos.to_nat p)) by lia.
    apply shr_iter_bits; assumption.
  - eexists; split; [rewrite Z.add_0_r; reflexivity | exact I0].
Qed.

(** The mantissa [round_nearest_even] keeps is the one of the nearest
    multiple. *)
Lemma round_bits (M k c : Z) (mrs : shr_record) :
  0 <= M -> 0 <= k -> 0 < c -> shr_bits M k mrs ->
  round_nearest_even (shr_m mrs) (loc_of_shr_record mrs) * (2 ^ k * c) = rne (M * c) (2 ^ k * c).
Proof.
  intros HM Hk Hc (Hm & t & Ht & Hrem & Hs).
  assert (P2 : 0 < 2 ^ k) by (apply pow2_pos; lia).
  unfold rne. rewrite Z.div_mul_cancel_r, Z.mul_mod_distr_r by lia.
  rewrite <- Hm.
  pose proof (Z.mod_pos_bound M (2 ^ k) P2) as B1.
  remember (2 ^ k) as P eqn:EP. remember (M mod P) as rem eqn:Erem.
  clear EP Erem Hm.
  assert (C1 : (P * c <? 2 * (rem * c)) = (P <? 2 * rem)).
  { destruct (Z.ltb_spec (P * c) (2 * (rem * c))), (Z.ltb_spec P (2 * rem)); auto; nia. }
  assert (C2 : (P * c =? 2 * (rem * c)) = (P =? 2 * rem)).
  { destruct (Z.eqb_spec (P * c) (2 * (rem * c))), (Z.eqb_spec P (2 * rem)); auto; nia. }
  rewrite C1, C2. destruct mrs as [m r s]. cbn [shr_m shr_r shr_s] in *.
  destruct r, s; cbn [loc_of_shr_record round_nearest_even Z.b2z] in *.
  - assert (t <> 0) by (intros Q; apply Hs in Q; discriminate).
    replace (P <? 2 * rem) with true by (symmetry; apply Z.ltb_lt; lia). reflexivity.
  - assert (t = 0) by (apply Hs; reflexivity).
    replace (P <? 2 * rem) with false by (symmetry; apply Z.ltb_ge; lia).
    replace (P =? 2 * rem) with true by (symmetry; apply Z.eqb_eq; lia).
    cbn [orb andb]. rewrite <- Z.negb_even. destruct (Z.even m); reflexivity.
  - assert (t <> 0) by (intros Q; apply Hs in Q; discriminate).
    replace (P <? 2 * rem) with false by (symmetry; apply Z.ltb_ge; lia).
    replace (P =? 2 * rem) with false by (symmetry; apply Z.eqb_neq; lia).
    reflexivity.
  - assert (t = 0) by (apply Hs; reflexivity).
    replace (P <? 2 * rem) with false by (symmetry; apply Z.ltb_ge; lia).
    replace (P =? 2 * rem) with false by (symmetry; apply Z.eqb_neq; lia).
    reflexivity.
Qed.

Lemma cond_Zopp_0 (s : bool) : cond_Zopp s 0 = 0.
Proof. destruct s; reflexivity. Qed.

Lemma INF_split (e : Z) : - K <= e <= 1024 -> INF = 2 ^ (1024 - e) * 2 ^ (e + K).
Proof.
  intros H. unfold INF. pose proof (eq_refl : K = 2148) as HKv.
  rewrite <- pow2_split by lia. f_equal. lia.
Qed.

(** The second shift of a rounding, after a carry into a 54th digit, keeps
    the value. *)
Lemma second_round (s : bool) (R e' : Z) :
  0 <= R <= 2 ^ 53 -> -1074 <= e' -> (-1074 < e' -> 2 ^ 52 <= R) ->
  SFz (let '(mrs'', e'') := shr_fexp prec emax R e' loc_Exact in
       match shr_m mrs'' with
       | 0 => S754_zero s
       | Zpos m => if e'' <=? emax - prec then S754_finite s m e'' else S754_infinity s
       | Zneg _ => S754_nan
       end) = cond_Zopp s (Z.min (R * 2 ^ (e' + K)) INF).
Proof.
  intros HR He Hn. pose proof (eq_refl : K = 2148) as HKv.
  assert (PI : 0 < INF) by (apply pow2_pos; lia).
  assert (Pc : 0 < 2 ^ (e' + K)) by (apply pow2_pos; lia).
  unfold shr_fexp. cbn [shr_record_of_loc]. rewrite fexp64.
  change (emax - prec) with 971.
  destruct (Z.eq_dec R (2 ^ 53)) as [E53 | N53].
  - rewrite E53. replace (Zdigits2 (2 ^ 53)) with 54 by reflexivity.
    replace (Z.max (54 + e' - 53) (-1074) - e') with 1 by lia.
    cbn [shr iter_pos]. rewrite shr_1_nonneg by lia.
    replace (Z.div2 (2 ^ 53)) with (Zpos (2 ^ 52)) by reflexivity. cbn [shr_m].
    assert (EV : V (2 ^ 52) (e' + 1) = 2 ^ 53 * 2 ^ (e' + K)).
    { unfold V. replace (e' + 1 + K) with (1 + (e' + K)) by lia.
      rewrite (pow2_split 1) by lia. rewrite pos_pow52, pow53.
      change (2 ^ 1) with 2. lia. }
    destruct (e' + 1 <=? 971) eqn:C; cbn [SFz]; f_equal.
    + apply Z.leb_le in C. rewrite EV. symmetry. apply Z.min_l.
      rewrite (INF_split e') by lia.
      assert (2 ^ 54 <= 2 ^ (1024 - e')) by (apply pow2_le; lia).
      assert (2 ^ 53 <= 2 ^ 54) by (apply pow2_le; lia).
      clear HKv. apply Z.mul_le_mono_nonneg_r; lia.
    + apply Z.leb_gt in C. symmetry. apply Z.min_r.
      destruct (Z.le_gt_cases e' 1024) as [L | L].
      * rewrite (INF_split e') by lia.
        assert (2 ^ (1024 - e') <= 2 ^ 53) by (apply pow2_le; lia).
        clear HKv. apply Z.mul_le_mono_nonneg_r; lia.
      * assert (INF <= 2 ^ (e' + K)) by (unfold INF; apply pow2_le; lia).
        assert (0 < 2 ^ 53) by (apply pow2_pos; lia).
        clear HKv. remember (2 ^ (e' + K)) as c. remember (2 ^ 53) as b. nia.
  - assert (Hk : Z.max (Zdigits2 R + e' - 53) (-1074) - e' <= 0).
    { destruct (Z.eq_dec R 0) as [-> | NZ]; [cbn [Zdigits2]; lia |].
      destruct (Zdigits2_bounds R ltac:(lia)) as [[B1 _] Dp].
      destruct (Z.le_gt_cases (Zdigits2 R) 53) as [G | G]; [lia | exfalso].
      assert (2 ^ 53 <= 2 ^ (Zdigits2 R - 1)) by (apply pow2_le; lia). lia. }
    assert (Es : forall mrs, shr mrs e' (Z.max (Zdigits2 R + e' - 53) (-1074) - e') = (mrs, e')).
    { intros mrs. destruct (Z.max (Zdigits2 R + e' - 53) (-1074) - e'); try lia; reflexivity. }
    rewrite Es. cbn [shr_m].
    destruct R as [| r | r]; try lia.
    + cbn [SFz]. rewrite Z.mul_0_l, Z.min_l, cond_Zopp_0 by lia. reflexivity.
    + fold (V r e').
      destruct (e' <=? 971) eqn:C; cbn [SFz]; f_equal.
      * apply Z.leb_le in C. symmetry. apply Z.min_l. unfold V.
        rewrite (INF_split e') by lia.
        assert (2 ^ 53 <= 2 ^ (1024 - e')) by (apply pow2_le; lia).
        clear HKv. apply Z.mul_le_mono_nonneg_r; lia.
      * apply Z.leb_gt in C. symmetry. apply Z.min_r. unfold V.
        specialize (Hn ltac:(lia)).
        destruct (Z.le_gt_cases e' 1024) as [L | L].
        -- rewrite (INF_split e') by lia.
           assert (2 ^ (1024 - e') <= 2 ^ 52) by (apply pow2_le; lia).
           clear HKv. apply Z.mul_le_mono_nonneg_r; lia.
        -- assert (INF <= 2 ^ (e' + K)) by (unfold INF; apply pow2_le; lia).
           assert (0 < 2 ^ 52) by (apply pow2_pos; lia).
           clear HKv. remember (2 ^ (e' + K)) as c. remember (2 ^ 52) as b. nia.
Qed.

Lemma log2_V (M : positive) (E : Z) :
  - K <= E -> Z.log2 (V M E) = Zpos (digits2_pos M) + E + K - 1.
Proof.
  intros H. pose proof (digits2_bounds M) as [D1 D2].
  set (d := Zpos (digits2_pos M)) in *. assert (Hd : 0 < d) by (unfold d; lia).
  assert (Pc : 0 < 2 ^ (E + K)) by (apply pow2_pos; lia).
  apply Z.log2_unique; [lia |]. unfold V.
  replace (d + E + K - 1) with (d - 1 + (E + K)) by lia.
  replace (Z.succ (d - 1 + (E + K))) with (d + (E + K)) by lia.
  rewrite (pow2_split (d - 1) (E + K)), (pow2_split d (E + K)) by lia. split.
  - apply Z.mul_le_mono_nonneg_r; lia.
  - apply Z.mul_lt_mono_pos_r; lia.
Qed.

Lemma ulp_V (M : positive) (E : Z) :
  - K <= E -> ulp (V M E) = 2 ^ (fexp prec emax (Zpos (digits2_pos M) + E) + K).
Proof. intros H. unfold ulp. rewrite log2_V, fexp64 by assumption. f_equal. lia. Qed.

Lemma first_shift (M : positive) (E : Z) :
  E <= fexp prec emax (Zpos (digits2_pos M) + E) ->
  exists mrs,
    shr_fexp prec emax (Zpos M) E loc_Exact = (mrs, fexp prec emax (Zpos (digits2_pos M) + E)) /\
    shr_bits (Zpos M) (fexp prec emax (Zpos (digits2_pos M) + E) - E) mrs.
Proof.
  intros HP. unfold shr_fexp. cbn [Zdigits2 shr_record_of_loc].
  set (e' := fexp prec emax (Zpos (digits2_pos M) + E)) in *.
  destruct (shr_bits_spec (Zpos M) E (e' - E) ltac:(lia)) as (mrs & Es & Hb).
  replace (Z.max (e' - E) 0) with (e' - E) in * by lia.
  replace (E + (e' - E)) with e' in Es by lia.
  exists mrs. split; assumption.
Qed.

(** A rounding returns the binary64 number nearest to the exact value. *)
Lemma RND_value (s : bool) (M : positive) (E : Z) :
  - K <= E -> E <= fexp prec emax (Zpos (digits2_pos M) + E) ->
  SFz (RND s M E) = cond_Zopp s (round_mag (V M E)).
Proof.
  intros HK HP. pose proof (eq_refl : K = 2148) as HKv.
  unfold round_mag. rewrite ulp_V by assumption.
  destruct (first_shift M E HP) as (mrs & Es & Hb).
  unfold RND, binary_round_aux. rewrite Es. cbv beta iota.
  rewrite fexp64 in *.
  set (d := Zpos (digits2_pos M)) in *.
  set (e' := Z.max (d + E - 53) (-1074)) in *.
  pose proof (digits2_bounds M) as [D1 D2]. fold d in D1, D2.
  assert (Hd : 0 < d) by (unfold d; lia).
  assert (Hk : 0 <= e' - E) by lia.
  assert (Pk : 0 < 2 ^ (e' - E)) by (apply pow2_pos; lia).
  assert (Pc : 0 < 2 ^ (E + K)) by (apply pow2_pos; lia).
  pose proof (round_bits (Zpos M) (e' - E) (2 ^ (E + K)) mrs ltac:(lia) Hk Pc Hb) as HR.
  fold (V M E) in HR.
  replace (2 ^ (e' - E) * 2 ^ (E + K)) with (2 ^ (e' + K)) in HR
    by (rewrite <- pow2_split by lia; f_equal; lia).
  destruct (round_nearest_even_faithful mrs) as [HB _].
  destruct Hb as [Hm _].
  set (R := round_nearest_even (shr_m mrs) (loc_of_shr_record mrs)) in *.
  rewrite Hm in HB. rewrite <- HR. clearbody R.
  set (m1 := Zpos M / 2 ^ (e' - E)) in *.
  assert (Hm1 : 0 <= m1) by (apply Z.div_pos; lia).
  apply second_round; [| unfold e'; lia |].
  - destruct (Z.le_gt_cases (-1074) (d + E - 53)) as [Hn | Hs].
    + assert (Hk' : e' - E = d - 53) by lia.
      assert (B2 : m1 < 2 ^ 53).
      { unfold m1. rewrite Hk'. apply Z.div_lt_upper_bound; [apply pow2_pos; lia |].
        rewrite <- pow2_split by lia. replace (d - 53 + 53) with d by lia. exact D2. }
      lia.
    + assert (B2 : m1 < 2 ^ 52).
      { unfold m1. apply Z.div_lt_upper_bound; [lia |].
        destruct (Z.le_gt_cases (e' - E) d) as [L | L].
        - assert (2 ^ d = 2 ^ (e' - E) * 2 ^ (d - (e' - E))).
          { rewrite <- pow2_split by lia. f_equal. lia. }
          assert (2 ^ (d - (e' - E)) <= 2 ^ 52) by (apply pow2_le; lia).
          nia.
        - assert (2 ^ d <= 2 ^ (e' - E)) by (apply pow2_le; lia).
          assert (0 < 2 ^ 52) by (apply pow2_pos; lia). nia. }
      assert (2 ^ 52 <= 2 ^ 53) by (apply pow2_le; lia). lia.
  - intros Hn.
    assert (Hk' : e' - E = d - 53) by lia.
    assert (B1 : 2 ^ 52 <= m1).
    { unfold m1. rewrite Hk'. apply Z.div_le_lower_bound; [apply pow2_pos; lia |].
      rewrite Z.mul_comm, <- pow2_split by lia. replace (52 + (d - 53)) with (d - 1) by lia. exact D1. }
    lia.
Qed.

Lemma binary_round_value (s : bool) (m : positive) (e : Z) :
  -1074 <= e -> SFz (binary_round prec emax s m e) = cond_Zopp s (round_mag (V m e)).
Proof.
  intros He. unfold binary_round. pose proof (eq_refl : K = 2148) as HKv.
  destruct (shl_align_spec m e (fexp prec emax (Zpos (digits2_pos m) + e)))
    as (mz & ez & -> & Hez & Hmz & Hdz).
  rewrite fexp64 in Hez.
  assert (HV : V mz ez = V m e) by (apply V_shift; [lia | exact Hmz]).
  assert (HD : Zpos (digits2_pos mz) + ez = Zpos (digits2_pos m) + e) by lia.
  assert (HP : ez <= fexp prec emax (Zpos (digits2_pos mz) + ez)).
  { rewrite HD, fexp64. lia. }
  fold (RND s mz ez). rewrite RND_value, HV by (assumption || lia). reflexivity.
Qed.

Lemma round_value_pos (x : Z) : 0 <= x -> round_value x = round_mag x.
Proof. intros H. unfold round_value. replace (x <? 0) with false by (symmetry; apply Z.ltb_ge; lia). reflexivity. Qed.

Lemma round_value_neg (x : Z) : 0 < x -> round_value (- x) = - round_mag x.
Proof.
  intros H. unfold round_value. replace (- x <? 0) with true by (symmetry; apply Z.ltb_lt; lia).
  rewrite Z.opp_involutive. reflexivity.
Qed.

Lemma round_value_cond (s : bool) (x : Z) :
  0 < x -> round_value (cond_Zopp s x) = cond_Zopp s (round_mag x).
Proof.
  intros H. destruct s; cbn [cond_Zopp]; [apply round_value_neg | apply round_value_pos]; lia.
Qed.

(** [binary_normalize] returns the binary64 number nearest to [z * 2^e]. *)
Lemma binary_normalize_value (z e : Z) (sz : bool) :
  -1074 <= e -> SFz (binary_normalize prec emax z e sz) = round_value (z * 2 ^ (e + K)).
Proof.
  intros He. pose proof (eq_refl : K = 2148) as HKv.
  destruct z as [| p | p]; cbn [binary_normalize].
  - cbn [SFz]. rewrite Z.mul_0_l, round_value_pos, round_mag_0 by lia. reflexivity.
  - rewrite binary_round_value by assumption. fold (V p e).
    pose proof (V_pos p e ltac:(lia)). rewrite round_value_pos by lia. reflexivity.
  - rewrite binary_round_value by assumption.
    replace (Zneg p * 2 ^ (e + K)) with (cond_Zopp true (V p e)) by (unfold V; cbn [cond_Zopp]; lia).
    rewrite round_value_cond by (apply V_pos; lia). reflexivity.
Qed.

(** A binary64 number is the one nearest to itself. *)
Lemma round_mag_representable (m : positive) (e : Z) :
  bounded prec emax m e = true -> round_mag (V m e) = V m e.
Proof.
  intros B. pose proof (V_lt_INF m e B) as [P L]. pose proof (eq_refl : K = 2148) as HKv.
  apply andb_prop in B. destruct B as [C _].
  destruct (canonical_digits _ _ C) as (He & _).
  unfold canonical_mantissa in C. apply Z.eqb_eq in C.
  unfold round_mag. rewrite ulp_V, C by lia. unfold V at 1.
  rewrite rne_exact by (apply pow2_pos; lia). fold (V m e). apply Z.min_l. lia.
Qed.

Lemma round_value_representable (x : spec_float) :
  valid_binary x = true -> SFfin x = true -> round_value (SFz x) = SFz x.
Proof.
  intros Vx Fx. pose proof (eq_refl : K = 2148) as HKv.
  destruct x as [s | s | | s m e]; try discriminate; cbn [SFz].
  - rewrite round_value_pos, round_mag_0 by lia. reflexivity.
  - cbn [valid_binary] in Vx. pose proof (V_lt_INF m e Vx) as [P _].
    rewrite round_value_cond, round_mag_representable by assumption. reflexivity.
Qed.

(** Subtraction returns the binary64 number nearest to the exact
    difference. *)
Lemma SFsub_value (x y : spec_float) :
  valid_binary x = true -> valid_binary y = true ->
  SFfin x = true -> SFfin y = true ->
  SFz (SFsub prec emax x y) = round_value (SFz x - SFz y).
Proof.
  intros Vx Vy Fx Fy.
  destruct x as [sx | sx | | sx mx ex]; try discriminate;
  destruct y as [sy | sy | | sy my ey]; try discriminate;
  cbn [SFsub]; cbn [SFz]; rewrite ?Z.sub_0_l, ?Z.sub_0_r.
  - change (round_value (- 0)) with (round_value 0).
    rewrite round_value_pos, round_mag_0 by lia. destruct sx, sy; reflexivity.
  - replace (- cond_Zopp sy (V my ey)) with (SFz (S754_finite (negb sy) my ey))
      by (destruct sy; cbn; lia).
    rewrite round_value_representable by auto. reflexivity.
  - symmetry. apply (round_value_representable (S754_finite sx mx ex)); auto.
  - cbn [valid_binary] in Vx, Vy. apply andb_prop in Vx, Vy.
    destruct Vx as [Cx _], Vy as [Cy _].
    destruct (canonical_digits _ _ Cx) as (X1 & _). destruct (canonical_digits _ _ Cy) as (Y1 & _).
    rewrite binary_normalize_value by lia.
    rewrite Z.mul_sub_distr_r, !aligned_value by lia. reflexivity.
Qed.

Lemma sub_value (a b : float) :
  Ffin a = true -> Ffin b = true -> Fz (a - b)%float = round_value (Fz a - Fz b).
Proof.
  intros Fa Fb. unfold Fz. rewrite sub_spec. apply SFsub_value; auto using Prim2SF_valid.
Qed.

(** Subtraction is monotone in the exact difference. *)
Lemma sub_mono (a b c d : float) :
  Ffin a = true -> Ffin b = true -> Ffin c = true -> Ffin d = true ->
  Fz a - Fz b <= Fz c - Fz d -> Fz (a - b)%float <= Fz (c - d)%float.
Proof.
  intros Fa Fb Fc Fd H. rewrite !sub_value by assumption. apply round_value_mono, H.
Qed.

(** ** Every row is drawn with a colour of the palette *)

(** The value of a row the effect stored lies in the range it stored. *)
Lemma row_in_range (engine : Engine) (fetch : Network) (st : AppState) (d : Cell) :
  loading (state (loadData engine fetch st)) = false ->
  In d (data (state (loadData engine fetch st))) ->
  Fnum (val_trans d) = true /\
  Fz (min (dataRange (state (loadData engine fetch st)))) <= Fz (val_trans d)
    <= Fz (max (dataRange (state (loadData engine fetch st)))).
Proof.
  intros Hl Hd. destruct (loadData_state engine fetch st Hl) as (_ & Er).
  rewrite loadData_data in Hd.
  assert (Hne : fst (loadCSVData fetch) <> []) by (intros E; rewrite E in Hd; destruct Hd).
  rewrite (Er Hne). cbn [min max].
  destruct (range_spec _ Hne (loadCSVData_no_NaN fetch)) as (Hv & _ & _).
  destruct (Hv (val_trans d) (in_map val_trans _ _ Hd)) as [L1 L2].
  apply leb_true_Fz in L1, L2. destruct L1 as (_ & Nv & L1), L2 as (_ & _ & L2).
  split; [exact Nv | split; assumption].
Qed.

Lemma sub_nonneg (a b : float) :
  Ffin a = true -> Ffin b = true -> Fz b <= Fz a -> 0 <= Fz (a - b)%float.
Proof.
  intros Fa Fb H. rewrite sub_value by assumption.
  rewrite <- round_mag_0, <- (round_value_pos 0) by lia. apply round_value_mono. lia.
Qed.

(** When the effect has completed and the range is not degenerate
    ([min < max], with a finite difference), the normalised value of every
    row lies between 0 and 1. *)
Theorem normalized_in_unit_interval (engine : Engine) (fetch : Network) (st : AppState) (d : Cell) :
  let st' := state (loadData engine fetch st) in
  let range := dataRange st' in
  loading st' = false ->
  In d (data st') ->
  (min range <? max range)%float = true ->
  is_finite (max range - min range)%float = true ->
  between 0 ((val_trans d - min range) / (max range - min range)) 1 = true.
Proof.
  intros st' range Hl Hd Hlt Hfin. subst range st'.
  destruct (row_in_range engine fetch st d Hl Hd) as (Nv & L1 & L2).
  set (range := dataRange (state (loadData engine fetch st))) in *.
  rewrite is_finite_Ffin in Hfin.
  rewrite ltb_Fz in Hlt. apply andb_prop in Hlt. destruct Hlt as [Hn Hlt].
  apply andb_prop in Hn. destruct Hn as [Nmin Nmax]. apply Z.ltb_lt in Hlt.
  destruct (sub_finite_operands _ _ Nmax Nmin Hfin) as [Fmax Fmin].
  pose proof (sub_positive _ _ Fmax Fmin Hlt) as Hpos.
  assert (Fv : Ffin (val_trans d) = true).
  { apply Ffin_bounds. apply Ffin_bounds in Fmin, Fmax. split; [exact Nv | lia]. }
  pose proof (sub_nonneg _ _ Fv Fmin L1) as S0.
  pose proof (sub_mono _ _ _ _ Fv Fmin Fmax Fmin ltac:(lia)) as S1.
  assert (Fs : Ffin (val_trans d - min range)%float = true).
  { apply Ffin_bounds. apply Ffin_bounds in Hfin.
    destruct (sub_Rounds _ _ Fv Fmin) as (_ & Ns & _).
    split; [exact Ns |]. assert (0 < INF) by (apply pow2_pos; unfold K; lia). lia. }
  unfold between.
  destruct (div_unit_interval _ _ Fs Hfin ltac:(lia) Hpos) as [D0 D1].
  rewrite D0, D1. reflexivity.
Qed.

Lemma normalized_in_unit_interval_witness :
  loading (state (loadData engine65536 (serves two_rows_csv) initialState)) = false /\
  In andheri (data (state (loadData engine65536 (serves two_rows_csv) initialState))) /\
  (min (dataRange (state (loadData engine65536 (serves two_rows_csv) initialState)))
   <? max (dataRange (state (loadData engine65536 (serves two_rows_csv) initialState))))%float = true /\
  is_finite (max (dataRange (state (loadData engine65536 (serves two_rows_csv) initialState)))
             - min (dataRange (state (loadData engine65536 (serves two_rows_csv) initialState))))%float = true /\
  between 0 ((val_trans andheri
              - min (dataRange (state (loadData engine65536 (serves two_rows_csv) initialState))))
             / (max (dataRange (state (loadData engine65536 (serves two_rows_csv) initialState)))
                - min (dataRange (state (loadData engine65536 (serves two_rows_csv) initialState))))) 1 = true.
Proof.
  split; [vm_compute; reflexivity |].
  split; [vm_compute; left; reflexivity |]. split; [vm_compute; reflexivity |].
  split; [vm_compute; reflexivity |].
  exact (normalized_in_unit_interval engine65536 (serves two_rows_csv) initialState andheri
           ltac:(vm_compute; reflexivity)
           ltac:(vm_compute; left; reflexivity) ltac:(vm_compute; reflexivity)
           ltac:(vm_compute; reflexivity)).
Defined.

(** The channels of the ramp at a number between 0 and 1 are integers from
    0 to 255. *)
Lemma unit_interval_channels (t : number) :
  Fnum t = true -> 0 <= Fz t <= U ->
  let '(r, g, b, a) := getKeplerColor t in
  valid_channel r = true /\ valid_channel g = true /\ valid_channel b = true /\
  valid_channel a = true.
Proof.
  intros Nt [L0 L1].
  pose proof U_pos as PU. pose proof Fz_025 as Q1. pose proof Fz_05 as Q2. pose proof Fz_075 as Q3.
  unfold getKeplerColor.
  destruct (t <=? 0.25)%float eqn:C1.
  { apply leb_true_Fz in C1. destruct C1 as (_ & _ & C1).
    destruct (t_first t Nt L0 ltac:(lia)) as [Ft Ht].
    split; [| split; [| split; [| reflexivity]]]; [channel 59%float 68 (-9) Ft Ht | channel 82%float 1 81 Ft Ht
                  | channel 139%float 84 55 Ft Ht]. }
  apply leb_false_Fz in C1; [| exact Nt | reflexivity].
  destruct (t <=? 0.5)%float eqn:C2.
  { apply leb_true_Fz in C2. destruct C2 as (_ & _ & C2).
    destruct (t_later t 0.25%float 1 Nt eq_refl ltac:(lia) ltac:(lia) ltac:(lia) ltac:(lia)) as [Ft Ht].
    split; [| split; [| split; [| reflexivity]]]; [channel 33%float 59 (-26) Ft Ht | channel 144%float 82 62 Ft Ht
                  | channel 140%float 139 1 Ft Ht]. }
  apply leb_false_Fz in C2; [| exact Nt | reflexivity].
  destruct (t <=? 0.75)%float eqn:C3.
  { apply leb_true_Fz in C3. destruct C3 as (_ & _ & C3).
    destruct (t_later t 0.5%float 2 Nt eq_refl ltac:(lia) ltac:(lia) ltac:(lia) ltac:(lia)) as [Ft Ht].
    split; [| split; [| split; [| reflexivity]]]; [channel 94%float 33 61 Ft Ht | channel 201%float 144 57 Ft Ht
                  | channel 98%float 140 (-42) Ft Ht]. }
  apply leb_false_Fz in C3; [| exact Nt | reflexivity].
  destruct (t_later t 0.75%float 3 Nt eq_refl ltac:(lia) ltac:(lia) ltac:(lia) ltac:(lia)) as [Ft Ht].
  split; [| split; [| split; [| reflexivity]]]; [channel 253%float 94 159 Ft Ht | channel 231%float 201 30 Ft Ht
                | channel 37%float 98 (-61) Ft Ht].
Qed.

(** When the effect has completed and the range is not degenerate, the fill
    colour of every row is a valid colour: four integers from 0 to 255. *)
Theorem getFillColor_valid (engine : Engine) (fetch : Network) (st : AppState) (d : Cell) :
  let st' := state (loadData engine fetch st) in
  let range := dataRange st' in
  loading st' = false ->
  In d (data st') ->
  (min range <? max range)%float = true ->
  is_finite (max range - min range)%float = true ->
  let '(r, g, b, a) := getFillColor range d in
  valid_channel r = true /\ valid_channel g = true /\ valid_channel b = true /\
  valid_channel a = true.
Proof.
  intros st' range Hl Hd Hlt Hfin. subst range st'.
  destruct (row_in_range engine fetch st d Hl Hd) as (Nv & L1 & L2).
  set (range := dataRange (state (loadData engine fetch st))) in *.
  rewrite is_finite_Ffin in Hfin.
  rewrite ltb_Fz in Hlt. apply andb_prop in Hlt. destruct Hlt as [Hn Hlt].
  apply andb_prop in Hn. destruct Hn as [Nmin Nmax]. apply Z.ltb_lt in Hlt.
  destruct (sub_finite_operands _ _ Nmax Nmin Hfin) as [Fmax Fmin].
  pose proof (sub_positive _ _ Fmax Fmin Hlt) as Hpos.
  assert (Fv : Ffin (val_trans d) = true).
  { apply Ffin_bounds. apply Ffin_bounds in Fmin, Fmax. split; [exact Nv | lia]. }
  pose proof (sub_nonneg _ _ Fv Fmin L1) as S0.
  pose proof (sub_mono _ _ _ _ Fv Fmin Fmax Fmin ltac:(lia)) as S1.
  assert (Fs : Ffin (val_trans d - min range)%float = true).
  { apply Ffin_bounds. apply Ffin_bounds in Hfin.
    destruct (sub_Rounds _ _ Fv Fmin) as (_ & Ns & _).
    split; [exact Ns |]. assert (0 < INF) by (apply pow2_pos; unfold K; lia). lia. }
  destruct (div_unit_interval _ _ Fs Hfin ltac:(lia) Hpos) as [D0 D1].
  apply leb_true_Fz in D0, D1. destruct D0 as (_ & Nn & D0), D1 as (_ & _ & D1).
  rewrite Fz_eq_0 in D0. rewrite Fz_1 in D1.
  unfold getFillColor. apply unit_interval_channels; [exact Nn | lia].
Qed.

Lemma getFillColor_valid_witness :
  loading (state (loadData engine65536 (serves two_rows_csv) initialState)) = false /\
  In andheri (data (state (loadData engine65536 (serves two_rows_csv) initialState))) /\
  (min (dataRange (state (loadData engine65536 (serves two_rows_csv) initialState)))
   <? max (dataRange (state (loadData engine65536 (serves two_rows_csv) initialState))))%float = true /\
  is_finite (max (dataRange (state (loadData engine65536 (serves two_rows_csv) initialState)))
             - min (dataRange (state (loadData engine65536 (serves two_rows_csv) initialState))))%float = true /\
  valid_channel
    (fst (fst (fst (getFillColor (dataRange (state (loadData engine65536 (serves two_rows_csv) initialState)))
                      andheri)))) = true.
Proof.
  split; [vm_compute; reflexivity |].
  split; [vm_compute; left; reflexivity |]. split; [vm_compute; reflexivity |].
  split; [vm_compute; reflexivity |].
  pose proof (getFillColor_valid engine65536 (serves two_rows_csv) initialState andheri
           ltac:(vm_compute; reflexivity)
                ltac:(vm_compute; left; reflexivity) ltac:(vm_compute; reflexivity)
                ltac:(vm_compute; reflexivity)) as H.
  destruct (getFillColor (dataRange (state (loadData engine65536 (serves two_rows_csv) initialState))) andheri)
    as [[[r g] b] a].
  exact (proj1 H).
Defined.

(** ** The channels of the ramp for every input *)





















